(** * The ADF document transformer of the Jira clone tool

    A shallow embedding of the two tree operations of [JiraClient.py]:
    [create_issue._extract_text_from_adf] (plain-text extraction) and
    [_adf_replace_media_with_attachment_links] (media nodes rewritten to
    attachment links), together with the keyword-argument binding of the
    call the driver script makes to [clone_issue_with_media_upload].

    The documents are the JSON values [response.json()] returns.  The pure
    model works on immutable trees and threads Python exceptions through a
    result type; a second model places the same code on a store of mutable
    list and dict objects, to account for object identity and in-place
    updates. *)

From Stdlib Require Import List String Ascii ZArith Bool Lia Arith DecimalString.
Import ListNotations.
Open Scope string_scope.

#[local] Set Warnings "-register-all".

(** ** Python values *)

(** A JSON value as Python represents it.  A [dict] keeps its items in
    insertion order, and [node.items()] walks them in that order, so a dict
    is an association list; keys are strings, as JSON object keys are.  A
    Python dict holds each key once: see [wf_value].  A float is carried by
    its [repr], which identifies it. *)
Inductive value : Type :=
| VNone
| VBool (b : bool)
| VInt (n : Z)
| VFloat (r : string)
| VStr (s : string)
| VList (xs : list value)
| VDict (items : list (string * value)).

Definition dict := list (string * value).

(** Built-in exceptions the modelled code can raise. *)
Inductive exn : Type := AttributeError | TypeError | KeyError | IndexError.

Inductive result (A : Type) : Type :=
| Ok (a : A)
| Raise (e : exn).
Arguments Ok {A} a.
Arguments Raise {A} e.

Definition bind {A B} (r : result A) (k : A -> result B) : result B :=
  match r with
  | Ok a => k a
  | Raise e => Raise e
  end.

Notation "x <- r ;; k" := (bind r (fun x => k))
  (at level 61, r at next level, right associativity).

(** [bool(v)]. *)
Definition truthy (v : value) : bool :=
  match v with
  | VNone => false
  | VBool b => b
  | VInt n => negb (n =? 0)%Z
  | VFloat r => negb ((r =? "0.0") || (r =? "-0.0"))
  | VStr s => negb (s =? "")
  | VList xs => match xs with [] => false | _ => true end
  | VDict items => match items with [] => false | _ => true end
  end.

(** [a or b], with [b] already evaluated (used where [b] cannot raise). *)
Definition py_or (a b : value) : value := if truthy a then a else b.

(** [v == s] for a string literal [s]. *)
Definition eq_str (v : value) (s : string) : bool :=
  match v with
  | VStr t => t =? s
  | _ => false
  end.

Definition isinstance_dict (v : value) : bool :=
  match v with VDict _ => true | _ => false end.

Definition isinstance_list (v : value) : bool :=
  match v with VList _ => true | _ => false end.

(** Not a list and not a dict. *)
Definition scalar (v : value) : bool :=
  match v with
  | VList _ | VDict _ => false
  | _ => true
  end.

(** *** dict operations *)

Fixpoint dict_get (k : string) (d : dict) : option value :=
  match d with
  | [] => None
  | (k', v) :: rest => if k' =? k then Some v else dict_get k rest
  end.

Definition dict_has (k : string) (d : dict) : bool :=
  match dict_get k d with Some _ => true | None => false end.

(** [d.get(k, default)]. *)
Definition get_default (d : dict) (k : string) (default : value) : value :=
  match dict_get k d with Some v => v | None => default end.

(** [d[k] = v]: an existing key keeps its position, a new key goes last. *)
Fixpoint dict_set (k : string) (v : value) (d : dict) : dict :=
  match d with
  | [] => [(k, v)]
  | (k', v') :: rest =>
      if k' =? k then (k', v) :: rest else (k', v') :: dict_set k v rest
  end.

(** [o.get(k, default)] on an arbitrary object: only a dict has [get]. *)
Definition meth_get (o : value) (k : string) (default : value) : result value :=
  match o with
  | VDict d => Ok (get_default d k default)
  | _ => Raise AttributeError
  end.

(** [c[0]]. A dict has string keys only, so key [0] is missing. *)
Definition subscript0 (c : value) : result value :=
  match c with
  | VList (x :: _) => Ok x
  | VList [] => Raise IndexError
  | VStr (String a _) => Ok (VStr (String a ""))
  | VStr "" => Raise IndexError
  | VDict _ => Raise KeyError
  | _ => Raise TypeError
  end.

(** [iter(c)], fully unrolled: a str yields its characters, a dict its keys. *)
Definition iterate (c : value) : result (list value) :=
  match c with
  | VList xs => Ok xs
  | VStr s => Ok (map (fun a => VStr (String a "")) (list_ascii_of_string s))
  | VDict items => Ok (map (fun kv => VStr (fst kv)) items)
  | _ => Raise TypeError
  end.

(** *** [str] *)

Definition hex_digit (n : N) : ascii :=
  match n with
  | 0 => "0" | 1 => "1" | 2 => "2" | 3 => "3" | 4 => "4" | 5 => "5"
  | 6 => "6" | 7 => "7" | 8 => "8" | 9 => "9" | 10 => "a" | 11 => "b"
  | 12 => "c" | 13 => "d" | 14 => "e" | _ => "f"
  end%N%char.

Fixpoint string_mem (a : ascii) (s : string) : bool :=
  match s with
  | "" => false
  | String b rest => (a =? b)%char || string_mem a rest
  end.

(** The body of [repr(s)] between the quotes, for quote character [q].
    Strings are byte strings here; bytes from 128 up (UTF-8 of non-ASCII
    text) are kept, as [repr] keeps printable non-ASCII characters. *)
Fixpoint repr_chars (q : ascii) (s : string) : string :=
  match s with
  | "" => ""
  | String a rest =>
      let n := N_of_ascii a in
      (if (a =? "\")%char then "\\"
       else if (a =? q)%char then String "\" (String q "")
       else if (n =? 10)%N then "\n"
       else if (n =? 13)%N then "\r"
       else if (n =? 9)%N then "\t"
       else if ((n <? 32) || (n =? 127))%N
            then String "\" (String "x" (String (hex_digit (n / 16)) (String (hex_digit (n mod 16)) "")))
       else String a "") ++ repr_chars q rest
  end.

Definition double_quote : ascii := ascii_of_nat 34.

Definition repr_str (s : string) : string :=
  let q := if string_mem "'" s && negb (string_mem double_quote s) then double_quote else "'"%char in
  String q (repr_chars q s ++ String q "").

Definition str_int (n : Z) : string := NilZero.string_of_int (Z.to_int n).

Definition str_bool (b : bool) : string := if b then "True" else "False".

(** [", ".join(parts)]. *)
Fixpoint join_comma (parts : list string) : string :=
  match parts with
  | [] => ""
  | [p] => p
  | p :: rest => p ++ ", " ++ join_comma rest
  end.

Fixpoint py_repr (v : value) : string :=
  match v with
  | VNone => "None"
  | VBool b => str_bool b
  | VInt n => str_int n
  | VFloat r => r
  | VStr s => repr_str s
  | VList xs => "[" ++ join_comma (map py_repr xs) ++ "]"
  | VDict items =>
      "{" ++ join_comma (map (fun kv => repr_str (fst kv) ++ ": " ++ py_repr (snd kv)) items) ++ "}"
  end.

(** [str(v)]. *)
Definition py_str (v : value) : string :=
  match v with
  | VStr s => s
  | _ => py_repr v
  end.

(** ["".join(parts)]. *)
Definition join_empty (parts : list string) : string := String.concat "" parts.

(** [filter(None, texts)] on strings: the empty ones are dropped. *)
Definition filter_none (texts : list string) : list string :=
  filter (fun s => negb (s =? "")) texts.

(** ** Plain-text extraction: [create_issue._extract_text_from_adf] *)

(** [node.get('type') in ('media', 'mediaSingle', 'mediaGroup')]. *)
Definition in_media_family (ty : value) : bool :=
  eq_str ty "media" || eq_str ty "mediaSingle" || eq_str ty "mediaGroup".

Fixpoint _extract_text_from_adf (node : value) : string :=
  match node with
  | VDict items =>
      if in_media_family (get_default items "type" VNone) then ""
      else
        let texts :=
          if eq_str (get_default items "type" VNone) "text" && dict_has "text" items
          then [py_str (get_default items "text" VNone)]
          else [] in
        let texts := (texts ++ map (fun kv => _extract_text_from_adf (snd kv)) items)%list in
        join_empty (filter_none texts)
  | VList xs => join_empty (map _extract_text_from_adf xs)
  | _ => ""
  end.

(** ** Media rewriting: [_adf_replace_media_with_attachment_links] *)

(** One item of [copied_attachments], the dict [copy_attachments] appends
    for each re-uploaded file.  Its ['filename'] has gone through
    [os.path.join(temp_dir, filename)], which accepts a JSON value only if
    it is a string; the other fields are whatever [.get] returned. *)
Record attachment : Type := {
  old_id : value;
  new_id : value;
  filename : string;
  content : value
}.

(** The dict comprehension that builds [filename_to_url]; a filename that
    occurs again overwrites the URL and keeps its place.  [None] for
    [copied_attachments] is read as the empty list ([copied_attachments or []]). *)
Definition filename_to_url (copied_attachments : option (list attachment)) : dict :=
  fold_left
    (fun acc item =>
       if truthy (VStr (filename item)) && truthy (content item)
       then dict_set (filename item) (content item) acc
       else acc)
    (match copied_attachments with Some items => items | None => [] end)
    [].

(** [filename_to_url.get(key)]: the key is hashed first, and a list or a
    dict is unhashable; the keys of the map are strings, which equal no
    other JSON scalar. *)
Definition url_lookup (m : dict) (key : value) : result value :=
  match key with
  | VList _ | VDict _ => Raise TypeError
  | VStr s => Ok (get_default m s VNone)
  | _ => Ok VNone
  end.

Definition text_node (text : value) : value :=
  VDict [("type", VStr "text"); ("text", text)].

Definition link_mark (url : value) : value :=
  VDict [("type", VStr "link"); ("attrs", VDict [("href", url)])].

Definition linked_text_node (text url : value) : value :=
  VDict [("type", VStr "text"); ("text", text); ("marks", VList [link_mark url])].

Definition paragraph (children : list value) : value :=
  VDict [("type", VStr "paragraph"); ("content", VList children)].

Definition make_link_paragraph (fname url : value) : value :=
  let text := py_or fname (VStr "attachment") in
  if negb (truthy url) then paragraph [text_node text]
  else paragraph [linked_text_node text url].

(** [media.get('attrs', {}).get('fileName') or media.get('attrs', {}).get('name')]. *)
Definition media_filename (media : value) : result value :=
  attrs <- meth_get media "attrs" (VDict []) ;;
  file_name <- meth_get attrs "fileName" VNone ;;
  if truthy file_name then Ok file_name
  else
    attrs' <- meth_get media "attrs" (VDict []) ;;
    meth_get attrs' "name" VNone.

(** The three statements the [mediaSingle], [mediaGroup] and [media]
    branches of [transform] each run on a media reference:
    [filename = ...; url = filename_to_url.get(filename);
     make_link_paragraph(filename or 'image', url)]. *)
Definition media_paragraph (m : dict) (media : value) : result value :=
  fname <- media_filename media ;;
  url <- url_lookup m fname ;;
  Ok (make_link_paragraph (py_or fname (VStr "image")) url).

(** The [for media in ...] loop of the [mediaGroup] branch. *)
Fixpoint media_paragraphs (m : dict) (medias : list value) : result (list value) :=
  match medias with
  | [] => Ok []
  | media :: rest =>
      p <- media_paragraph m media ;;
      ps <- media_paragraphs m rest ;;
      Ok (p :: ps)
  end.

Definition empty_paragraph : value := paragraph [text_node (VStr "")].

Definition doc_wrapper (paragraphs : list value) : value :=
  VDict [("type", VStr "doc"); ("version", VInt 1); ("content", VList paragraphs)].

(** The test on [transformed_child] in the content loop: a dict of type
    ['doc'] with a list under ['content'] is merged in, anything else is
    appended. *)
Definition merge_child (acc : list value) (transformed_child : value) : list value :=
  match transformed_child with
  | VDict d =>
      if eq_str (get_default d "type" VNone) "doc" then
        match get_default d "content" VNone with
        | VList cs => (acc ++ cs)%list
        | _ => (acc ++ [transformed_child])%list
        end
      else (acc ++ [transformed_child])%list
  | _ => (acc ++ [transformed_child])%list
  end.

Fixpoint transform (m : dict) (node : value) {struct node} : result value :=
  match node with
  | VDict items =>
      let node_type := get_default items "type" VNone in
      if eq_str node_type "mediaSingle" then
        media <- (if truthy (get_default items "content" VNone)
                  then subscript0 (get_default items "content" (VList [VDict []]))
                  else Ok (VDict [])) ;;
        media_paragraph m media
      else if eq_str node_type "mediaGroup" then
        medias <- iterate (py_or (get_default items "content" (VList [])) (VList [])) ;;
        paragraphs <- media_paragraphs m medias ;;
        Ok (match paragraphs with
            | [] => empty_paragraph
            | _ => doc_wrapper paragraphs
            end)
      else if eq_str node_type "media" then
        media_paragraph m node
      else
        (fix each_item (kvs : dict) (new_node : dict) {struct kvs} : result value :=
           match kvs with
           | [] => Ok (VDict new_node)
           | (k, v) :: rest =>
               if k =? "content" then
                 match v with
                 | VList children =>
                     cs <- (fix each_child (children : list value) (acc : list value)
                              {struct children} : result (list value) :=
                              match children with
                              | [] => Ok acc
                              | child :: more =>
                                  transformed_child <- transform m child ;;
                                  each_child more (merge_child acc transformed_child)
                              end) children [] ;;
                     each_item rest (dict_set k (VList cs) new_node)
                 | _ =>
                     tv <- transform m v ;;
                     each_item rest (dict_set k tv new_node)
                 end
               else
                 tv <- transform m v ;;
                 each_item rest (dict_set k tv new_node)
           end) items []
  | VList xs =>
      ys <- (fix each (xs : list value) : result (list value) :=
               match xs with
               | [] => Ok []
               | child :: more =>
                   y <- transform m child ;;
                   ys <- each more ;;
                   Ok (y :: ys)
               end) xs ;;
      Ok (VList ys)
  | _ => Ok node
  end.

(** The loops of [transform], named. *)
Section Loops.

Variable m : dict.

Fixpoint transform_children (children acc : list value) : result (list value) :=
  match children with
  | [] => Ok acc
  | child :: more =>
      transformed_child <- transform m child ;;
      transform_children more (merge_child acc transformed_child)
  end.

Fixpoint transform_items (kvs new_node : dict) : result value :=
  match kvs with
  | [] => Ok (VDict new_node)
  | (k, v) :: rest =>
      if k =? "content" then
        match v with
        | VList children =>
            cs <- transform_children children [] ;;
            transform_items rest (dict_set k (VList cs) new_node)
        | _ =>
            tv <- transform m v ;;
            transform_items rest (dict_set k tv new_node)
        end
      else
        tv <- transform m v ;;
        transform_items rest (dict_set k tv new_node)
  end.

Fixpoint transform_list (xs : list value) : result (list value) :=
  match xs with
  | [] => Ok []
  | child :: more =>
      y <- transform m child ;;
      ys <- transform_list more ;;
      Ok (y :: ys)
  end.

(** The value the item loop stores under [k] for the item [(k, v)]. *)
Definition transform_item (kv : string * value) : result value :=
  if fst kv =? "content" then
    match snd kv with
    | VList children =>
        cs <- transform_children children [] ;;
        Ok (VList cs)
    | _ => transform m (snd kv)
    end
  else transform m (snd kv).

(** The item loop on a dict whose keys are all different: every
    assignment [new_node[k] = ...] adds an item. *)
Fixpoint transform_each_item (kvs : dict) : result dict :=
  match kvs with
  | [] => Ok []
  | kv :: rest =>
      tv <- transform_item kv ;;
      out <- transform_each_item rest ;;
      Ok ((fst kv, tv) :: out)
  end.

End Loops.

(** What one transformed child adds to the content under construction. *)
Definition merged (transformed_child : value) : list value :=
  merge_child [] transformed_child.

(** [target.append(x)]: only a list has [append]. *)
Definition list_append (target x : value) : result value :=
  match target with
  | VList xs => Ok (VList (xs ++ [x]))
  | _ => Raise AttributeError
  end.

Definition attachments_heading : value := paragraph [text_node (VStr "Attachments:")].

Definition attachment_item (name : string) (url : value) : value :=
  VDict [("type", VStr "listItem");
         ("content", VList [paragraph [linked_text_node (VStr name) url]])].

Definition attachments_list (m : dict) : value :=
  VDict [("type", VStr "bulletList");
         ("content", VList (map (fun entry => attachment_item (fst entry) (snd entry)) m))].

(** The post-pass on the transformed root.  [setdefault] adds an empty
    list under ['content'] when the key is missing, and both [append]s act
    on the object stored under ['content']; on immutable trees each is
    written back under the same key. *)
Definition append_attachments (m : dict) (transformed : value) : result value :=
  match transformed with
  | VDict d =>
      if eq_str (get_default d "type" VNone) "doc" then
        let urls := filter truthy (map snd m) in
        if truthy (VList urls) then
          let d0 := if dict_has "content" d then d else dict_set "content" (VList []) d in
          c1 <- list_append (get_default d0 "content" VNone) attachments_heading ;;
          let d1 := dict_set "content" c1 d0 in
          c2 <- list_append (get_default d1 "content" VNone) (attachments_list m) ;;
          Ok (VDict (dict_set "content" c2 d1))
        else Ok transformed
      else Ok transformed
  | _ => Ok transformed
  end.

Definition _adf_replace_media_with_attachment_links
    (adf_doc : value) (copied_attachments : option (list attachment)) : result value :=
  let m := filename_to_url copied_attachments in
  transformed <- transform m adf_doc ;;
  append_attachments m transformed.

(** ** Shapes of documents *)

Fixpoint unique_keys (ks : list string) : bool :=
  match ks with
  | [] => true
  | k :: rest => negb (existsb (String.eqb k) rest) && unique_keys rest
  end.

(** A value a Python program can hold: every dict has each key once. *)
Fixpoint wf_value (v : value) : bool :=
  match v with
  | VDict items =>
      unique_keys (map fst items) && forallb (fun kv => wf_value (snd kv)) items
  | VList xs => forallb wf_value xs
  | _ => true
  end.

(** No dict anywhere in the value, under whatever key, is of a
    media-family type. *)
Fixpoint media_free (v : value) : bool :=
  match v with
  | VDict items =>
      negb (in_media_family (get_default items "type" VNone))
      && forallb (fun kv => media_free (snd kv)) items
  | VList xs => forallb media_free xs
  | _ => true
  end.

(** The values the content loop merges into the parent: a dict of type
    ['doc'] whose ['content'] is a list. *)
Definition is_splice (v : value) : bool :=
  match v with
  | VDict d =>
      eq_str (get_default d "type" VNone) "doc"
      && isinstance_list (get_default d "content" VNone)
  | _ => false
  end.

(** No list stored under a ['content'] key has such a value as an element. *)
Fixpoint splice_free (v : value) : bool :=
  match v with
  | VDict items =>
      forallb (fun kv =>
                 splice_free (snd kv)
                 && (if fst kv =? "content"
                     then match snd kv with
                          | VList cs => forallb (fun c => negb (is_splice c)) cs
                          | _ => true
                          end
                     else true)) items
  | VList xs => forallb splice_free xs
  | _ => true
  end.

(** The shape a pass of [transform] leaves behind. *)
Definition settled (v : value) : bool :=
  wf_value v && media_free v && splice_free v.

Definition is_doc (v : value) : bool :=
  match v with
  | VDict d => eq_str (get_default d "type" VNone) "doc"
  | _ => false
  end.

(** A media reference on which the three statements of a media branch
    run through: a dict whose ['attrs'], if present, is a dict, and whose
    filename can be hashed. *)
Definition media_ok (media : value) : bool :=
  match media with
  | VDict d =>
      match get_default d "attrs" (VDict []) with
      | VDict attrs =>
          scalar (if truthy (get_default attrs "fileName" VNone)
                  then get_default attrs "fileName" VNone
                  else get_default attrs "name" VNone)
      | _ => false
      end
  | _ => false
  end.

(** The trees whose media-family nodes hold media references of that
    kind: the ['content'] of a [mediaSingle] is falsy or a list that starts
    with one, the ['content'] of a [mediaGroup] is falsy or a list of them. *)
Fixpoint well_shaped (v : value) : bool :=
  match v with
  | VDict items =>
      let node_type := get_default items "type" VNone in
      if eq_str node_type "mediaSingle" then
        if truthy (get_default items "content" VNone) then
          match get_default items "content" VNone with
          | VList (media :: _) => media_ok media
          | _ => false
          end
        else true
      else if eq_str node_type "mediaGroup" then
        match py_or (get_default items "content" (VList [])) (VList []) with
        | VList medias => forallb media_ok medias
        | _ => false
        end
      else if eq_str node_type "media" then media_ok v
      else forallb (fun kv => well_shaped (snd kv)) items
  | VList xs => forallb well_shaped xs
  | _ => true
  end.

(** A root of type ['doc'] has a list under ['content'], or no such key. *)
Definition root_ok (v : value) : bool :=
  match v with
  | VDict d =>
      if eq_str (get_default d "type" VNone) "doc" then
        match dict_get "content" d with
        | None | Some (VList _) => true
        | Some _ => false
        end
      else true
  | _ => true
  end.

(** ** The extractor in the specification's words *)

(** The [text] values of the text-typed nodes outside media-family
    subtrees, in document order: a node before its fields, the fields in
    their order. *)
Fixpoint visible_texts (v : value) : list value :=
  match v with
  | VDict items =>
      if in_media_family (get_default items "type" VNone) then []
      else
        ((if eq_str (get_default items "type" VNone) "text" && dict_has "text" items
          then [get_default items "text" VNone]
          else [])
         ++ flat_map (fun kv => visible_texts (snd kv)) items)%list
  | VList xs => flat_map visible_texts xs
  | _ => []
  end.

(** The document with every media-family subtree cut down to its type tag. *)
Fixpoint prune_media (v : value) : value :=
  match v with
  | VDict items =>
      if in_media_family (get_default items "type" VNone)
      then VDict [("type", get_default items "type" VNone)]
      else VDict (map (fun kv => (fst kv, prune_media (snd kv))) items)
  | VList xs => VList (map prune_media xs)
  | _ => v
  end.

(** Every URL of the mapping is a scalar (a string, as a download URL is). *)
Definition scalar_urls (m : dict) : bool :=
  forallb (fun entry => scalar (snd entry)) m.

(** Every text-typed node outside the media-family subtrees has a scalar
    under ['text']. *)
Fixpoint plain_texts (v : value) : bool :=
  match v with
  | VDict items =>
      in_media_family (get_default items "type" VNone)
      || ((if eq_str (get_default items "type" VNone) "text" && dict_has "text" items
           then scalar (get_default items "text" VNone)
           else true)
          && forallb (fun kv => plain_texts (snd kv)) items)
  | VList xs => forallb plain_texts xs
  | _ => true
  end.

(** ** The rewriter's media paragraph in the specification's words *)

(** One paragraph holding one text node with the filename; the text node
    carries a link mark exactly when the mapping has the filename. *)
Definition spec_link_paragraph (m : dict) (f : string) : value :=
  match dict_get f m with
  | Some url => paragraph [linked_text_node (VStr f) url]
  | None => paragraph [text_node (VStr f)]
  end.

(** ** [clone_issue_with_media_upload] and the call the driver makes *)

(** A parameter of a [def]: its name and its default, if it has one. *)
Record param : Type := {
  param_name : string;
  param_default : option value
}.

(** [def clone_issue_with_media_upload(self, source_issue_key, project_key,
    summary=None, issue_type="Task", due_date=None, labels=None,
    link_type="Relates", models=None)], without [self]. *)
Definition clone_issue_with_media_upload_params : list param :=
  [ {| param_name := "source_issue_key"; param_default := None |};
    {| param_name := "project_key"; param_default := None |};
    {| param_name := "summary"; param_default := Some VNone |};
    {| param_name := "issue_type"; param_default := Some (VStr "Task") |};
    {| param_name := "due_date"; param_default := Some VNone |};
    {| param_name := "labels"; param_default := Some VNone |};
    {| param_name := "link_type"; param_default := Some (VStr "Relates") |};
    {| param_name := "models"; param_default := Some VNone |} ].

(** Some keyword of the call names no parameter (the function takes no
    catch-all keyword parameter). *)
Definition unexpected_keyword (params : list param) (kwargs : dict) : bool :=
  existsb (fun kw => negb (existsb (fun p => param_name p =? fst kw) params)) kwargs.

Fixpoint bind_params (params : list param) (kwargs : dict) : result dict :=
  match params with
  | [] => Ok []
  | p :: rest =>
      match dict_get (param_name p) kwargs, param_default p with
      | Some v, _ =>
          bound <- bind_params rest kwargs ;;
          Ok ((param_name p, v) :: bound)
      | None, Some default =>
          bound <- bind_params rest kwargs ;;
          Ok ((param_name p, default) :: bound)
      | None, None => Raise TypeError
      end
  end.

(** Binding the keyword arguments of a call to the parameters: Python does
    this before the first statement of the body runs. *)
Definition bind_arguments (params : list param) (kwargs : dict) : result dict :=
  if unexpected_keyword params kwargs then Raise TypeError
  else bind_params params kwargs.

(** The keyword arguments at the call site of the driver script. *)
Definition driver_kwargs
    (org_key clone_project_key summary issue_type due_date
     clone_label clone_models parent_key : value) : dict :=
  [ ("source_issue_key", org_key);
    ("project_key", clone_project_key);
    ("summary", summary);
    ("issue_type", issue_type);
    ("due_date", due_date);
    ("labels", clone_label);
    ("models", clone_models);
    ("parent_key", parent_key) ].

Section Clone.

(** The tracker behind the HTTP calls, and the methods that talk to it. *)
Variable world : Type.
Variable get_issue : value -> world -> world * value.
Variable create_issue : dict -> world -> world * value.
Variable copy_attachments : value -> value -> world -> world * option (list attachment).
Variable put_description : value -> value -> world -> world.

Definition clone_issue_with_media_upload_body (args : dict) (w : world)
    : world * result value :=
  let source_issue_key := get_default args "source_issue_key" VNone in
  let (w, source) := get_issue source_issue_key w in
  if negb (truthy source) then (w, Ok VNone)
  else
    match meth_get source "fields" (VDict []) with
    | Raise e => (w, Raise e)
    | Ok fields =>
    match meth_get fields "description" VNone with
    | Raise e => (w, Raise e)
    | Ok original_desc =>
    match (if truthy (get_default args "summary" VNone)
           then Ok (get_default args "summary" VNone)
           else meth_get fields "summary"
                  (VStr ("Cloned from " ++ py_str source_issue_key))) with
    | Raise e => (w, Raise e)
    | Ok new_summary =>
        let (w, new_issue_key) :=
          create_issue
            [ ("project_key", get_default args "project_key" VNone);
              ("summary", new_summary);
              ("issue_type", get_default args "issue_type" VNone);
              ("description", VNone);
              ("due_date", get_default args "due_date" VNone);
              ("labels", get_default args "labels" VNone);
              ("linked_issue_key", source_issue_key);
              ("models", get_default args "models" VNone) ] w in
        if negb (truthy new_issue_key) then (w, Ok VNone)
        else
          let (w, copied) := copy_attachments source_issue_key new_issue_key w in
          if isinstance_dict original_desc then
            match _adf_replace_media_with_attachment_links original_desc copied with
            | Raise e => (w, Raise e)
            | Ok transformed_adf =>
                (put_description new_issue_key transformed_adf w, Ok new_issue_key)
            end
          else (w, Ok new_issue_key)
    end end end.

(** A call of the method with keyword arguments [kwargs]. *)
Definition call_clone_issue_with_media_upload (kwargs : dict) (w : world)
    : world * result value :=
  match bind_arguments clone_issue_with_media_upload_params kwargs with
  | Raise e => (w, Raise e)
  | Ok args => clone_issue_with_media_upload_body args w
  end.

End Clone.

(** ** Sample documents *)

Definition sample_media (f : string) : value :=
  VDict [("type", VStr "media"); ("attrs", VDict [("id", VStr "0"); ("fileName", VStr f)])].

Definition sample_media_single (f : string) : value :=
  VDict [("type", VStr "mediaSingle");
         ("attrs", VDict [("layout", VStr "center")]);
         ("content", VList [sample_media f])].

Definition sample_media_group (fs : list string) : value :=
  VDict [("type", VStr "mediaGroup"); ("content", VList (map sample_media fs))].

Definition sample_doc (children : list value) : value :=
  VDict [("type", VStr "doc"); ("version", VInt 1); ("content", VList children)].

Definition sample_attachment (f url : string) : attachment :=
  {| old_id := VStr "10001"; new_id := VStr "10002"; filename := f; content := VStr url |}.

(** A document with a paragraph and an embedded image, and the record of
    one copied attachment, under another filename. *)
Definition sample_page : value :=
  sample_doc [paragraph [text_node (VStr "Hello")]; sample_media_single "a.png"].

Definition sample_copied : option (list attachment) :=
  Some [sample_attachment "c.png" "https://x/c.png"].

(** A document without media nodes. *)
Definition sample_plain_page : value :=
  sample_doc [paragraph [text_node (VStr "Hello "); text_node (VStr "world")]].

(** A [mediaSingle] whose content is a list of filenames, not of nodes. *)
Definition sample_malformed : value :=
  VDict [("type", VStr "mediaSingle"); ("content", VList [VStr "a.png"])].

(** ** The same code on a store of objects *)

(** Python lists and dicts are objects with an identity; a variable, a
    list slot or a dict value holds a reference to one, or an immutable
    scalar.  The store is the sequence of objects allocated so far, the
    location of an object its position. *)
Definition loc := nat.

Inductive ref : Type :=
| RNone
| RBool (b : bool)
| RInt (n : Z)
| RFloat (r : string)
| RStr (s : string)
| RObj (l : loc).

Inductive object : Type :=
| OList (xs : list ref)
| ODict (items : list (string * ref)).

Definition store := list object.

(** How a run ends: with a value, with an exception, or stuck (out of
    fuel, or at a location the store does not have). *)
Inductive outcome (A : Type) : Type :=
| Returns (a : A)
| Raises (e : exn)
| Stuck.
Arguments Returns {A} a.
Arguments Raises {A} e.
Arguments Stuck {A}.

Definition run (A : Type) : Type := store -> store * outcome A.

Definition ret {A} (a : A) : run A := fun h => (h, Returns a).

Definition raise {A} (e : exn) : run A := fun h => (h, Raises e).

Definition stuck {A} : run A := fun h => (h, Stuck).

Definition bind_run {A B} (c : run A) (k : A -> run B) : run B :=
  fun h =>
    match c h with
    | (h', Returns a) => k a h'
    | (h', Raises e) => (h', Raises e)
    | (h', Stuck) => (h', Stuck)
    end.

Notation "x <~ c ;; k" := (bind_run c (fun x => k))
  (at level 61, c at next level, right associativity).

Fixpoint set_nth {A} (n : nat) (a : A) (l : list A) : list A :=
  match l, n with
  | [], _ => []
  | _ :: rest, O => a :: rest
  | x :: rest, S n' => x :: set_nth n' a rest
  end.

(** A new object, placed after all the others. *)
Definition alloc (o : object) : run loc :=
  fun h => ((h ++ [o])%list, Returns (List.length h)).

Definition load (l : loc) : run object :=
  fun h =>
    match nth_error h l with
    | Some o => (h, Returns o)
    | None => (h, Stuck)
    end.

(** The object at [l] is replaced: every reference to [l] sees the change. *)
Definition store_at (l : loc) (o : object) : run unit :=
  fun h =>
    match nth_error h l with
    | Some _ => (set_nth l o h, Returns tt)
    | None => (h, Stuck)
    end.

Fixpoint lookup (k : string) (items : list (string * ref)) : option ref :=
  match items with
  | [] => None
  | (k', x) :: rest => if k' =? k then Some x else lookup k rest
  end.

Definition items_get (items : list (string * ref)) (k : string) (default : ref) : ref :=
  match lookup k items with Some x => x | None => default end.

Fixpoint items_set (k : string) (x : ref) (items : list (string * ref))
    : list (string * ref) :=
  match items with
  | [] => [(k, x)]
  | (k', x') :: rest =>
      if k' =? k then (k', x) :: rest else (k', x') :: items_set k x rest
  end.

Definition r_eq_str (x : ref) (s : string) : bool :=
  match x with
  | RStr t => t =? s
  | _ => false
  end.

(** [bool(x)]: the truth of a list or dict is read off the object. *)
Definition r_truthy (x : ref) : run bool :=
  match x with
  | RNone => ret false
  | RBool b => ret b
  | RInt n => ret (negb (n =? 0)%Z)
  | RFloat r => ret (negb ((r =? "0.0") || (r =? "-0.0")))
  | RStr s => ret (negb (s =? ""))
  | RObj l =>
      o <~ load l ;;
      ret (match o with
           | OList [] | ODict [] => false
           | _ => true
           end)
  end.

(** [o.get(k, default)], the default already evaluated. *)
Definition r_get (o : ref) (k : string) (default : ref) : run ref :=
  match o with
  | RObj l =>
      ob <~ load l ;;
      match ob with
      | ODict items => ret (items_get items k default)
      | OList _ => raise AttributeError
      end
  | _ => raise AttributeError
  end.

(** [c[0]]. *)
Definition r_subscript0 (c : ref) : run ref :=
  match c with
  | RObj l =>
      ob <~ load l ;;
      match ob with
      | OList (x :: _) => ret x
      | OList [] => raise IndexError
      | ODict _ => raise KeyError
      end
  | RStr (String a _) => ret (RStr (String a ""))
  | RStr "" => raise IndexError
  | _ => raise TypeError
  end.

(** The elements a [for] loop over [c] visits. *)
Definition r_iterate (c : ref) : run (list ref) :=
  match c with
  | RObj l =>
      ob <~ load l ;;
      match ob with
      | OList xs => ret xs
      | ODict items => ret (map (fun kv => RStr (fst kv)) items)
      end
  | RStr s => ret (map (fun a => RStr (String a "")) (list_ascii_of_string s))
  | _ => raise TypeError
  end.

(** [target.append(x)]. *)
Definition r_append (target x : ref) : run unit :=
  match target with
  | RObj l =>
      ob <~ load l ;;
      match ob with
      | OList xs => store_at l (OList (xs ++ [x])%list)
      | ODict _ => raise AttributeError
      end
  | _ => raise AttributeError
  end.

(** [target.extend(source)] for two lists. *)
Definition r_extend (target : loc) (more : list ref) : run unit :=
  ob <~ load target ;;
  match ob with
  | OList xs => store_at target (OList (xs ++ more)%list)
  | ODict _ => raise AttributeError
  end.

(** [d[k] = x] on the dict at [l]. *)
Definition r_setitem (l : loc) (k : string) (x : ref) : run unit :=
  ob <~ load l ;;
  match ob with
  | ODict items => store_at l (ODict (items_set k x items))
  | OList _ => raise TypeError
  end.

(** [d[k]] on the dict at [l]. *)
Definition r_getitem (l : loc) (k : string) : run ref :=
  ob <~ load l ;;
  match ob with
  | ODict items =>
      match lookup k items with
      | Some x => ret x
      | None => raise KeyError
      end
  | OList _ => raise TypeError
  end.

(** A list or dict display whose leaves are already evaluated. *)
Inductive tree : Type :=
| TRef (x : ref)
| TList (ts : list tree)
| TDict (items : list (string * tree)).

(** Evaluating a display allocates its lists and dicts, the inner ones
    first, from left to right. *)
Fixpoint build (t : tree) : run ref :=
  match t with
  | TRef x => ret x
  | TList ts =>
      xs <~ (fix each (ts : list tree) : run (list ref) :=
               match ts with
               | [] => ret []
               | t :: rest =>
                   x <~ build t ;;
                   xs <~ each rest ;;
                   ret (x :: xs)
               end) ts ;;
      l <~ alloc (OList xs) ;;
      ret (RObj l)
  | TDict items =>
      xs <~ (fix each (items : list (string * tree)) : run (list (string * ref)) :=
               match items with
               | [] => ret []
               | (k, t) :: rest =>
                   x <~ build t ;;
                   xs <~ each rest ;;
                   ret ((k, x) :: xs)
               end) items ;;
      l <~ alloc (ODict xs) ;;
      ret (RObj l)
  end.

Definition t_str (s : string) : tree := TRef (RStr s).

Definition t_text_node (text : ref) : tree :=
  TDict [("type", t_str "text"); ("text", TRef text)].

Definition t_linked_text_node (text url : ref) : tree :=
  TDict [("type", t_str "text"); ("text", TRef text);
         ("marks", TList [TDict [("type", t_str "link");
                                 ("attrs", TDict [("href", TRef url)])]])].

Definition t_paragraph (children : list tree) : tree :=
  TDict [("type", t_str "paragraph"); ("content", TList children)].

Section StoreTransform.

(** [filename_to_url], with the URLs as the references the dict holds. *)
Variable m : list (string * ref).

Definition h_make_link_paragraph (fname url : ref) : run ref :=
  t <~ r_truthy fname ;;
  let text := if t then fname else RStr "attachment" in
  u <~ r_truthy url ;;
  if negb u then build (t_paragraph [t_text_node text])
  else build (t_paragraph [t_linked_text_node text url]).

(** Each [media.get('attrs', {})] evaluates its default, a new dict. *)
Definition h_media_filename (media : ref) : run ref :=
  d <~ alloc (ODict []) ;;
  attrs <~ r_get media "attrs" (RObj d) ;;
  file_name <~ r_get attrs "fileName" RNone ;;
  t <~ r_truthy file_name ;;
  if t then ret file_name
  else
    d' <~ alloc (ODict []) ;;
    attrs' <~ r_get media "attrs" (RObj d') ;;
    r_get attrs' "name" RNone.

(** A list or a dict cannot be hashed. *)
Definition h_url_lookup (key : ref) : run ref :=
  match key with
  | RObj _ => raise TypeError
  | RStr s => ret (items_get m s RNone)
  | _ => ret RNone
  end.

Definition h_media_paragraph (media : ref) : run ref :=
  fname <~ h_media_filename media ;;
  url <~ h_url_lookup fname ;;
  t <~ r_truthy fname ;;
  h_make_link_paragraph (if t then fname else RStr "image") url.

(** The [for media in ...] loop: each paragraph is appended to the list
    [paragraphs]. *)
Fixpoint h_each_media (paragraphs : loc) (medias : list ref) : run unit :=
  match medias with
  | [] => ret tt
  | media :: rest =>
      p <~ h_media_paragraph media ;;
      _ <~ r_append (RObj paragraphs) p ;;
      h_each_media paragraphs rest
  end.

(** [transform] on the children, with the fuel that is left. *)
Variable rec : ref -> run ref.

(** The test on [transformed_child], and the [extend] or [append] on
    [new_node[k]]. *)
Definition h_merge_child (new_node : loc) (k : string) (transformed_child : ref)
    : run unit :=
  match transformed_child with
  | RObj l =>
      ob <~ load l ;;
      match ob with
      | ODict d =>
          if r_eq_str (items_get d "type" RNone) "doc" then
            match items_get d "content" RNone with
            | RObj lc =>
                oc <~ load lc ;;
                match oc with
                | OList cs =>
                    target <~ r_getitem new_node k ;;
                    src <~ r_getitem l "content" ;;
                    match target with
                    | RObj lt => r_extend lt cs
                    | _ => raise AttributeError
                    end
                | ODict _ =>
                    target <~ r_getitem new_node k ;;
                    r_append target transformed_child
                end
            | _ =>
                target <~ r_getitem new_node k ;;
                r_append target transformed_child
            end
          else
            target <~ r_getitem new_node k ;;
            r_append target transformed_child
      | OList _ =>
          target <~ r_getitem new_node k ;;
          r_append target transformed_child
      end
  | _ =>
      target <~ r_getitem new_node k ;;
      r_append target transformed_child
  end.

Fixpoint h_each_child (new_node : loc) (k : string) (children : list ref) : run unit :=
  match children with
  | [] => ret tt
  | child :: more =>
      transformed_child <~ rec child ;;
      _ <~ h_merge_child new_node k transformed_child ;;
      h_each_child new_node k more
  end.

Definition h_is_list (x : ref) : run (option (list ref)) :=
  match x with
  | RObj l =>
      ob <~ load l ;;
      ret (match ob with OList xs => Some xs | ODict _ => None end)
  | _ => ret None
  end.

Fixpoint h_each_item (new_node : loc) (items : list (string * ref)) : run unit :=
  match items with
  | [] => ret tt
  | (k, v) :: rest =>
      _ <~ (if k =? "content" then
              children <~ h_is_list v ;;
              match children with
              | Some children =>
                  fresh <~ alloc (OList []) ;;
                  _ <~ r_setitem new_node k (RObj fresh) ;;
                  h_each_child new_node k children
              | None =>
                  tv <~ rec v ;;
                  r_setitem new_node k tv
              end
            else
              tv <~ rec v ;;
              r_setitem new_node k tv) ;;
      h_each_item new_node rest
  end.

(** The list comprehension [[transform(child) for child in node]]. *)
Fixpoint h_each (out : loc) (xs : list ref) : run unit :=
  match xs with
  | [] => ret tt
  | child :: more =>
      y <~ rec child ;;
      _ <~ r_append (RObj out) y ;;
      h_each out more
  end.

Definition h_transform_step (node : ref) : run ref :=
  match node with
  | RObj l =>
      ob <~ load l ;;
      match ob with
      | ODict items =>
          let node_type := items_get items "type" RNone in
          if r_eq_str node_type "mediaSingle" then
            t <~ r_truthy (items_get items "content" RNone) ;;
            media <~ (if t then
                        e <~ alloc (ODict []) ;;
                        dl <~ alloc (OList [RObj e]) ;;
                        r_subscript0 (items_get items "content" (RObj dl))
                      else
                        e <~ alloc (ODict []) ;;
                        ret (RObj e)) ;;
            h_media_paragraph media
          else if r_eq_str node_type "mediaGroup" then
            paragraphs <~ alloc (OList []) ;;
            e <~ alloc (OList []) ;;
            t <~ r_truthy (items_get items "content" (RObj e)) ;;
            it <~ (if t then ret (items_get items "content" (RObj e))
                   else e' <~ alloc (OList []) ;; ret (RObj e')) ;;
            medias <~ r_iterate it ;;
            _ <~ h_each_media paragraphs medias ;;
            t' <~ r_truthy (RObj paragraphs) ;;
            if negb t' then build (t_paragraph [t_text_node (RStr "")])
            else build (TDict [("type", t_str "doc"); ("version", TRef (RInt 1));
                               ("content", TRef (RObj paragraphs))])
          else if r_eq_str node_type "media" then
            h_media_paragraph node
          else
            new_node <~ alloc (ODict []) ;;
            _ <~ h_each_item new_node items ;;
            ret (RObj new_node)
      | OList xs =>
          out <~ alloc (OList []) ;;
          _ <~ h_each out xs ;;
          ret (RObj out)
      end
  | _ => ret node
  end.

End StoreTransform.

(** [transform], the recursion bounded by [fuel]. *)
Fixpoint h_transform (fuel : nat) (m : list (string * ref)) (node : ref) : run ref :=
  match fuel with
  | O => stuck
  | S fuel' => h_transform_step m (h_transform fuel' m) node
  end.

(** The list comprehension of the post-pass, one [listItem] per entry. *)
Fixpoint h_attachment_items (out : loc) (entries : list (string * ref)) : run unit :=
  match entries with
  | [] => ret tt
  | (name, url) :: rest =>
      item <~ build (TDict [("type", t_str "listItem");
                            ("content",
                             TList [t_paragraph [t_linked_text_node (RStr name) url]])]) ;;
      _ <~ r_append (RObj out) item ;;
      h_attachment_items out rest
  end.

Fixpoint h_any_truthy (xs : list ref) : run bool :=
  match xs with
  | [] => ret false
  | x :: rest =>
      t <~ r_truthy x ;;
      if t then ret true else h_any_truthy rest
  end.

(** [transformed.setdefault('content', [])]: the default, a new list, is
    evaluated whether or not the key is there. *)
Definition h_setdefault_content (transformed : loc) : run ref :=
  fresh <~ alloc (OList []) ;;
  ob <~ load transformed ;;
  match ob with
  | ODict items =>
      match lookup "content" items with
      | Some x => ret x
      | None =>
          _ <~ store_at transformed (ODict (items_set "content" (RObj fresh) items)) ;;
          ret (RObj fresh)
      end
  | OList _ => raise AttributeError
  end.

Definition h_append_attachments (m : list (string * ref)) (transformed : ref) : run ref :=
  match transformed with
  | RObj l =>
      ob <~ load l ;;
      match ob with
      | ODict d =>
          if r_eq_str (items_get d "type" RNone) "doc" then
            urls <~ h_any_truthy (map snd m) ;;
            if urls then
              out <~ alloc (OList []) ;;
              _ <~ h_attachment_items out m ;;
              attachments_list <~ build (TDict [("type", t_str "bulletList");
                                                ("content", TRef (RObj out))]) ;;
              target <~ h_setdefault_content l ;;
              heading <~ build (t_paragraph [t_text_node (RStr "Attachments:")]) ;;
              _ <~ r_append target heading ;;
              target' <~ r_getitem l "content" ;;
              _ <~ r_append target' attachments_list ;;
              ret transformed
            else ret transformed
          else ret transformed
      | OList _ => ret transformed
      end
  | _ => ret transformed
  end.

(** [_adf_replace_media_with_attachment_links] on the store. *)
Definition h_adf_replace_media_with_attachment_links
    (fuel : nat) (m : list (string * ref)) (adf_doc : ref) : run ref :=
  transformed <~ h_transform fuel m adf_doc ;;
  h_append_attachments m transformed.

(** The tree a reference stands for, read back from the store. *)
Fixpoint reify (fuel : nat) (h : store) (x : ref) : option value :=
  match fuel with
  | O => None
  | S fuel' =>
      match x with
      | RNone => Some VNone
      | RBool b => Some (VBool b)
      | RInt n => Some (VInt n)
      | RFloat r => Some (VFloat r)
      | RStr s => Some (VStr s)
      | RObj l =>
          match nth_error h l with
          | Some (OList xs) =>
              option_map VList
                ((fix each (xs : list ref) : option (list value) :=
                    match xs with
                    | [] => Some []
                    | x :: rest =>
                        match reify fuel' h x, each rest with
                        | Some v, Some vs => Some (v :: vs)
                        | _, _ => None
                        end
                    end) xs)
          | Some (ODict items) =>
              option_map VDict
                ((fix each (items : list (string * ref)) : option dict :=
                    match items with
                    | [] => Some []
                    | (k, x) :: rest =>
                        match reify fuel' h x, each rest with
                        | Some v, Some vs => Some ((k, v) :: vs)
                        | _, _ => None
                        end
                    end) items)
          | None => None
          end
      end
  end.

(** A tree laid out in the store, as [json.loads] builds it. *)
Definition ref_of_scalar (v : value) : ref :=
  match v with
  | VBool b => RBool b
  | VInt n => RInt n
  | VFloat r => RFloat r
  | VStr s => RStr s
  | _ => RNone
  end.

Fixpoint tree_of_value (v : value) : tree :=
  match v with
  | VList xs => TList (map tree_of_value xs)
  | VDict items => TDict (map (fun kv => (fst kv, tree_of_value (snd kv))) items)
  | _ => TRef (ref_of_scalar v)
  end.

Definition refs_of_mapping (m : dict) : list (string * ref) :=
  map (fun entry => (fst entry, ref_of_scalar (snd entry))) m.

(** [x] stands for the tree [v] in the store [h], through objects at
    locations from [lo] up to, not including, [hi]. *)
Fixpoint repr (lo hi : nat) (h : store) (v : value) (x : ref) {struct v} : Prop :=
  match v with
  | VNone => x = RNone
  | VBool b => x = RBool b
  | VInt n => x = RInt n
  | VFloat r => x = RFloat r
  | VStr s => x = RStr s
  | VList vs =>
      exists l xs,
        x = RObj l /\ lo <= l < hi /\ nth_error h l = Some (OList xs)
        /\ (fix all (vs : list value) (xs : list ref) : Prop :=
              match vs, xs with
              | [], [] => True
              | v :: vs', x :: xs' => repr lo hi h v x /\ all vs' xs'
              | _, _ => False
              end) vs xs
  | VDict items =>
      exists l xs,
        x = RObj l /\ lo <= l < hi /\ nth_error h l = Some (ODict xs)
        /\ (fix all (items : dict) (xs : list (string * ref)) : Prop :=
              match items, xs with
              | [], [] => True
              | kv :: items', kx :: xs' =>
                  fst kx = fst kv /\ repr lo hi h (snd kv) (snd kx) /\ all items' xs'
              | _, _ => False
              end) items xs
  end.

(** A display stands for the tree [v] once its leaves do. *)
Fixpoint tree_repr (lo hi : nat) (h : store) (t : tree) (v : value) {struct t} : Prop :=
  match t with
  | TRef x => repr lo hi h v x
  | TList ts =>
      exists vs,
        v = VList vs
        /\ (fix all (ts : list tree) (vs : list value) : Prop :=
              match ts, vs with
              | [], [] => True
              | t :: ts', v :: vs' => tree_repr lo hi h t v /\ all ts' vs'
              | _, _ => False
              end) ts vs
  | TDict items =>
      exists vs,
        v = VDict vs
        /\ (fix all (items : list (string * tree)) (vs : dict) : Prop :=
              match items, vs with
              | [], [] => True
              | kt :: items', kv :: vs' =>
                  fst kv = fst kt /\ tree_repr lo hi h (snd kt) (snd kv) /\ all items' vs'
              | _, _ => False
              end) items vs
  end.

(** The objects below [n] are the same in [h'] as in [h], and [h'] has
    all the locations of [h]. *)
Definition frozen (n : nat) (h h' : store) : Prop :=
  n <= List.length h
  /\ List.length h <= List.length h'
  /\ forall l, l < n -> nth_error h' l = nth_error h l.

(** A run on the store follows a computation on trees: it leaves the
    objects below [n] alone, returns when the computation does, with
    related results, and raises what it raises. *)
Definition sim {A B} (n : nat) (R : store -> B -> A -> Prop)
    (c : run A) (h : store) (p : result B) : Prop :=
  exists h' out,
    c h = (h', out)
    /\ frozen n h h'
    /\ match p with
       | Ok b => exists a, out = Returns a /\ R h' b a
       | Raise e => out = Raises e
       end.

(** The nesting depth of a tree. *)
Fixpoint height (v : value) : nat :=
  match v with
  | VList xs => S (fold_right (fun x n => Nat.max (height x) n) 0 xs)
  | VDict items => S (fold_right (fun kv n => Nat.max (height (snd kv)) n) 0 items)
  | _ => 0
  end.

(** A loop that collects the results of [f], stopping at the first
    exception: the shape of [transform_list] and of [media_paragraphs]. *)
Fixpoint collect (f : value -> result value) (xs : list value) : result (list value) :=
  match xs with
  | [] => Ok []
  | x :: rest =>
      y <- f x ;;
      ys <- collect f rest ;;
      Ok (y :: ys)
  end.

(** ** The root of a rewritten document

    The post-pass appends to the list under ['content'] of the root, in
    place.  What it needs of the store: no other part of the tree goes
    through that list, nor through the root.  [z] is the location of the
    list the content loop built, if any. *)
Definition apart (z : option loc) (lo hi : nat) : Prop :=
  forall ll, z = Some ll -> hi <= ll \/ ll < lo.

Definition held (n : nat) (h : store) (l : loc) (z : option loc)
    (v : value) (x : ref) : Prop :=
  exists lo hi,
    n <= lo /\ hi <= List.length h /\ (hi <= l \/ l < lo) /\ apart z lo hi
    /\ repr lo hi h v x.

Definition content_list (n : nat) (h : store) (l : loc) (z : option loc)
    (v : value) (x : ref) : Prop :=
  exists ll cs csx hi,
    z = Some ll /\ v = VList cs /\ x = RObj ll /\ n <= ll /\ ll <> l
    /\ nth_error h ll = Some (OList csx)
    /\ hi <= List.length h /\ (hi <= l \/ l <= ll)
    /\ Forall2 (repr (S ll) hi h) cs csx.

Definition root_item (n : nat) (h : store) (l : loc) (z : option loc)
    (kv : string * value) (kx : string * ref) : Prop :=
  fst kx = fst kv
  /\ ((fst kv = "content" /\ content_list n h l z (snd kv) (snd kx))
      \/ ((fst kv = "content" -> isinstance_list (snd kv) = false)
          /\ held n h l z (snd kv) (snd kx))).

Definition doc_root (n : nat) (h : store) (d : dict) (l : loc) : Prop :=
  n <= l < List.length h
  /\ exists dx z,
       nth_error h l = Some (ODict dx)
       /\ NoDup (map fst d)
       /\ Forall2 (root_item n h l z) d dx.

(** A doc-typed result is a dict with such a root. *)
Definition rooted (n : nat) (h : store) (r : value) (y : ref) : Prop :=
  is_doc r = true -> exists d l, r = VDict d /\ y = RObj l /\ doc_root n h d l.

(** The result of [transform] in the store: new objects only, and a root
    the post-pass can append to. *)
Definition fresh_root (n : nat) (h : store) (r : value) (y : ref) : Prop :=
  repr n (List.length h) h r y /\ rooted n h r y.

(** The run [f] follows [g] on the tree [v]: it only allocates, and what
    it returns stands for the result through new objects only. *)
Definition follows (f : ref -> run ref) (g : value -> result value) (v : value) : Prop :=
  forall (h : store) (x : ref) (hi : nat),
    hi <= List.length h -> repr 0 hi h v x ->
    sim (List.length h) (fun h' r y => repr (List.length h) (List.length h') h' r y)
      (f x) h (g v).

(** The same, with a root the post-pass can append to. *)
Definition follows_root (f : ref -> run ref) (g : value -> result value) (v : value)
    : Prop :=
  forall (h : store) (x : ref) (hi : nat),
    hi <= List.length h -> repr 0 hi h v x ->
    sim (List.length h) (fresh_root (List.length h)) (f x) h (g v).

(** ** [_extract_text_from_adf] on the store

    The extractor reads the nodes and appends to [texts], a list of its
    own.  [str] reads the object its argument points to, and what that
    object points to. *)
Definition r_str (fuel : nat) (x : ref) : run string :=
  fun h =>
    match reify fuel h x with
    | Some v => (h, Returns (py_str v))
    | None => (h, Stuck)
    end.

Definition r_in_media_family (ty : ref) : bool :=
  r_eq_str ty "media" || r_eq_str ty "mediaSingle" || r_eq_str ty "mediaGroup".

Definition items_has (k : string) (items : list (string * ref)) : bool :=
  match lookup k items with Some _ => true | None => false end.

(** The strings of a list of strings. *)
Fixpoint strings_of (xs : list ref) : option (list string) :=
  match xs with
  | [] => Some []
  | RStr s :: rest => option_map (cons s) (strings_of rest)
  | _ :: _ => None
  end.

(** [''.join(filter(None, texts))]. *)
Definition r_join_filtered (texts : loc) : run string :=
  ob <~ load texts ;;
  match ob with
  | OList xs =>
      match strings_of xs with
      | Some ss => ret (join_empty (filter_none ss))
      | None => raise TypeError
      end
  | ODict _ => raise TypeError
  end.

Section StoreExtract.

Variable rec : ref -> run string.

(** [for key, value in node.items(): texts.append(rec(value))]. *)
Fixpoint h_extract_items (texts : loc) (items : list (string * ref)) : run unit :=
  match items with
  | [] => ret tt
  | (_, value) :: rest =>
      s <~ rec value ;;
      _ <~ r_append (RObj texts) (RStr s) ;;
      h_extract_items texts rest
  end.

(** The generator [rec(child) for child in node]. *)
Fixpoint h_extract_each (children : list ref) : run (list string) :=
  match children with
  | [] => ret []
  | child :: rest =>
      s <~ rec child ;;
      ss <~ h_extract_each rest ;;
      ret (s :: ss)
  end.

Definition h_extract_step (fuel : nat) (node : ref) : run string :=
  match node with
  | RObj l =>
      ob <~ load l ;;
      match ob with
      | ODict items =>
          let ty := items_get items "type" RNone in
          if r_in_media_family ty then ret ""
          else
            texts <~ alloc (OList []) ;;
            _ <~ (if r_eq_str ty "text" && items_has "text" items then
                    text <~ r_getitem l "text" ;;
                    s <~ r_str fuel text ;;
                    r_append (RObj texts) (RStr s)
                  else ret tt) ;;
            _ <~ h_extract_items texts items ;;
            r_join_filtered texts
      | OList children =>
          ss <~ h_extract_each children ;;
          ret (join_empty ss)
      end
  | _ => ret ""
  end.

End StoreExtract.

(** [_extract_text_from_adf], the recursion bounded by [fuel]. *)
Fixpoint h_extract_text_from_adf (fuel : nat) (node : ref) : run string :=
  match fuel with
  | O => stuck
  | S fuel' => h_extract_step (h_extract_text_from_adf fuel') fuel' node
  end.

(** A run of the extractor reads [v] at its argument and returns what
    [_extract_text_from_adf] does, the objects there before untouched. *)
Definition reads (f : ref -> run string) (v : value) : Prop :=
  forall (h : store) (x : ref) (hi : nat),
    hi <= List.length h -> repr 0 hi h v x ->
    exists h',
      f x h = (h', Returns (_extract_text_from_adf v))
      /\ frozen (List.length h) h h'.

(** ** A sample store: [sample_page] as [json.loads] lays it out *)

Definition sample_store : store := fst (build (tree_of_value sample_page) []).

Definition sample_root : ref :=
  match snd (build (tree_of_value sample_page) []) with
  | Returns x => x
  | _ => RNone
  end.

(** ** Reading issues: [extract_description_text], [get_linked_issues]
    and the searches of [JiraClient.py]

    What these methods print is not part of the model: [print] changes
    nothing they return. *)

(** [needle in s] for two strs. *)
Fixpoint is_substring (needle s : string) : bool :=
  prefix needle s
  || match s with
     | "" => false
     | String _ rest => is_substring needle rest
     end.

(** [needle in c] for a str [needle]: a substring of a str, an element of
    a list, a key of a dict. *)
Definition str_in (needle : string) (c : value) : result bool :=
  match c with
  | VStr s => Ok (is_substring needle s)
  | VList xs => Ok (existsb (fun x => eq_str x needle) xs)
  | VDict d => Ok (dict_has needle d)
  | _ => Raise TypeError
  end.

(** [c[k]] for a str [k]: only a dict takes a str between the brackets. *)
Definition subscript_key (c : value) (k : string) : result value :=
  match c with
  | VDict d =>
      match dict_get k d with
      | Some v => Ok v
      | None => Raise KeyError
      end
  | _ => Raise TypeError
  end.

Definition newline : string := String (ascii_of_nat 10) "".

(** [sep.join(parts)], the parts already collected: each has to be a str. *)
Fixpoint text_values (parts : list value) : result (list string) :=
  match parts with
  | [] => Ok []
  | VStr s :: rest =>
      ss <- text_values rest ;;
      Ok (s :: ss)
  | _ :: _ => Raise TypeError
  end.

Definition join_values (sep : string) (parts : list value) : result string :=
  ss <- text_values parts ;;
  Ok (String.concat sep ss).

(** *** [extract_description_text] *)

(** [sub_item.get("text", "") for sub_item in subs
     if sub_item.get("type") == "text"]. *)
Fixpoint text_children (subs : list value) : result (list value) :=
  match subs with
  | [] => Ok []
  | sub_item :: rest =>
      ty <- meth_get sub_item "type" VNone ;;
      if eq_str ty "text" then
        text <- meth_get sub_item "text" (VStr "") ;;
        more <- text_children rest ;;
        Ok (text :: more)
      else text_children rest
  end.

(** The generator of [extract_description_text], run to its end:
    [for item in content if "content" in item
     for sub_item in item["content"] ...]. *)
Fixpoint description_texts (content : list value) : result (list value) :=
  match content with
  | [] => Ok []
  | item :: rest =>
      has <- str_in "content" item ;;
      here <- (if has then
                 inner <- subscript_key item "content" ;;
                 subs <- iterate inner ;;
                 text_children subs
               else Ok []) ;;
      more <- description_texts rest ;;
      Ok (here ++ more)%list
  end.

Definition extract_description_text (issue_data : value) : result string :=
  fields <- meth_get issue_data "fields" (VDict []) ;;
  description <- meth_get fields "description" (VDict []) ;;
  content <- meth_get description "content" (VList []) ;;
  items <- iterate content ;;
  texts <- description_texts items ;;
  join_values newline texts.

(** *** [get_linked_issues] *)

(** The dict appended for a link whose other end is under [other]; the
    subscripts are evaluated in the order of the display. *)
Definition linked_issue_entry (link : value) (direction other : string) : result value :=
  ty <- subscript_key link "type" ;;
  name <- subscript_key ty "name" ;;
  issue <- subscript_key link other ;;
  key <- subscript_key issue "key" ;;
  fields <- subscript_key issue "fields" ;;
  summary <- subscript_key fields "summary" ;;
  Ok (VDict [("type", name); ("direction", VStr direction);
             ("issue_key", key); ("summary", summary)]).

Fixpoint linked_issues_of_links (links : list value) : result (list value) :=
  match links with
  | [] => Ok []
  | link :: rest =>
      outward <- str_in "outwardIssue" link ;;
      here <- (if outward then
                 entry <- linked_issue_entry link "outward" "outwardIssue" ;;
                 Ok [entry]
               else
                 inward <- str_in "inwardIssue" link ;;
                 if inward then
                   entry <- linked_issue_entry link "inward" "inwardIssue" ;;
                   Ok [entry]
                 else Ok []) ;;
      more <- linked_issues_of_links rest ;;
      Ok (here ++ more)%list
  end.

(** The method after its request, on [response.json()]. *)
Definition linked_issues_of (issue_data : value) : result (list value) :=
  fields <- meth_get issue_data "fields" (VDict []) ;;
  links <- meth_get fields "issuelinks" (VList []) ;;
  items <- iterate links ;;
  linked_issues_of_links items.

(** What a request of [search_issues_by_jql] comes back with:
    [requests] raised a [RequestException] (no connection, or a body that
    is not JSON), the response is not [ok], or it is and holds [data]. *)
Inductive reply : Type :=
| RequestException
| NotOk
| Json (data : value).

Definition default_search_fields : value :=
  VList [VStr "summary"; VStr "status"; VStr "assignee"].

Section Tracker.

(** The tracker behind the HTTP calls. *)
Variable tracker : Type.

(** [GET /rest/api/3/issue/{key}]: [None] for a response that is not
    [ok], else [response.json()]. *)
Variable http_get_issue : value -> tracker -> tracker * option value.

(** [POST /rest/api/3/search/jql] with a payload. *)
Variable http_post_search : dict -> tracker -> tracker * reply.

(** [x == y], which [in] applies to the elements of a list. *)
Variable py_eq : value -> value -> bool.

Definition get_linked_issues (issue_key : value) (w : tracker)
    : tracker * result (list value) :=
  let (w, response) := http_get_issue issue_key w in
  match response with
  | None => (w, Ok [])
  | Some issue_data => (w, linked_issues_of issue_data)
  end.

(** *** [search_issues_by_jql] *)

Definition search_payload (jql_query max_results fields next_page_token : value)
    : dict :=
  let payload := [("jql", jql_query); ("maxResults", max_results);
                  ("fields", fields)] in
  if truthy next_page_token then dict_set "nextPageToken" next_page_token payload
  else payload.

(** What one page adds: [data.get("issues", [])], as [extend] walks it,
    and [data.get("nextPageToken")]. *)
Definition read_page (data : value) : result (list value * value) :=
  issues <- meth_get data "issues" (VList []) ;;
  more <- iterate issues ;;
  next_page_token <- meth_get data "nextPageToken" VNone ;;
  Ok (more, next_page_token).

(** The [while True] loop; [None] when [fuel] requests were not enough. *)
Fixpoint search_pages (fuel : nat) (jql_query max_results fields : value)
    (all_issues : list value) (next_page_token : value) (w : tracker)
    : tracker * option (result (list value)) :=
  match fuel with
  | O => (w, None)
  | S fuel' =>
      let (w, response) :=
        http_post_search
          (search_payload jql_query max_results fields next_page_token) w in
      match response with
      | RequestException | NotOk => (w, Some (Ok []))
      | Json data =>
          match read_page data with
          | Raise e => (w, Some (Raise e))
          | Ok (more, next_page_token) =>
              if truthy next_page_token then
                search_pages fuel' jql_query max_results fields
                  (all_issues ++ more)%list next_page_token w
              else (w, Some (Ok (all_issues ++ more)%list))
          end
      end
  end.

(** [fields if fields is not None else [...]]; [fields] is [None] for a
    call that leaves the parameter out. *)
Definition effective_fields (fields : option value) : value :=
  match fields with
  | Some VNone | None => default_search_fields
  | Some given => given
  end.

Definition search_issues_by_jql (fuel : nat) (jql_query : value) (fields : option value)
    (max_results : value) (w : tracker) : tracker * option (result (list value)) :=
  search_pages fuel jql_query max_results (effective_fields fields) [] VNone w.

(** *** [search_issues_excpt_head_by_jql] *)

(** [x in c]. *)
Definition value_in (x c : value) : result bool :=
  match x with
  | VStr k => str_in k c
  | _ =>
      match c with
      | VList xs => Ok (existsb (py_eq x) xs)
      | VDict _ => if scalar x then Ok false else Raise TypeError
      | _ => Raise TypeError
      end
  end.

(** The inner loop: some linked issue has both [head_str] and [key] in
    its summary. *)
Fixpoint linked_clone (head_str key : value) (linked : list value) : result bool :=
  match linked with
  | [] => Ok false
  | item :: rest =>
      summary <- subscript_key item "summary" ;;
      has_head <- value_in head_str summary ;;
      if has_head then
        has_key <- value_in key summary ;;
        if has_key then Ok true else linked_clone head_str key rest
      else linked_clone head_str key rest
  end.

Fixpoint except_head_loop (head_str : value) (issues : list value) (w : tracker)
    : tracker * result (list value) :=
  match issues with
  | [] => (w, Ok [])
  | issue :: rest =>
      match (key <- meth_get issue "key" VNone ;;
             fields <- meth_get issue "fields" (VDict []) ;;
             summary <- meth_get fields "summary" (VStr "") ;;
             Ok key) with
      | Raise e => (w, Raise e)
      | Ok key =>
          let (w, linked) := get_linked_issues key w in
          match (linked <- linked ;; linked_clone head_str key linked) with
          | Raise e => (w, Raise e)
          | Ok skip_item =>
              let (w, ret) := except_head_loop head_str rest w in
              (w, ret_issues <- ret ;;
                  Ok (if skip_item then ret_issues else issue :: ret_issues))
          end
      end
  end.

Definition search_issues_excpt_head_by_jql (fuel : nat) (jql_query head_str : value)
    (w : tracker) : tracker * option (result (list value)) :=
  let (w, found) := search_issues_by_jql fuel jql_query None (VInt 100) w in
  match found with
  | None => (w, None)
  | Some (Raise e) => (w, Some (Raise e))
  | Some (Ok issues) =>
      let (w, ret) := except_head_loop head_str issues w in
      (w, Some ret)
  end.

End Tracker.

(** *** Descriptions to try the readers on *)

(** A paragraph of text nodes. *)
Definition text_paragraph (texts : list string) : value :=
  paragraph (map (fun s => text_node (VStr s)) texts).

(** An issue as [get_issue] returns it, cut down to its description. *)
Definition issue_of_description (key : string) (description : value) : value :=
  VDict [("key", VStr key); ("fields", VDict [("description", description)])].

Definition sample_bullet_list : value :=
  VDict [("type", VStr "bulletList");
         ("content",
          VList [VDict [("type", VStr "listItem");
                        ("content", VList [text_paragraph ["deep"]])]])].

(** *** A tracker that answers from a script *)

(** The searches are answered from a list of replies, in order, and each
    payload sent is kept; a search after the last reply finds no server. *)
Definition scripted_search (payload : dict) (w : list reply * list dict)
    : (list reply * list dict) * reply :=
  match fst w with
  | [] => (([], snd w ++ [payload])%list, RequestException)
  | r :: rest => ((rest, snd w ++ [payload])%list, r)
  end.

(** A page of a search with a token for the next one, and a last page. *)
Definition search_page (p : list value * string) : reply :=
  Json (VDict [("issues", VList (fst p)); ("nextPageToken", VStr (snd p))]).

Definition last_search_page (issues : list value) : reply :=
  Json (VDict [("issues", VList issues)]).

(** A link of an issue as Jira returns it: the type, and the other end
    under ['outwardIssue'] or ['inwardIssue'] (both only in this model). *)
Definition link_end (key summary : string) : value :=
  VDict [("key", VStr key); ("fields", VDict [("summary", VStr summary)])].

Definition issue_link (type_name : string) (outward inward : option (string * string))
    : value :=
  VDict ([("type", VDict [("name", VStr type_name)])]
         ++ match inward with
            | Some (k, s) => [("inwardIssue", link_end k s)]
            | None => []
            end
         ++ match outward with
            | Some (k, s) => [("outwardIssue", link_end k s)]
            | None => []
            end)%list.

(** [xs] is [ys] with some elements left out. *)
Inductive subseq {A : Type} : list A -> list A -> Prop :=
| subseq_nil : subseq [] []
| subseq_keep (x : A) (xs ys : list A) : subseq xs ys -> subseq (x :: xs) (x :: ys)
| subseq_drop (y : A) (xs ys : list A) : subseq xs ys -> subseq xs (y :: ys).

(** ** The driver script [jira-clone-ticket-new.py]: texts

    A str is held as the bytes of its UTF-8 encoding, as everywhere in this
    file.  Where the code walks a str character by character, or classes a
    character, the bytes are grouped into characters first. *)

(** A continuation byte of UTF-8, [10xxxxxx]: every other byte starts a
    character. *)
Definition is_continuation (a : ascii) : bool :=
  let n := N_of_ascii a in ((128 <=? n) && (n <? 192))%N.

(** [list(text)]: the characters of a str, each with its bytes. *)
Fixpoint characters (s : string) : list string :=
  match s with
  | "" => []
  | String a rest =>
      match rest with
      | "" => [String a ""]
      | String b _ =>
          if is_continuation b then
            match characters rest with
            | c :: cs => String a c :: cs
            | [] => [String a ""]
            end
          else String a "" :: characters rest
      end
  end.

(** [ord(ch)] for a character of one to four bytes. *)
Definition code_point (ch : string) : N :=
  match map N_of_ascii (list_ascii_of_string ch) with
  | [a] => a
  | [a; b] => (a - 0xC0) * 0x40 + (b - 0x80)
  | [a; b; c] => (a - 0xE0) * 0x1000 + (b - 0x80) * 0x40 + (c - 0x80)
  | [a; b; c; d] =>
      (a - 0xF0) * 0x40000 + (b - 0x80) * 0x1000 + (c - 0x80) * 0x40 + (d - 0x80)
  | _ => 0
  end%N.

Definition between (lo hi n : N) : bool := ((lo <=? n) && (n <=? hi))%N.

(** The character class of the two patterns, U+3040 to U+30FF, U+3400 to
    U+4DBF, U+4E00 to U+9FFF, U+F900 to U+FAFF and U+FF66 to U+FF9F. *)
Definition japanese_code_point (n : N) : bool :=
  between 0x3040 0x30FF n || between 0x3400 0x4DBF n || between 0x4E00 0x9FFF n
  || between 0xF900 0xFAFF n || between 0xFF66 0xFF9F n.

(** [_is_japanese_char(ch)], [ch] one character. *)
Definition _is_japanese_char (ch : string) : bool :=
  japanese_code_point (code_point ch).

(** [contains_japanese(text)]: [re.search] takes a str only. *)
Definition contains_japanese (text : value) : result bool :=
  if negb (truthy text) then Ok false
  else
    match text with
    | VStr s => Ok (existsb _is_japanese_char (characters s))
    | _ => Raise TypeError
    end.

(** [ch.isspace()], the characters [strip] takes away. *)
Definition whitespace_code_point (n : N) : bool :=
  between 0x09 0x0D n || between 0x1C 0x1F n || (n =? 0x20)%N
  || (n =? 0x85)%N || (n =? 0xA0)%N || (n =? 0x1680)%N || between 0x2000 0x200A n
  || (n =? 0x2028)%N || (n =? 0x2029)%N || (n =? 0x202F)%N || (n =? 0x205F)%N
  || (n =? 0x3000)%N.

Fixpoint drop_spaces (chars : list string) : list string :=
  match chars with
  | [] => []
  | ch :: rest =>
      if whitespace_code_point (code_point ch) then drop_spaces rest else chars
  end.

(** [s.strip()]. *)
Definition py_strip (s : string) : string :=
  join_empty (rev (drop_spaces (rev (drop_spaces (characters s))))).

(** [s.replace(old, new)] for a one-byte [old]. *)
Fixpoint replace_char (old : ascii) (new : string) (s : string) : string :=
  match s with
  | "" => ""
  | String a rest =>
      (if (a =? old)%char then new else String a "") ++ replace_char old new rest
  end.

(** [sanitize_double_quotes(text)]: only a str has [replace]. *)
Definition sanitize_double_quotes (text : value) : result value :=
  match text with
  | VNone => Ok VNone
  | VStr s => Ok (VStr (py_strip (replace_char double_quote "" s)))
  | _ => Raise AttributeError
  end.

(** The first loop of [translate_japanese_segments_to_korean], over the
    characters left, with [segments], [current_chars] and [current_is_jp]
    as they stand; the last run is appended after the loop. *)
Fixpoint segments_of (chars : list string) (segments : list (string * bool))
    (current_chars : list string) (current_is_jp : option bool)
    : list (string * bool) :=
  match chars with
  | [] =>
      match current_chars with
      | [] => segments
      | _ :: _ =>
          (segments
           ++ [(join_empty current_chars,
                match current_is_jp with Some jp => jp | None => false end)])%list
      end
  | ch :: rest =>
      let ch_is_jp := _is_japanese_char ch in
      match current_is_jp with
      | None => segments_of rest segments (current_chars ++ [ch])%list (Some ch_is_jp)
      | Some jp =>
          if Bool.eqb ch_is_jp jp then
            segments_of rest segments (current_chars ++ [ch])%list current_is_jp
          else
            segments_of rest (segments ++ [(join_empty current_chars, jp)])%list
              [ch] (Some ch_is_jp)
      end
  end.

Section Translator.

(** The translation service, and [_translator]: [None] when [googletrans]
    could not be imported.  A call gives the [text] of the result, or
    [None] when it raises or the result has no [text]. *)
Variable service : Type.
Variable _translator : option (string -> service -> service * option string).

(** The second loop: only the Japanese segments go to the translator. *)
Fixpoint translate_segments (translate : string -> service -> service * option string)
    (segments : list (string * bool)) (sv : service) : service * list string :=
  match segments with
  | [] => (sv, [])
  | (seg_text, is_jp) :: rest =>
      if is_jp && negb (py_strip seg_text =? "") then
        let (sv, answer) := translate seg_text sv in
        let translated :=
          match answer with
          | Some t => if t =? "" then seg_text else t
          | None => seg_text
          end in
        let (sv, more) := translate_segments translate rest sv in
        (sv, translated :: more)
      else
        let (sv, more) := translate_segments translate rest sv in
        (sv, seg_text :: more)
  end.

(** [translate_japanese_segments_to_korean(text)] for a str [text], the
    only kind of argument its caller passes. *)
Definition translate_japanese_segments_to_korean (text : string) (sv : service)
    : service * string :=
  if text =? "" then (sv, text)
  else
    match _translator with
    | None => (sv, text)
    | Some translate =>
        let (sv, translated_segments) :=
          translate_segments translate (segments_of (characters text) [] [] None) sv in
        (sv, join_empty translated_segments)
    end.

(** [make_clone_summary_description(jira_client, issue)]. *)
Definition make_clone_summary_description (issue : value) (sv : service)
    : service * result (string * string * value) :=
  match (org_key <- meth_get issue "key" VNone ;;
         fields <- meth_get issue "fields" (VDict []) ;;
         summary <- meth_get fields "summary" (VStr "") ;;
         description <- extract_description_text issue ;;
         japanese <- contains_japanese summary ;;
         Ok (org_key, summary, description, japanese)) with
  | Raise e => (sv, Raise e)
  | Ok (org_key, summary, description, japanese) =>
      let (sv, summary) :=
        match japanese, summary with
        | true, VStr s =>
            let (sv, translated_summary) := translate_japanese_segments_to_korean s sv in
            (sv, if translated_summary =? "" then summary else VStr translated_summary)
        | _, _ => (sv, summary)
        end in
      match sanitize_double_quotes summary with
      | Raise e => (sv, Raise e)
      | Ok summary =>
          (sv, Ok ("Clone-" ++ py_str summary ++ "(" ++ py_str org_key ++ ")",
                   description, org_key))
      end
  end.

End Translator.

(** *** [search_issues_by_summary]: the query *)

Definition jql_special_chars : list ascii :=
  [double_quote; "["; "]"; "("; ")"; "&"]%char.

(** [f'\\\{char}']: two backslashes and the character. *)
Definition escaped_char (char : ascii) : string :=
  String "\" (String "\" (String char "")).

(** The loop of [replace] calls, for a str [summary_keyword]. *)
Definition escape_summary (summary_keyword : string) : string :=
  fold_left (fun escaped_summary char => replace_char char (escaped_char char) escaped_summary)
    jql_special_chars summary_keyword.

(** [f'project = "{project_key}" AND summary ~ "{escaped_summary}"']. *)
Definition summary_query (project_key : value) (summary_keyword : string) : string :=
  "project = " ++ String double_quote (py_str project_key)
  ++ String double_quote " AND summary ~ "
  ++ String double_quote (escape_summary summary_keyword)
  ++ String double_quote "".

(** *** [select_jira_ticket] *)

(** [s.split(sep)] for a one-byte [sep]. *)
Fixpoint split_on (sep : ascii) (s : string) : list string :=
  match s with
  | "" => [""]
  | String a rest =>
      if (a =? sep)%char then "" :: split_on sep rest
      else
        match split_on sep rest with
        | first :: more => String a first :: more
        | [] => [String a ""]
        end
  end.

(** What the f-string of a printed line evaluates:
    [issue.get('key')] and [issue.get('fields').get('summary')]. *)
Definition print_issue_line (issue : value) : result unit :=
  key <- meth_get issue "key" VNone ;;
  fields <- meth_get issue "fields" VNone ;;
  summary <- meth_get fields "summary" VNone ;;
  Ok tt.

(** [print_jira_list], and the first loop of [select_jira_ticket]. *)
Fixpoint print_jira_list (issues : list value) : result unit :=
  match issues with
  | [] => Ok tt
  | issue :: rest =>
      line <- print_issue_line issue ;;
      print_jira_list rest
  end.

Section Select.

(** [int(num)] for a stripped, non-empty str; [None] is [ValueError]. *)
Variable py_int : string -> option Z.

(** The loop inside [try]: a [ValueError] ends it, with the issues
    selected so far. *)
Fixpoint select_numbers (issues : list value) (nums : list string)
    (selected_issues : list value) : result (list value) :=
  match nums with
  | [] => Ok selected_issues
  | num :: rest =>
      let num := py_strip num in
      if num =? "" then select_numbers issues rest selected_issues
      else
        match py_int num with
        | None => Ok selected_issues
        | Some n =>
            let index := (n - 1)%Z in
            if (index <? 0)%Z || (index >=? Z.of_nat (List.length issues))%Z then
              select_numbers issues rest selected_issues
            else
              match nth_error issues (Z.to_nat index) with
              | Some issue =>
                  select_numbers issues rest (selected_issues ++ [issue])%list
              | None => Raise IndexError
              end
        end
  end.

(** [select_jira_ticket(jira_client, issues)], [answer] what [input]
    returns. *)
Definition select_jira_ticket (issues : list value) (answer : string)
    : result (list value) :=
  listed <- print_jira_list issues ;;
  let selected_issues_num_list := py_strip answer in
  if selected_issues_num_list =? "" then Ok []
  else
    selected_issues <- select_numbers issues (split_on "," selected_issues_num_list) [] ;;
    listed <- print_jira_list selected_issues ;;
    Ok selected_issues.

(** An entry of the answer that [int] reads as the number of the issue at
    index [n]. *)
Definition names_issue (issues : list value) (num : string) (n : nat) : Prop :=
  py_strip num <> "" /\ py_int (py_strip num) = Some (Z.of_nat n + 1)%Z
  /\ n < List.length issues.

End Select.

(** *** Texts to try the driver on *)

(** Hiragana A, U+3042, and the ideographic space, U+3000. *)
Definition hiragana_a : string :=
  String (ascii_of_nat 227) (String (ascii_of_nat 129) (String (ascii_of_nat 130) "")).

Definition ideographic_space : string :=
  String (ascii_of_nat 227) (String (ascii_of_nat 128) (String (ascii_of_nat 128) "")).

(** A translator that counts its calls and puts each segment in brackets,
    and one that is never there. *)
Definition sample_translator : string -> nat -> nat * option string :=
  fun seg_text calls => (S calls, Some ("<" ++ seg_text ++ ">")).

Definition failing_translator : string -> nat -> nat * option string :=
  fun seg_text calls => (S calls, None).

Definition sample_issue (key summary : string) : value :=
  VDict [("key", VStr key); ("fields", VDict [("summary", VStr summary)])].

(** The summary [say "hi"], with a blank at its end. *)
Definition sample_quoted_summary : string :=
  "say " ++ String double_quote "hi" ++ String double_quote " ".

(** A tracker in which [SI-1] is linked to its clone and no other issue is
    linked to anything; the searches are answered from a script. *)
Definition sample_get_issue (issue_key : value) (w : list reply * list dict)
    : (list reply * list dict) * option value :=
  (w,
   Some (VDict [("key", issue_key);
                ("fields",
                 VDict [("issuelinks",
                         VList (if eq_str issue_key "SI-1"
                                then [issue_link "Relates" None
                                        (Some ("CL-7", "Clone-say hi(SI-1)"))]
                                else []))])])).

(** What [int] reads out of a plain decimal numeral; the examples give it
    nothing else but letters, which raise [ValueError]. *)
Definition decimal_int (s : string) : option Z :=
  option_map Z.of_uint (NilEmpty.uint_of_string s).

Definition sample_issues : list value :=
  [sample_issue "SI-1" "first"; sample_issue "SI-2" "second";
   sample_issue "SI-3" "third"].

(** ** The calls of a clone, recorded *)

(** A call of one of the client's methods that reach the tracker from
    [clone_issue_with_media_upload], and the [PUT] of the description. *)
Inductive request : Type :=
  | GetIssue (issue_key : value)
  | CreateIssue (arguments : dict)
  | CopyAttachments (source_issue_key new_issue_key : value)
  | PutDescription (issue_key description : value).

Section Recorded.

(** What the tracker answers, given the calls made so far. *)
Variable issue_answer : list request -> value -> value.
Variable create_answer : list request -> dict -> value.
Variable copy_answer : list request -> value -> value -> option (list attachment).

(** The body of [clone_issue_with_media_upload] over the list of the calls
    made so far, the latest last. *)
Definition recorded_clone (args : dict) (calls : list request)
    : list request * result value :=
  clone_issue_with_media_upload_body (list request)
    (fun issue_key calls =>
       (calls ++ [GetIssue issue_key], issue_answer calls issue_key)%list)
    (fun arguments calls =>
       (calls ++ [CreateIssue arguments], create_answer calls arguments)%list)
    (fun source_issue_key new_issue_key calls =>
       (calls ++ [CopyAttachments source_issue_key new_issue_key],
        copy_answer calls source_issue_key new_issue_key)%list)
    (fun issue_key description calls =>
       (calls ++ [PutDescription issue_key description])%list)
    args calls.

End Recorded.

(** An issue with a description, as [get_issue] returns it, and the
    arguments of a clone of it. *)
Definition sample_source (description : value) : value :=
  VDict [("key", VStr "SI-1");
         ("fields", VDict [("summary", VStr "say hi"); ("description", description)])].

Definition sample_clone_args : dict :=
  [("source_issue_key", VStr "SI-1"); ("project_key", VStr "CL");
   ("summary", VNone); ("issue_type", VStr "Task"); ("due_date", VNone);
   ("labels", VNone); ("link_type", VStr "Relates"); ("models", VNone)].

(** ** The description [create_issue] sends *)

(** The ADF document of one paragraph with one text node. *)
Definition text_only_doc (text : value) : value :=
  doc_wrapper [paragraph [text_node text]].

Section CreateDescription.

Variable world : Type.
Variable get_issue : value -> world -> world * value.

(** [linked_issue and 'fields' in linked_issue
     and 'description' in linked_issue['fields']]. *)
Definition has_linked_description (linked_issue : value) : result bool :=
  if truthy linked_issue then
    has_fields <- str_in "fields" linked_issue ;;
    if has_fields then
      fields <- subscript_key linked_issue "fields" ;;
      str_in "description" fields
    else Ok false
  else Ok false.

(** The first block of [create_issue]: [original_desc] and [description]
    as it leaves them. *)
Definition linked_description (description linked_issue_key : value) (w : world)
    : world * result (value * value) :=
  match description with
  | VNone =>
      if truthy linked_issue_key then
        let (w, linked_issue) := get_issue linked_issue_key w in
        (w,
         found <- has_linked_description linked_issue ;;
         if found then
           fields <- subscript_key linked_issue "fields" ;;
           original_desc <- subscript_key fields "description" ;;
           if isinstance_dict original_desc then Ok (original_desc, original_desc)
           else Ok (original_desc, text_only_doc (py_or original_desc (VStr "")))
         else Ok (VNone, description))
      else (w, Ok (VNone, description))
  | _ => (w, Ok (VNone, description))
  end.

(** [use_description_on_create], after the block that follows the nested
    [_extract_text_from_adf]. *)
Definition use_description_on_create (original_desc description linked_issue_key : value)
    : value :=
  if isinstance_dict original_desc then
    let plain_text := py_strip (_extract_text_from_adf original_desc) in
    let plain_text :=
      if (plain_text =? "") && truthy linked_issue_key
      then "Cloned from " ++ py_str linked_issue_key
      else plain_text in
    text_only_doc (VStr plain_text)
  else description.

(** What [create_issue] puts under ["description"] in [fields]. *)
Definition created_description (description linked_issue_key : value) (w : world)
    : world * result value :=
  let (w, found) := linked_description description linked_issue_key w in
  (w,
   both <- found ;;
   let use := use_description_on_create (fst both) (snd both) linked_issue_key in
   Ok (if truthy use then use else VNone)).

End CreateDescription.

(** * Properties *)

(** ** Induction on nested values *)

Section ValueInduction.

Variable P : value -> Prop.
Hypothesis P_none : P VNone.
Hypothesis P_bool : forall b, P (VBool b).
Hypothesis P_int : forall n, P (VInt n).
Hypothesis P_float : forall r, P (VFloat r).
Hypothesis P_str : forall s, P (VStr s).
Hypothesis P_list : forall xs, Forall P xs -> P (VList xs).
Hypothesis P_dict : forall items, Forall (fun kv => P (snd kv)) items -> P (VDict items).

Fixpoint value_nested_ind (v : value) : P v :=
  match v with
  | VNone => P_none
  | VBool b => P_bool b
  | VInt n => P_int n
  | VFloat r => P_float r
  | VStr s => P_str s
  | VList xs =>
      P_list xs
        ((fix all (xs : list value) : Forall P xs :=
            match xs with
            | [] => Forall_nil P
            | x :: rest => Forall_cons x (value_nested_ind x) (all rest)
            end) xs)
  | VDict items =>
      P_dict items
        ((fix all (items : list (string * value))
            : Forall (fun kv => P (snd kv)) items :=
            match items with
            | [] => Forall_nil _
            | kv :: rest =>
                Forall_cons (P := fun kv => P (snd kv)) kv
                  (value_nested_ind (snd kv)) (all rest)
            end) items)
  end.

End ValueInduction.

(** ** Strings *)

Lemma append_empty_r (s : string) : s ++ "" = s.
Proof. induction s as [|a s IH]; simpl; [reflexivity | now rewrite IH]. Qed.

Lemma append_assoc (a b c : string) : (a ++ b) ++ c = a ++ (b ++ c).
Proof. induction a as [|x a IH]; simpl; [reflexivity | now rewrite IH]. Qed.

Lemma join_empty_cons (s : string) (rest : list string) :
  join_empty (s :: rest) = s ++ join_empty rest.
Proof.
  unfold join_empty. destruct rest as [|t rest]; simpl.
  - now rewrite append_empty_r.
  - reflexivity.
Qed.

Lemma join_empty_app (xs ys : list string) :
  join_empty (xs ++ ys) = join_empty xs ++ join_empty ys.
Proof.
  induction xs as [|x xs IH].
  - reflexivity.
  - rewrite <- app_comm_cons, !join_empty_cons, IH, append_assoc. reflexivity.
Qed.

(** Dropping the empty strings does not change the concatenation. *)
Lemma join_empty_filter_none (texts : list string) :
  join_empty (filter_none texts) = join_empty texts.
Proof.
  induction texts as [|t texts IH]; [reflexivity|].
  unfold filter_none in *. simpl.
  destruct (String.eqb_spec t "") as [->|Hne]; simpl.
  - rewrite IH, join_empty_cons. reflexivity.
  - rewrite !join_empty_cons, IH. reflexivity.
Qed.

Lemma join_empty_flat_map {A} (f : A -> list value) (g : A -> string) (xs : list A) :
  Forall (fun x => g x = join_empty (map py_str (f x))) xs ->
  join_empty (map g xs) = join_empty (map py_str (flat_map f xs)).
Proof.
  induction 1 as [|x xs Hx _ IH]; [reflexivity|].
  simpl. rewrite join_empty_cons, map_app, join_empty_app, Hx, IH. reflexivity.
Qed.

(** ** The extractor *)

Lemma extract_visible_texts (v : value) :
  _extract_text_from_adf v = join_empty (map py_str (visible_texts v)).
Proof.
  induction v as [ | | | | | xs IH | items IH] using value_nested_ind;
    try reflexivity.
  - simpl. apply (join_empty_flat_map visible_texts _extract_text_from_adf). exact IH.
  - simpl. destruct (in_media_family (get_default items "type" VNone)); [reflexivity|].
    rewrite join_empty_filter_none, join_empty_app, map_app, join_empty_app.
    f_equal.
    + destruct (eq_str _ "text" && dict_has "text" items); reflexivity.
    + apply (join_empty_flat_map (fun kv => visible_texts (snd kv))
               (fun kv => _extract_text_from_adf (snd kv))). exact IH.
Qed.

Lemma eq_str_prune (v : value) (s : string) :
  eq_str (prune_media v) s = eq_str v s.
Proof.
  destruct v as [ | | | | | xs | items]; try reflexivity.
  simpl. destruct (in_media_family _); reflexivity.
Qed.

Lemma in_media_family_prune (v : value) :
  in_media_family (prune_media v) = in_media_family v.
Proof. unfold in_media_family. now rewrite !eq_str_prune. Qed.

Lemma dict_get_map_values (f : value -> value) (k : string) (items : dict) :
  dict_get k (map (fun kv => (fst kv, f (snd kv))) items)
  = option_map f (dict_get k items).
Proof.
  induction items as [|[k' v] items IH]; [reflexivity|].
  simpl. destruct (k' =? k); [reflexivity | exact IH].
Qed.

Lemma extract_prune_media (v : value) :
  plain_texts v = true ->
  _extract_text_from_adf (prune_media v) = _extract_text_from_adf v.
Proof.
  induction v as [ | | | | | xs IH | items IH] using value_nested_ind;
    try reflexivity; intros Hp.
  - simpl in *. f_equal. rewrite map_map. apply map_ext_Forall.
    rewrite forallb_forall in Hp. rewrite Forall_forall in *. auto.
  - simpl in Hp. simpl.
    destruct (in_media_family (get_default items "type" VNone)) eqn:Hm.
    + simpl. unfold get_default at 1. simpl. fold (get_default items "type" VNone).
      rewrite Hm. reflexivity.
    + simpl in Hp. apply andb_true_iff in Hp as [Htext Hall].
      cbn [_extract_text_from_adf].
      assert (Hty : get_default (map (fun kv => (fst kv, prune_media (snd kv))) items) "type" VNone
                    = prune_media (get_default items "type" VNone)).
      { unfold get_default. rewrite dict_get_map_values.
        destruct (dict_get "type" items); reflexivity. }
      rewrite Hty, in_media_family_prune, Hm, eq_str_prune.
      assert (Hhas : dict_has "text" (map (fun kv => (fst kv, prune_media (snd kv))) items)
                     = dict_has "text" items).
      { unfold dict_has. rewrite dict_get_map_values.
        destruct (dict_get "text" items); reflexivity. }
      rewrite Hhas.
      assert (Htxt : (if eq_str (get_default items "type" VNone) "text" && dict_has "text" items
                      then [py_str (get_default
                                      (map (fun kv => (fst kv, prune_media (snd kv))) items)
                                      "text" VNone)]
                      else [])
                     = (if eq_str (get_default items "type" VNone) "text" && dict_has "text" items
                        then [py_str (get_default items "text" VNone)]
                        else [])).
      { destruct (eq_str _ "text" && dict_has "text" items); [|reflexivity].
        unfold get_default. rewrite dict_get_map_values.
        unfold get_default in Htext.
        destruct (dict_get "text" items) as [t|]; [|reflexivity].
        simpl. destruct t; try reflexivity; discriminate. }
      rewrite Htxt, map_map. simpl.
      assert (Hmap : map (fun kv => _extract_text_from_adf (prune_media (snd kv))) items
                     = map (fun kv => _extract_text_from_adf (snd kv)) items).
      { apply map_ext_Forall.
        rewrite forallb_forall in Hall. rewrite Forall_forall in *. auto. }
      rewrite Hmap. reflexivity.
Qed.

(** ** Dicts *)

Lemma existsb_eqb_In (k : string) (ks : list string) :
  existsb (String.eqb k) ks = true <-> In k ks.
Proof.
  rewrite existsb_exists. split.
  - intros [x [Hin Heq]]. apply String.eqb_eq in Heq. now subst.
  - intros Hin. exists k. split; [assumption | apply String.eqb_refl].
Qed.

Lemma unique_keys_NoDup (ks : list string) :
  unique_keys ks = true <-> NoDup ks.
Proof.
  induction ks as [|k ks IH]; simpl.
  - split; [constructor | reflexivity].
  - rewrite andb_true_iff, negb_true_iff, IH. split.
    + intros [Hk Hnd]. constructor; [|assumption].
      intros Hin. apply existsb_eqb_In in Hin. congruence.
    + intros Hnd. inversion Hnd as [|? ? Hk Hnd']; subst. split; [|assumption].
      destruct (existsb (String.eqb k) ks) eqn:E; [|reflexivity].
      apply existsb_eqb_In in E. contradiction.
Qed.

Lemma dict_get_In (k : string) (v : value) (d : dict) :
  dict_get k d = Some v -> In (k, v) d.
Proof.
  induction d as [|[k' v'] d IH]; simpl; [discriminate|].
  destruct (String.eqb_spec k' k) as [->|Hne].
  - intros [= ->]. now left.
  - intros H. right. auto.
Qed.

Lemma dict_get_None_not_In (k : string) (d : dict) :
  dict_get k d = None <-> ~ In k (map fst d).
Proof.
  induction d as [|[k' v'] d IH]; simpl.
  - split; [intros _ [] | reflexivity].
  - destruct (String.eqb_spec k' k) as [->|Hne].
    + split; [discriminate | intros H; exfalso; apply H; now left].
    + rewrite IH. split.
      * intros H [Heq|Hin]; [congruence | contradiction].
      * intros H Hin. apply H. now right.
Qed.

(** Assigning under a key the dict does not have appends the item. *)
Lemma dict_set_fresh (k : string) (v : value) (d : dict) :
  ~ In k (map fst d) -> dict_set k v d = (d ++ [(k, v)])%list.
Proof.
  induction d as [|[k' v'] d IH]; simpl; [reflexivity|].
  intros Hnin. destruct (String.eqb_spec k' k) as [->|Hne].
  - exfalso. apply Hnin. now left.
  - rewrite IH; [reflexivity|]. intros Hin. apply Hnin. now right.
Qed.

Lemma dict_set_keys (k : string) (v : value) (d : dict) :
  map fst (dict_set k v d)
  = if dict_has k d then map fst d else (map fst d ++ [k])%list.
Proof.
  unfold dict_has. induction d as [|[k' v'] d IH]; simpl; [reflexivity|].
  destruct (String.eqb_spec k' k) as [->|Hne]; simpl; [reflexivity|].
  rewrite IH. destruct (dict_get k d); reflexivity.
Qed.

Lemma dict_get_set_same (k : string) (v : value) (d : dict) :
  dict_get k (dict_set k v d) = Some v.
Proof.
  induction d as [|[k' v'] d IH]; simpl.
  - now rewrite String.eqb_refl.
  - destruct (String.eqb_spec k' k) as [->|Hne]; simpl.
    + now rewrite String.eqb_refl.
    + destruct (String.eqb_spec k' k); [contradiction | exact IH].
Qed.

Lemma dict_get_set_other (k k0 : string) (v : value) (d : dict) :
  k0 <> k -> dict_get k0 (dict_set k v d) = dict_get k0 d.
Proof.
  intros Hne. induction d as [|[k' v'] d IH]; simpl.
  - destruct (String.eqb_spec k k0); [congruence | reflexivity].
  - destruct (String.eqb_spec k' k) as [->|Hne']; simpl.
    + destruct (String.eqb_spec k k0); [congruence | reflexivity].
    + destruct (k' =? k0); [reflexivity | exact IH].
Qed.

Lemma dict_set_same_value (k : string) (v : value) (d : dict) :
  dict_get k d = Some v -> dict_set k v d = d.
Proof.
  induction d as [|[k' v'] d IH]; simpl; [discriminate|].
  destruct (String.eqb_spec k' k) as [->|Hne].
  - now intros [= ->].
  - intros H. now rewrite IH.
Qed.

Lemma dict_set_set (k : string) (v w : value) (d : dict) :
  dict_set k w (dict_set k v d) = dict_set k w d.
Proof.
  induction d as [|[k' v'] d IH]; simpl.
  - now rewrite String.eqb_refl.
  - destruct (String.eqb_spec k' k) as [->|Hne]; simpl.
    + now rewrite String.eqb_refl.
    + destruct (String.eqb_spec k' k); [contradiction | now rewrite IH].
Qed.

Lemma dict_set_unique (k : string) (v : value) (d : dict) :
  NoDup (map fst d) -> NoDup (map fst (dict_set k v d)).
Proof.
  intros Hnd. rewrite dict_set_keys. unfold dict_has.
  destruct (dict_get k d) eqn:E; [assumption|].
  apply dict_get_None_not_In in E.
  apply NoDup_app; [assumption | repeat constructor; intros [] | ].
  intros x Hx [<-|[]]. contradiction.
Qed.

(** ** The loops of [transform] *)

Lemma bind_Ok {A B} (r : result A) (k : A -> result B) (b : B) :
  bind r k = Ok b -> exists a, r = Ok a /\ k a = Ok b.
Proof. destruct r as [a|e]; simpl; [eauto | discriminate]. Qed.

Lemma transform_list_eq (m : dict) (xs : list value) :
  transform m (VList xs) = ys <- transform_list m xs ;; Ok (VList ys).
Proof. reflexivity. Qed.

Lemma transform_dict_eq (m : dict) (items : dict) :
  transform m (VDict items) =
  let node_type := get_default items "type" VNone in
  if eq_str node_type "mediaSingle" then
    media <- (if truthy (get_default items "content" VNone)
              then subscript0 (get_default items "content" (VList [VDict []]))
              else Ok (VDict [])) ;;
    media_paragraph m media
  else if eq_str node_type "mediaGroup" then
    medias <- iterate (py_or (get_default items "content" (VList [])) (VList [])) ;;
    paragraphs <- media_paragraphs m medias ;;
    Ok (match paragraphs with
        | [] => empty_paragraph
        | _ => doc_wrapper paragraphs
        end)
  else if eq_str node_type "media" then media_paragraph m (VDict items)
  else transform_items m items [].
Proof. reflexivity. Qed.

Lemma transform_scalar (m : dict) (v : value) :
  scalar v = true -> transform m v = Ok v.
Proof. destruct v; simpl; intros H; try reflexivity; discriminate. Qed.

(** A dict that is not of a media-family type goes through the item loop. *)
Lemma transform_generic (m : dict) (items : dict) :
  in_media_family (get_default items "type" VNone) = false ->
  transform m (VDict items) = transform_items m items [].
Proof.
  intros H. rewrite transform_dict_eq. cbv zeta.
  unfold in_media_family in H.
  apply orb_false_iff in H as [H Hg]. apply orb_false_iff in H as [Hm Hs].
  now rewrite Hs, Hg, Hm.
Qed.

Lemma merge_child_splice (acc : list value) (child : value) :
  merge_child acc child =
  if is_splice child
  then match child with
       | VDict d => match get_default d "content" VNone with
                    | VList cs => (acc ++ cs)%list
                    | _ => acc
                    end
       | _ => acc
       end
  else (acc ++ [child])%list.
Proof.
  destruct child as [ | | | | | xs | d]; try reflexivity.
  simpl. destruct (eq_str _ "doc"); [|reflexivity].
  destruct (get_default d "content" VNone); reflexivity.
Qed.

Lemma merge_child_app (acc : list value) (child : value) :
  merge_child acc child = (acc ++ merged child)%list.
Proof.
  unfold merged. destruct child as [ | | | | | xs | d]; try reflexivity.
  simpl. destruct (eq_str _ "doc"); [|reflexivity].
  destruct (get_default d "content" VNone); reflexivity.
Qed.

(** The content loop only ever extends its accumulator. *)
Lemma transform_children_acc (m : dict) (children acc : list value) :
  transform_children m children acc
  = cs <- transform_children m children [] ;; Ok (acc ++ cs)%list.
Proof.
  revert acc. induction children as [|c children IH]; intros acc; simpl.
  - now rewrite app_nil_r.
  - destruct (transform m c) as [tc|e]; simpl; [|reflexivity].
    rewrite IH. rewrite (IH (merge_child [] tc)).
    destruct (transform_children m children []) as [cs|e]; simpl; [|reflexivity].
    rewrite merge_child_app, (merge_child_app [] tc), app_assoc. reflexivity.
Qed.

Lemma transform_children_app (m : dict) (xs ys acc : list value) :
  transform_children m (xs ++ ys) acc
  = mid <- transform_children m xs acc ;; transform_children m ys mid.
Proof.
  revert acc. induction xs as [|x xs IH]; intros acc; simpl; [reflexivity|].
  destruct (transform m x) as [tx|e]; simpl; [apply IH | reflexivity].
Qed.

#[local] Arguments transform : simpl never.

(** Induction that, at a dict, also reaches the elements of the lists
    stored in it (the content loop works on those directly). *)
Lemma value_deep_ind (P : value -> Prop) :
  P VNone -> (forall b, P (VBool b)) -> (forall n, P (VInt n)) ->
  (forall r, P (VFloat r)) -> (forall s, P (VStr s)) ->
  (forall xs, Forall P xs -> P (VList xs)) ->
  (forall items,
      Forall (fun kv => P (snd kv)
                        /\ match snd kv with
                           | VList cs => Forall P cs
                           | _ => True
                           end) items ->
      P (VDict items)) ->
  forall v, P v.
Proof.
  intros Hn Hb Hi Hf Hs Hl Hd v.
  enough (H : P v /\ match v with VList cs => Forall P cs | _ => True end)
    by apply H.
  induction v as [ | | | | | xs IH | items IH] using value_nested_ind; auto.
  - assert (Hall : Forall P xs).
    { eapply Forall_impl; [|exact IH]. intros x Hx. apply Hx. }
    auto.
Qed.

Lemma transform_list_Forall2 (m : dict) (xs ys : list value) :
  transform_list m xs = Ok ys <-> Forall2 (fun x y => transform m x = Ok y) xs ys.
Proof.
  revert ys. induction xs as [|x xs IH]; intros ys; simpl.
  - split.
    + intros [= <-]. constructor.
    + intros H. inversion H. reflexivity.
  - split.
    + intros H. apply bind_Ok in H as [y [Hy H]].
      apply bind_Ok in H as [ys' [Hys [= <-]]].
      constructor; [assumption | now apply IH].
    + intros H. inversion H as [|? y ? ys' Hy Hys]; subst.
      rewrite Hy. simpl. apply IH in Hys. rewrite Hys. reflexivity.
Qed.

(** With all keys different, the item loop maps [transform_item] over the
    items. *)
Lemma transform_items_unique (m : dict) (kvs new_node : dict) :
  NoDup (map fst new_node ++ map fst kvs) ->
  transform_items m kvs new_node
  = out <- transform_each_item m kvs ;; Ok (VDict (new_node ++ out)).
Proof.
  revert new_node. induction kvs as [|[k v] kvs IH]; intros new_node Hnd; simpl.
  - now rewrite app_nil_r.
  - assert (Hk : ~ In k (map fst new_node)).
    { intros Hin. apply NoDup_remove_2 in Hnd. apply Hnd.
      apply in_or_app. now left. }
    assert (Hnext : forall tv,
               transform_items m kvs (dict_set k tv new_node)
               = out <- transform_each_item m kvs ;;
                 Ok (VDict (new_node ++ (k, tv) :: out))).
    { intros tv. rewrite IH.
      - rewrite dict_set_fresh by assumption.
        destruct (transform_each_item m kvs); simpl; [|reflexivity].
        now rewrite <- app_assoc.
      - rewrite dict_set_fresh by assumption.
        rewrite map_app, <- app_assoc. exact Hnd. }
    unfold transform_item. cbn [fst snd transform_items transform_each_item].
    destruct (k =? "content").
    + destruct v as [ | b | n | r | s | xs | items].
      6: { destruct (transform_children m xs []); simpl; [|reflexivity].
           rewrite Hnext. destruct (transform_each_item m kvs); reflexivity. }
      all: destruct (transform m _); simpl; [|reflexivity];
        rewrite Hnext; destruct (transform_each_item m kvs); reflexivity.
    + destruct (transform m v); simpl; [|reflexivity].
      rewrite Hnext. destruct (transform_each_item m kvs); reflexivity.
Qed.

Lemma transform_each_item_Forall2 (m : dict) (kvs out : dict) :
  transform_each_item m kvs = Ok out <->
  Forall2 (fun kv kv' => fst kv' = fst kv /\ transform_item m kv = Ok (snd kv')) kvs out.
Proof.
  revert out. induction kvs as [|kv kvs IH]; intros out; simpl.
  - split.
    + intros [= <-]. constructor.
    + intros H. inversion H. reflexivity.
  - split.
    + intros H. apply bind_Ok in H as [tv [Htv H]].
      apply bind_Ok in H as [out' [Hout [= <-]]].
      constructor; [split; [reflexivity | assumption] | now apply IH].
    + intros H. inversion H as [|? [k' v'] ? out' [Hk Hv] Hrest]; subst.
      simpl in *. subst k'. rewrite Hv. simpl. apply IH in Hrest.
      rewrite Hrest. reflexivity.
Qed.

Lemma transform_each_item_keys (m : dict) (kvs out : dict) :
  transform_each_item m kvs = Ok out -> map fst out = map fst kvs.
Proof.
  rewrite transform_each_item_Forall2.
  induction 1 as [|kv kv' kvs out [Hk _] _ IH]; simpl; congruence.
Qed.

Lemma transform_each_item_get (m : dict) (kvs out : dict) (k : string) :
  transform_each_item m kvs = Ok out ->
  match dict_get k kvs with
  | Some v => exists v', dict_get k out = Some v' /\ transform_item m (k, v) = Ok v'
  | None => dict_get k out = None
  end.
Proof.
  rewrite transform_each_item_Forall2.
  induction 1 as [|[k0 v0] [k1 v1] kvs out [Hk Hv] _ IH]; simpl in *; [reflexivity|].
  subst k1. destruct (String.eqb_spec k0 k) as [->|Hne]; [|exact IH].
  exists v1. split; [reflexivity | exact Hv].
Qed.

(** ** Media paragraphs *)

Lemma url_lookup_Ok (m : dict) (key url : value) :
  url_lookup m key = Ok url ->
  scalar key = true /\ (url = VNone \/ exists s, key = VStr s /\ dict_get s m = Some url).
Proof.
  destruct key; simpl; try discriminate; intros [= <-]; split; auto.
  unfold get_default. destruct (dict_get s m) eqn:E; [right; eauto | now left].
Qed.

(** The paragraph built for a media reference holds one text node, whose
    text is a scalar and whose link, if any, is a URL of the mapping. *)
Lemma media_paragraph_shape (m : dict) (media r : value) :
  media_paragraph m media = Ok r ->
  exists text url,
    scalar text = true
    /\ (url = VNone \/ exists s, dict_get s m = Some url)
    /\ r = (if negb (truthy url) then paragraph [text_node text]
            else paragraph [linked_text_node text url]).
Proof.
  unfold media_paragraph. intros H.
  apply bind_Ok in H as [fname [_ H]].
  apply bind_Ok in H as [url [Hurl [= <-]]].
  apply url_lookup_Ok in Hurl as [Hsc Hurl].
  exists (py_or (py_or fname (VStr "image")) (VStr "attachment")), url.
  split; [|split].
  - unfold py_or. destruct (truthy fname) eqn:Ht; [rewrite Ht; assumption | reflexivity].
  - destruct Hurl as [->|[s [_ Hs]]]; [now left | right; eauto].
  - reflexivity.
Qed.

Lemma media_paragraphs_Forall2 (m : dict) (medias ps : list value) :
  media_paragraphs m medias = Ok ps <->
  Forall2 (fun media p => media_paragraph m media = Ok p) medias ps.
Proof.
  revert ps. induction medias as [|x xs IH]; intros ps; simpl.
  - split.
    + intros [= <-]. constructor.
    + intros H. inversion H. reflexivity.
  - split.
    + intros H. apply bind_Ok in H as [p [Hp H]].
      apply bind_Ok in H as [ps' [Hps [= <-]]].
      constructor; [assumption | now apply IH].
    + intros H. inversion H as [|? p ? ps' Hp Hps]; subst.
      rewrite Hp. simpl. apply IH in Hps. rewrite Hps. reflexivity.
Qed.

(** The three media branches of [transform], by their results. *)
Lemma transform_media_family (m : dict) (items : dict) (r : value) :
  in_media_family (get_default items "type" VNone) = true ->
  transform m (VDict items) = Ok r ->
  (exists media, media_paragraph m media = Ok r)
  \/ r = empty_paragraph
  \/ (exists medias p ps,
        media_paragraphs m medias = Ok (p :: ps) /\ r = doc_wrapper (p :: ps)).
Proof.
  intros Hfam. rewrite transform_dict_eq. cbv zeta.
  destruct (eq_str _ "mediaSingle") eqn:Hs.
  - intros H. apply bind_Ok in H as [media [_ H]]. left. eauto.
  - destruct (eq_str _ "mediaGroup") eqn:Hg.
    + intros H. apply bind_Ok in H as [medias [_ H]].
      apply bind_Ok in H as [ps [Hps H]]. cbv beta in H.
      destruct ps as [|p ps]; injection H as <-;
        [now (right; left) | right; right; eauto].
    + destruct (eq_str _ "media") eqn:Hm.
      * intros H. left. eauto.
      * unfold in_media_family in Hfam. rewrite Hm, Hg, Hs in Hfam. discriminate.
Qed.

(** [transform] keeps the kind of a value. *)
Lemma transform_kind (m : dict) (v r : value) :
  transform m v = Ok r ->
  match r with
  | VList _ => isinstance_list v = true
  | VDict _ => isinstance_dict v = true
  | _ => r = v
  end.
Proof.
  destruct v as [ | | | | | xs | items];
    try (rewrite transform_scalar by reflexivity; intros [= <-]; reflexivity).
  - rewrite transform_list_eq. intros H.
    apply bind_Ok in H as [ys [_ [= <-]]]. reflexivity.
  - intros H.
    destruct (in_media_family (get_default items "type" VNone)) eqn:Hfam.
    + destruct (transform_media_family _ _ _ Hfam H) as [[media Hm] | [-> | (ms & p & ps & _ & ->)]];
        try reflexivity.
      apply media_paragraph_shape in Hm as (text & url & _ & _ & ->).
      destruct (negb (truthy url)); reflexivity.
    + rewrite transform_generic in H by assumption.
      enough (Hgen : forall kvs acc, transform_items m kvs acc = Ok r -> isinstance_dict r = true).
      { apply Hgen in H. destruct r; try discriminate; reflexivity. }
      clear. induction kvs as [|[k v] kvs IH]; intros acc; simpl.
      * now intros [= <-].
      * destruct (k =? "content"); [destruct v|];
          intros H; apply bind_Ok in H as [x [_ H]]; eauto.
Qed.

(** ** The content loop, child by child *)

Lemma transform_children_list (m : dict) (children acc : list value) :
  transform_children m children acc
  = tcs <- transform_list m children ;; Ok (acc ++ flat_map merged tcs)%list.
Proof.
  revert acc. induction children as [|c cs IH]; intros acc; simpl.
  - now rewrite app_nil_r.
  - destruct (transform m c) as [tc|e]; simpl; [|reflexivity].
    rewrite IH. destruct (transform_list m cs) as [tcs|e]; simpl; [|reflexivity].
    now rewrite merge_child_app, <- app_assoc.
Qed.

Lemma merged_plain (child : value) :
  is_splice child = false -> merged child = [child].
Proof.
  intros H. unfold merged. rewrite merge_child_splice, H. reflexivity.
Qed.

Lemma merged_splice (d : dict) (cs : list value) :
  eq_str (get_default d "type" VNone) "doc" = true ->
  get_default d "content" VNone = VList cs ->
  merged (VDict d) = cs.
Proof.
  intros Hd Hc. unfold merged. simpl. now rewrite Hd, Hc.
Qed.

Lemma flat_map_merged_plain (cs : list value) :
  Forall (fun c => is_splice c = false) cs -> flat_map merged cs = cs.
Proof.
  induction 1 as [|c cs Hc _ IH]; simpl; [reflexivity|].
  now rewrite merged_plain, IH.
Qed.

(** ** A second pass changes nothing *)

Lemma settled_parts (v : value) :
  settled v = true <->
  wf_value v = true /\ media_free v = true /\ splice_free v = true.
Proof. unfold settled. rewrite !andb_true_iff. tauto. Qed.

Lemma settled_list (xs : list value) :
  settled (VList xs) = true <-> Forall (fun x => settled x = true) xs.
Proof.
  rewrite settled_parts. simpl. rewrite !forallb_forall, Forall_forall.
  split.
  - intros (Hw & Hm & Hs) x Hx. apply settled_parts. auto.
  - intros H. repeat split; intros x Hx; apply H, settled_parts in Hx; tauto.
Qed.

Lemma get_default_In (d : dict) (k : string) (default v : value) :
  get_default d k default = v -> dict_has k d = true -> In (k, v) d.
Proof.
  unfold get_default, dict_has. destruct (dict_get k d) eqn:E; [|discriminate].
  intros <- _. now apply dict_get_In.
Qed.

(** What holds of each item of a settled dict. *)
Lemma settled_dict_items (items : dict) :
  settled (VDict items) = true ->
  Forall (fun kv =>
            settled (snd kv) = true
            /\ (fst kv = "content" ->
                forall cs, snd kv = VList cs ->
                           Forall (fun c => is_splice c = false) cs)) items.
Proof.
  rewrite settled_parts. simpl. rewrite !andb_true_iff, !forallb_forall.
  intros ((_ & Hw) & (_ & Hm) & Hs). apply Forall_forall. intros kv Hin.
  specialize (Hw kv Hin). specialize (Hm kv Hin). specialize (Hs kv Hin).
  apply andb_true_iff in Hs as [Hs Hc]. split.
  - apply settled_parts. auto.
  - intros Hk cs Hv. rewrite Hk, Hv in Hc. simpl in Hc.
    rewrite forallb_forall in Hc. apply Forall_forall. intros c Hcin.
    apply Hc in Hcin. now apply negb_true_iff in Hcin.
Qed.

Lemma transform_settled (m : dict) (v : value) :
  settled v = true -> transform m v = Ok v.
Proof.
  induction v as [ | | | | | xs IH | items IH] using value_deep_ind;
    try reflexivity; intros Hv.
  - rewrite transform_list_eq.
    assert (H : transform_list m xs = Ok xs).
    { apply transform_list_Forall2. apply settled_list in Hv.
      clear -IH Hv. induction xs as [|x xs IHxs]; constructor;
        inversion IH; inversion Hv; subst; auto. }
    now rewrite H.
  - pose proof (settled_dict_items _ Hv) as Hitems.
    apply settled_parts in Hv as (Hw & Hm & _). simpl in Hw, Hm.
    apply andb_true_iff in Hw as [Hu _]. apply andb_true_iff in Hm as [Hfam _].
    apply negb_true_iff in Hfam. apply unique_keys_NoDup in Hu.
    rewrite transform_generic, transform_items_unique by assumption.
    assert (H : transform_each_item m items = Ok items).
    { apply transform_each_item_Forall2. clear -IH Hitems.
      induction items as [|[k v] items IHitems]; constructor.
      - inversion IH as [|? ? [Hv Hdeep] _]; inversion Hitems as [|? ? [Hs Hc] _]; subst.
        simpl in *. split; [reflexivity|]. unfold transform_item. simpl.
        destruct (String.eqb_spec k "content") as [->|Hne]; [|auto].
        destruct v as [ | | | | | cs | d]; auto.
        rewrite transform_children_list.
        assert (Hcs : transform_list m cs = Ok cs).
        { apply transform_list_Forall2. apply settled_list in Hs.
          clear -Hdeep Hs. induction cs as [|c cs IHcs]; constructor;
            inversion Hdeep; inversion Hs; subst; auto. }
        rewrite Hcs. simpl. rewrite flat_map_merged_plain; [reflexivity|].
        now apply Hc.
      - inversion IH; inversion Hitems; subst. auto. }
    rewrite H. reflexivity.
Qed.

(** ** The output of a pass is settled *)

Lemma scalar_settled (v : value) :
  scalar v = true -> settled v = true /\ is_splice v = false.
Proof. destruct v; simpl; intros H; try discriminate; split; reflexivity. Qed.

Lemma settled_text_paragraph (text : value) :
  scalar text = true -> settled (paragraph [text_node text]) = true.
Proof.
  intros H. apply scalar_settled in H as [H _]. apply settled_parts in H as (Hw & Hm & Hs).
  apply settled_parts. unfold paragraph, text_node. simpl.
  rewrite Hw, Hm, Hs. repeat split.
Qed.

Lemma settled_linked_paragraph (text url : value) :
  scalar text = true -> scalar url = true ->
  settled (paragraph [linked_text_node text url]) = true.
Proof.
  intros Ht Hu.
  apply scalar_settled in Ht as [Ht _]. apply settled_parts in Ht as (Hw & Hm & Hs).
  apply scalar_settled in Hu as [Hu Hsp]. apply settled_parts in Hu as (Hw' & Hm' & Hs').
  apply settled_parts. unfold paragraph, linked_text_node, link_mark. simpl.
  rewrite Hw, Hm, Hs, Hw', Hm', Hs'. repeat split.
Qed.

Lemma paragraph_not_splice (children : list value) :
  is_splice (paragraph children) = false.
Proof. reflexivity. Qed.

Section SettledOutput.

Variable m : dict.
Hypothesis urls : scalar_urls m = true.

Lemma mapping_url_scalar (s : string) (url : value) :
  dict_get s m = Some url -> scalar url = true.
Proof.
  intros H. apply dict_get_In in H. unfold scalar_urls in urls.
  rewrite forallb_forall in urls. apply (urls _ H).
Qed.

Lemma media_paragraph_settled (media r : value) :
  media_paragraph m media = Ok r ->
  settled r = true /\ is_splice r = false.
Proof.
  intros H. apply media_paragraph_shape in H as (text & url & Ht & Hu & ->).
  assert (Hsu : scalar url = true).
  { destruct Hu as [->|[s Hs]]; [reflexivity | eapply mapping_url_scalar; eauto]. }
  destruct (negb (truthy url)); split;
    auto using settled_text_paragraph, settled_linked_paragraph, paragraph_not_splice.
Qed.

Lemma media_paragraphs_settled (medias ps : list value) :
  media_paragraphs m medias = Ok ps ->
  Forall (fun p => settled p = true /\ is_splice p = false) ps.
Proof.
  rewrite media_paragraphs_Forall2.
  induction 1 as [|media p medias ps Hp _ IH]; constructor;
    eauto using media_paragraph_settled.
Qed.

Lemma doc_wrapper_settled (ps : list value) :
  Forall (fun p => settled p = true /\ is_splice p = false) ps ->
  settled (doc_wrapper ps) = true.
Proof.
  intros H. apply settled_parts. unfold doc_wrapper. simpl.
  rewrite !andb_true_r.
  assert (Hall : forallb wf_value ps = true /\ forallb media_free ps = true
                 /\ forallb splice_free ps = true
                 /\ forallb (fun c => negb (is_splice c)) ps = true).
  { induction H as [|p ps [Hp Hn] _ (H1 & H2 & H3 & H4)]; simpl; [auto|].
    apply settled_parts in Hp as (Hw & Hm & Hs).
    rewrite Hw, Hm, Hs, Hn, H1, H2, H3, H4. auto. }
  destruct Hall as (H1 & H2 & H3 & H4). rewrite H1, H2, H3, H4. auto.
Qed.

(** What a settled transformed child adds to the content is settled and
    holds no value to merge. *)
Lemma merged_settled (tc : value) :
  settled tc = true ->
  Forall (fun x => settled x = true /\ is_splice x = false) (merged tc).
Proof.
  intros H. destruct (is_splice tc) eqn:Hsp.
  - destruct tc as [ | | | | | xs | d]; try discriminate.
    simpl in Hsp. apply andb_true_iff in Hsp as [Hd Hl].
    destruct (get_default d "content" VNone) as [ | | | | | cs | ] eqn:Hc;
      try discriminate.
    rewrite (merged_splice d cs Hd Hc).
    assert (Hin : In ("content", VList cs) d).
    { unfold get_default in Hc. destruct (dict_get "content" d) eqn:E; [|discriminate].
      subst. now apply dict_get_In. }
    pose proof (settled_dict_items _ H) as Hitems.
    rewrite Forall_forall in Hitems. destruct (Hitems _ Hin) as [Hs Hn].
    simpl in Hs, Hn. apply settled_list in Hs. specialize (Hn eq_refl cs eq_refl).
    clear -Hs Hn. induction cs; constructor; inversion Hs; inversion Hn; subst; auto.
  - rewrite merged_plain by assumption. repeat constructor; assumption.
Qed.

Lemma settled_dict_intro (out : dict) :
  NoDup (map fst out) ->
  in_media_family (get_default out "type" VNone) = false ->
  Forall (fun kv =>
            settled (snd kv) = true
            /\ (fst kv = "content" ->
                forall cs, snd kv = VList cs ->
                           Forall (fun c => is_splice c = false) cs)) out ->
  settled (VDict out) = true.
Proof.
  intros Hnd Hfam Hall. apply settled_parts. simpl.
  apply unique_keys_NoDup in Hnd. rewrite Hnd, Hfam. simpl.
  rewrite !forallb_forall. rewrite Forall_forall in Hall.
  repeat split; intros kv Hin; destruct (Hall kv Hin) as [Hs Hc];
    apply settled_parts in Hs as (Hw & Hm & Hs); auto.
  rewrite Hs. simpl. destruct (String.eqb_spec (fst kv) "content") as [Hk|]; [|reflexivity].
  destruct (snd kv) as [ | | | | | cs | ] eqn:Hv; try reflexivity.
  specialize (Hc Hk cs eq_refl). rewrite forallb_forall. rewrite Forall_forall in Hc.
  intros c Hcin. now rewrite Hc.
Qed.

Lemma transform_output_settled (t r : value) :
  wf_value t = true -> transform m t = Ok r -> settled r = true.
Proof.
  revert r.
  induction t as [ | b | n | f | s | xs IH | items IH] using value_deep_ind;
    intros r Hwf Hr;
    try (rewrite transform_scalar in Hr by reflexivity; injection Hr as <-;
         reflexivity).
  - rewrite transform_list_eq in Hr. apply bind_Ok in Hr as [ys [Hys [= <-]]].
    apply settled_list. apply transform_list_Forall2 in Hys.
    simpl in Hwf. rewrite forallb_forall in Hwf.
    clear -IH Hys Hwf. induction Hys as [|x y xs ys Hxy _ IHys]; constructor.
    + inversion IH; subst. apply (H1 y); [apply Hwf; now left | assumption].
    + inversion IH; subst. apply IHys; [assumption|].
      intros z Hz. apply Hwf. now right.
  - destruct (in_media_family (get_default items "type" VNone)) eqn:Hfam.
    + destruct (transform_media_family _ _ _ Hfam Hr)
        as [[media Hm] | [-> | (ms & p & ps & Hps & ->)]].
      * now apply media_paragraph_settled in Hm.
      * reflexivity.
      * apply doc_wrapper_settled. eapply media_paragraphs_settled; eauto.
    + simpl in Hwf. apply andb_true_iff in Hwf as [Hu Hwf].
      apply unique_keys_NoDup in Hu. rewrite forallb_forall in Hwf.
      rewrite transform_generic, transform_items_unique in Hr by assumption.
      apply bind_Ok in Hr as [out [Hout [= <-]]]. simpl.
      apply settled_dict_intro.
      * now rewrite (transform_each_item_keys _ _ _ Hout).
      * pose proof (transform_each_item_get m items out "type" Hout) as Hty.
        unfold get_default in *. destruct (dict_get "type" items) as [ty|] eqn:E.
        -- destruct Hty as [ty' [-> Hty']]. unfold transform_item in Hty'. simpl in Hty'.
           apply transform_kind in Hty'.
           destruct ty'; try reflexivity; subst; assumption.
        -- now rewrite Hty.
      * apply transform_each_item_Forall2 in Hout.
        clear -IH Hwf Hout. induction Hout as [|[k v] [k' v'] items out [Hk Hv] _ IHout];
          constructor.
        -- simpl in *. subst k'.
           inversion IH as [|? ? [IHv IHdeep] _]; subst. simpl in *.
           assert (Hwv : wf_value v = true) by (apply (Hwf (k, v)); now left).
           unfold transform_item in Hv. simpl in Hv.
           destruct (String.eqb_spec k "content") as [->|Hne].
           ++ destruct v as [ | | | | | cs | d];
                try (split; [now apply IHv | intros _ cs Hcs; subst;
                              apply transform_kind in Hv; discriminate]).
              apply bind_Ok in Hv as [out' [Hcs [= <-]]].
              rewrite transform_children_list in Hcs.
              apply bind_Ok in Hcs as [tcs [Htcs [= <-]]]. simpl.
              assert (Hall : Forall (fun x => settled x = true /\ is_splice x = false)
                               (flat_map merged tcs)).
              { apply transform_list_Forall2 in Htcs. simpl in Hwv.
                rewrite forallb_forall in Hwv.
                clear -IHdeep Htcs Hwv.
                induction Htcs as [|c tc cs tcs Hc _ IHtcs]; simpl; [constructor|].
                inversion IHdeep; subst. apply Forall_app. split.
                - apply merged_settled. apply (H1 tc); [apply Hwv; now left | assumption].
                - apply IHtcs; [assumption|]. intros z Hz. apply Hwv. now right. }
              split.
              ** apply settled_list. eapply Forall_impl; [|exact Hall]. now intros x [].
              ** intros _ cs' [= <-]. eapply Forall_impl; [|exact Hall]. now intros x [].
           ++ split; [now apply IHv | intros Hk; contradiction].
        -- inversion IH; subst. apply IHout; [assumption|].
           intros z Hz. apply Hwf. now right.
Qed.

End SettledOutput.

(** ** When the rewrite returns *)

Lemma media_ok_paragraph (m : dict) (media : value) :
  media_ok media = true <-> exists r, media_paragraph m media = Ok r.
Proof.
  unfold media_ok, media_paragraph, media_filename.
  destruct media as [ | | | | | xs | d]; simpl;
    try (split; [discriminate | intros [? H]; discriminate]).
  destruct (get_default d "attrs" (VDict [])) as [ | | | | | xs | attrs]; simpl;
    try (split; [discriminate | intros [? H]; discriminate]).
  destruct (truthy (get_default attrs "fileName" VNone)); simpl.
  - destruct (get_default attrs "fileName" VNone); simpl;
      (split; [intros H; try discriminate; eauto | intros [? H]; try discriminate; reflexivity]).
  - destruct (get_default attrs "name" VNone); simpl;
      (split; [intros H; try discriminate; eauto | intros [? H]; try discriminate; reflexivity]).
Qed.

Lemma media_ok_paragraphs (m : dict) (medias : list value) :
  forallb media_ok medias = true <-> exists ps, media_paragraphs m medias = Ok ps.
Proof.
  induction medias as [|media medias IH]; simpl.
  - split; eauto.
  - rewrite andb_true_iff, IH, (media_ok_paragraph m). split.
    + intros [[p Hp] [ps Hps]]. rewrite Hp, Hps. simpl. eauto.
    + intros [ps H]. apply bind_Ok in H as [p [Hp H]].
      apply bind_Ok in H as [ps' [Hps _]]. eauto.
Qed.

Lemma transform_list_returns (m : dict) (xs : list value) :
  Forall (fun x => exists r, transform m x = Ok r) xs <->
  exists ys, transform_list m xs = Ok ys.
Proof.
  induction xs as [|x xs IH]; simpl.
  - split; [eauto | constructor].
  - split.
    + intros H. inversion H as [|? ? [y Hy] Hxs]; subst.
      apply IH in Hxs as [ys Hys]. rewrite Hy, Hys. simpl. eauto.
    + intros [ys H]. apply bind_Ok in H as [y [Hy H]].
      apply bind_Ok in H as [ys' [Hys _]]. constructor; [eauto | apply IH; eauto].
Qed.

Lemma transform_each_item_returns (m : dict) (kvs : dict) :
  Forall (fun kv => exists r, transform_item m kv = Ok r) kvs <->
  exists out, transform_each_item m kvs = Ok out.
Proof.
  induction kvs as [|kv kvs IH]; simpl.
  - split; [eauto | constructor].
  - split.
    + intros H. inversion H as [|? ? [y Hy] Hxs]; subst.
      apply IH in Hxs as [ys Hys]. rewrite Hy, Hys. simpl. eauto.
    + intros [ys H]. apply bind_Ok in H as [y [Hy H]].
      apply bind_Ok in H as [ys' [Hys _]]. constructor; [eauto | apply IH; eauto].
Qed.

(** On a tree of Python values the rewrite returns exactly when the tree
    is well shaped. *)
Lemma transform_returns_iff (m : dict) (v : value) :
  wf_value v = true ->
  (well_shaped v = true <-> exists r, transform m v = Ok r).
Proof.
  induction v as [ | | | | | xs IH | items IH] using value_deep_ind;
    intros Hwf;
    try (rewrite transform_scalar by reflexivity; split; [eauto | reflexivity]).
  - simpl in *. rewrite forallb_forall in Hwf.
    assert (Hiff : forallb well_shaped xs = true
                   <-> Forall (fun x => exists r, transform m x = Ok r) xs).
    { rewrite forallb_forall, !Forall_forall. rewrite Forall_forall in IH.
      split; intros H x Hx; apply (IH x Hx (Hwf x Hx)); auto. }
    rewrite Hiff, transform_list_returns, transform_list_eq. split.
    + intros [ys ->]. simpl. eauto.
    + intros [? H]. apply bind_Ok in H as [ys [Hys _]]. eauto.
  - rewrite transform_dict_eq. simpl well_shaped. cbv zeta.
    destruct (eq_str (get_default items "type" VNone) "mediaSingle").
    { destruct (truthy (get_default items "content" VNone)) eqn:Ht.
      - unfold get_default in *.
        destruct (dict_get "content" items) as [c|]; [|discriminate].
        destruct c as [ | | | | s | [|media rest] | d]; simpl in *;
          try discriminate;
          try (split; [discriminate | intros [? H]; discriminate]).
        + destruct s; [discriminate|]. simpl.
          split; [discriminate | intros [? H]; discriminate].
        + apply media_ok_paragraph.
      - simpl. split; [intros _ | reflexivity].
        apply (media_ok_paragraph m (VDict [])). reflexivity. }
    destruct (eq_str (get_default items "type" VNone) "mediaGroup").
    { destruct (py_or (get_default items "content" (VList [])) (VList []))
        as [ | | | | s | medias | d] eqn:Hc; simpl;
        try (split; [discriminate | intros [? H]; discriminate]).
      - assert (Hs : s <> "").
        { unfold py_or in Hc. destruct (truthy (get_default items "content" (VList []))) eqn:Ht;
            [|discriminate]. rewrite Hc in Ht. simpl in Ht. intros ->. discriminate. }
        destruct s; [contradiction|]. simpl.
        split; [discriminate | intros [? H]; discriminate].
      - rewrite (media_ok_paragraphs m). split.
        + intros [ps ->]. simpl. eauto.
        + intros [? H]. apply bind_Ok in H as [ps [Hps _]]. eauto.
      - assert (Hd : d <> []).
        { unfold py_or in Hc. destruct (truthy (get_default items "content" (VList []))) eqn:Ht;
            [|discriminate]. rewrite Hc in Ht. simpl in Ht. intros ->. discriminate. }
        destruct d; [contradiction|]. simpl.
        split; [discriminate | intros [? H]; discriminate]. }
    destruct (eq_str (get_default items "type" VNone) "media").
    { exact (media_ok_paragraph m (VDict items)). }
    simpl in Hwf. apply andb_true_iff in Hwf as [Hu Hwf].
    apply unique_keys_NoDup in Hu. rewrite forallb_forall in Hwf.
    rewrite transform_items_unique by assumption.
    assert (Hiff : forallb (fun kv => well_shaped (snd kv)) items = true
                   <-> Forall (fun kv => exists r, transform_item m kv = Ok r) items).
    { rewrite forallb_forall, !Forall_forall. rewrite Forall_forall in IH.
      assert (Hitem : forall kv, In kv items ->
                 (well_shaped (snd kv) = true <-> exists r, transform_item m kv = Ok r)).
      { intros [k v] Hin. destruct (IH _ Hin) as [IHv IHdeep]. simpl in *.
        specialize (Hwf _ Hin). simpl in Hwf. specialize (IHv Hwf).
        unfold transform_item. simpl.
        destruct (k =? "content"); [|exact IHv].
        destruct v as [ | | | | | cs | d]; try exact IHv.
        rewrite transform_children_list. simpl in *. rewrite forallb_forall in Hwf.
        assert (Hcs : forallb well_shaped cs = true
                      <-> Forall (fun x => exists r, transform m x = Ok r) cs).
        { rewrite forallb_forall, !Forall_forall. rewrite Forall_forall in IHdeep.
          split; intros H x Hx; apply (IHdeep x Hx (Hwf x Hx)); auto. }
        rewrite Hcs, transform_list_returns. split.
        - intros [tcs ->]. simpl. eauto.
        - intros [? H]. apply bind_Ok in H as [cs' [H _]].
          apply bind_Ok in H as [tcs [H _]]. eauto. }
      split; intros H kv Hin; apply (Hitem kv Hin); auto. }
    rewrite Hiff, transform_each_item_returns. split.
    + intros [out ->]. simpl. eauto.
    + intros [? H]. apply bind_Ok in H as [out [Hout _]]. eauto.
Qed.

(** ** The filename-to-URL mapping *)

Lemma dict_set_Forall (P : string * value -> Prop) (k : string) (v : value) (d : dict) :
  P (k, v) -> Forall P d -> Forall P (dict_set k v d).
Proof.
  intros Hkv. induction 1 as [|[k' v'] d Hx Hd IH]; simpl.
  - repeat constructor. assumption.
  - destruct (String.eqb_spec k' k) as [->|Hne]; constructor; assumption.
Qed.

(** Every entry of [filename_to_url] has a non-empty filename and a truthy
    URL, and no filename occurs twice. *)
Lemma filename_to_url_entries (copied_attachments : option (list attachment)) :
  let m := filename_to_url copied_attachments in
  NoDup (map fst m)
  /\ Forall (fun entry => fst entry <> "" /\ truthy (snd entry) = true) m.
Proof.
  unfold filename_to_url.
  generalize (match copied_attachments with Some items => items | None => [] end).
  intros items.
  enough (H : forall acc : dict,
             NoDup (map fst acc)
             /\ Forall (fun entry => fst entry <> "" /\ truthy (snd entry) = true) acc ->
             let m := fold_left
                        (fun acc item =>
                           if truthy (VStr (filename item)) && truthy (content item)
                           then dict_set (filename item) (content item) acc
                           else acc) items acc in
             NoDup (map fst m)
             /\ Forall (fun entry => fst entry <> "" /\ truthy (snd entry) = true) m).
  { apply H. split; constructor. }
  induction items as [|item items IH]; intros acc Hacc; cbn [fold_left]; [exact Hacc|].
  apply IH. destruct Hacc as [Hnd Hall].
  destruct (truthy (VStr (filename item)) && truthy (content item)) eqn:E; [|auto].
  apply andb_true_iff in E as [Hf Hc]. split.
  - now apply dict_set_unique.
  - apply dict_set_Forall; auto.
    simpl in Hf. apply negb_true_iff, String.eqb_neq in Hf. simpl. auto.
Qed.

Lemma filename_to_url_truthy (copied_attachments : option (list attachment))
    (f : string) (url : value) :
  dict_get f (filename_to_url copied_attachments) = Some url -> truthy url = true.
Proof.
  intros H. apply dict_get_In in H.
  destruct (filename_to_url_entries copied_attachments) as [_ Hall].
  rewrite Forall_forall in Hall. apply (Hall _ H).
Qed.

(** The list [urls] of the post-pass is empty exactly when the mapping is. *)
Lemma urls_of_mapping (copied_attachments : option (list attachment)) :
  let m := filename_to_url copied_attachments in
  truthy (VList (filter truthy (map snd m))) = match m with [] => false | _ => true end.
Proof.
  intros m. destruct (filename_to_url_entries copied_attachments) as [_ Hall].
  fold m in Hall. destruct Hall as [|[k v] rest [_ Hv] _]; [reflexivity|].
  simpl in *. now rewrite Hv.
Qed.

(** ** The post-pass *)

Lemma append_attachments_other (m : dict) (r : value) :
  is_doc r = false -> append_attachments m r = Ok r.
Proof.
  destruct r as [ | | | | | xs | d]; try reflexivity.
  simpl. now intros ->.
Qed.

Lemma append_attachments_empty (r : value) :
  append_attachments [] r = Ok r.
Proof.
  destruct r as [ | | | | | xs | d]; try reflexivity.
  simpl. destruct (eq_str _ "doc"); reflexivity.
Qed.

(** On a doc-typed root whose ['content'] is a list, or missing, the two
    nodes are appended to that list. *)
Lemma append_attachments_doc (copied_attachments : option (list attachment))
    (d : dict) (cs : list value) :
  let m := filename_to_url copied_attachments in
  eq_str (get_default d "type" VNone) "doc" = true ->
  m <> [] ->
  dict_get "content" d = Some (VList cs) \/ (dict_get "content" d = None /\ cs = []) ->
  append_attachments m (VDict d)
  = Ok (VDict (dict_set "content"
                 (VList (cs ++ [attachments_heading; attachments_list m])) d)).
Proof.
  intros m Hdoc Hm Hc. unfold append_attachments. rewrite Hdoc.
  unfold m at 1. rewrite urls_of_mapping. fold m.
  destruct m as [|e rest] eqn:Em; [contradiction|]. rewrite <- Em. clear Em e rest Hm.
  unfold dict_has, get_default.
  destruct Hc as [Hc | [Hc ->]]; rewrite Hc.
  - rewrite Hc. simpl. rewrite dict_get_set_same. simpl.
    rewrite dict_set_set, <- app_assoc. reflexivity.
  - rewrite dict_get_set_same. simpl. rewrite dict_get_set_same. simpl.
    rewrite !dict_set_set. reflexivity.
Qed.

(** ** Media nodes become link paragraphs *)

Lemma transform_media_single (m : dict) (node : dict) (media : value) (rest : list value) :
  get_default node "type" VNone = VStr "mediaSingle" ->
  dict_get "content" node = Some (VList (media :: rest)) ->
  transform m (VDict node) = media_paragraph m media.
Proof.
  intros Hty Hc. rewrite transform_dict_eq. cbv zeta.
  rewrite Hty. unfold get_default. rewrite Hc. reflexivity.
Qed.

Lemma transform_media (m : dict) (node : dict) :
  get_default node "type" VNone = VStr "media" ->
  transform m (VDict node) = media_paragraph m (VDict node).
Proof.
  intros Hty. rewrite transform_dict_eq. cbv zeta. rewrite Hty. reflexivity.
Qed.

Lemma media_paragraph_named (copied_attachments : option (list attachment))
    (media attrs : dict) (f : string) :
  let m := filename_to_url copied_attachments in
  dict_get "attrs" media = Some (VDict attrs)
  \/ (dict_get "attrs" media = None /\ attrs = []) ->
  f <> "" ->
  dict_get "fileName" attrs = Some (VStr f)
  \/ (dict_get "fileName" attrs = None /\ dict_get "name" attrs = Some (VStr f)) ->
  media_paragraph m (VDict media) = Ok (spec_link_paragraph m f).
Proof.
  intros m Hattrs Hf Hname.
  assert (Ha : get_default media "attrs" (VDict []) = VDict attrs).
  { unfold get_default. destruct Hattrs as [-> | [-> ->]]; reflexivity. }
  assert (Ht : truthy (VStr f) = true).
  { simpl. now apply negb_true_iff, String.eqb_neq. }
  assert (Hfn : media_filename (VDict media) = Ok (VStr f)).
  { unfold media_filename. cbn [meth_get bind]. rewrite Ha. cbn [meth_get bind].
    unfold get_default.
    destruct Hname as [-> | [-> ->]]; cbv iota beta;
      [now rewrite Ht | reflexivity]. }
  unfold media_paragraph. rewrite Hfn. cbn [bind url_lookup].
  unfold make_link_paragraph, py_or, spec_link_paragraph, get_default.
  rewrite !Ht.
  destruct (dict_get f m) as [url|] eqn:E; [|reflexivity].
  apply filename_to_url_truthy in E. now rewrite E.
Qed.

Lemma media_paragraph_unnamed (m : dict) (media attrs : dict) :
  dict_get "attrs" media = Some (VDict attrs)
  \/ (dict_get "attrs" media = None /\ attrs = []) ->
  dict_get "fileName" attrs = None ->
  dict_get "name" attrs = None ->
  media_paragraph m (VDict media) = Ok (paragraph [text_node (VStr "image")]).
Proof.
  intros Hattrs Hfn Hn.
  assert (Ha : get_default media "attrs" (VDict []) = VDict attrs).
  { unfold get_default. destruct Hattrs as [-> | [-> ->]]; reflexivity. }
  unfold media_paragraph, media_filename. simpl. rewrite Ha. simpl.
  unfold get_default. rewrite Hfn, Hn. reflexivity.
Qed.

(** C1. A [mediaSingle] node, and likewise a standalone [media] node, is
    rewritten to exactly one paragraph holding one text node.  Its text is
    the filename [f] found under [fileName] (or, failing that, [name]) in
    the attrs of the embedded media reference; the text node carries a link
    mark with href [m[f]] if [f] is a key of the mapping [m], and no mark
    otherwise.  With neither attribute present the text is ["image"] and no
    link mark is attached. *)
Theorem media_node_becomes_link_paragraph
    (copied_attachments : option (list attachment))
    (node media attrs : dict) (rest : list value) :
  let m := filename_to_url copied_attachments in
  (get_default node "type" VNone = VStr "mediaSingle"
   /\ dict_get "content" node = Some (VList (VDict media :: rest)))
  \/ (get_default node "type" VNone = VStr "media" /\ media = node) ->
  dict_get "attrs" media = Some (VDict attrs)
  \/ (dict_get "attrs" media = None /\ attrs = []) ->
  (forall f : string,
      f <> "" ->
      dict_get "fileName" attrs = Some (VStr f)
      \/ (dict_get "fileName" attrs = None /\ dict_get "name" attrs = Some (VStr f)) ->
      _adf_replace_media_with_attachment_links (VDict node) copied_attachments
      = Ok (match dict_get f m with
            | Some url =>
                VDict [("type", VStr "paragraph");
                       ("content",
                        VList [VDict [("type", VStr "text"); ("text", VStr f);
                                      ("marks",
                                       VList [VDict [("type", VStr "link");
                                                     ("attrs", VDict [("href", url)])]])]])]
            | None =>
                VDict [("type", VStr "paragraph");
                       ("content", VList [VDict [("type", VStr "text"); ("text", VStr f)]])]
            end))
  /\ (dict_get "fileName" attrs = None ->
      dict_get "name" attrs = None ->
      _adf_replace_media_with_attachment_links (VDict node) copied_attachments
      = Ok (VDict [("type", VStr "paragraph");
                   ("content", VList [VDict [("type", VStr "text"); ("text", VStr "image")]])])).
Proof.
  intros m Hnode Hattrs. subst m.
  set (m := filename_to_url copied_attachments).
  assert (Ht : transform m (VDict node) = media_paragraph m (VDict media)).
  { destruct Hnode as [[Hty Hc] | [Hty ->]];
      [eapply transform_media_single; eauto | now apply transform_media]. }
  unfold _adf_replace_media_with_attachment_links. cbv zeta. fold m. rewrite Ht. split.
  - intros f Hf Hname.
    pose proof (media_paragraph_named copied_attachments media attrs f Hattrs Hf Hname)
      as Hp.
    cbv zeta in Hp. fold m in Hp. rewrite Hp.
    unfold spec_link_paragraph. simpl. destruct (dict_get f m); reflexivity.
  - intros Hfn Hn. rewrite (media_paragraph_unnamed m media attrs Hattrs Hfn Hn).
    reflexivity.
Qed.

Lemma media_node_becomes_link_paragraph_witness :
  _adf_replace_media_with_attachment_links
    (sample_media_single "a.png")
    (Some [sample_attachment "a.png" "https://x/a.png"])
  = Ok (VDict [("type", VStr "paragraph");
               ("content",
                VList [VDict [("type", VStr "text"); ("text", VStr "a.png");
                              ("marks",
                               VList [VDict [("type", VStr "link");
                                             ("attrs",
                                              VDict [("href", VStr "https://x/a.png")])]])]])]).
Proof.
  apply (proj1 (media_node_becomes_link_paragraph
                  (Some [sample_attachment "a.png" "https://x/a.png"])
                  [("type", VStr "mediaSingle");
                   ("attrs", VDict [("layout", VStr "center")]);
                   ("content", VList [sample_media "a.png"])]
                  [("type", VStr "media");
                   ("attrs", VDict [("id", VStr "0"); ("fileName", VStr "a.png")])]
                  [("id", VStr "0"); ("fileName", VStr "a.png")]
                  []
                  (or_introl (conj eq_refl eq_refl))
                  (or_introl eq_refl))
           "a.png").
  - discriminate.
  - left. reflexivity.
Defined.

(** ** The attachments trailer *)

Lemma eq_str_true (v : value) (s : string) :
  eq_str v s = true <-> v = VStr s.
Proof.
  destruct v; simpl; try (split; [discriminate | intros [=]]).
  rewrite String.eqb_eq. split; [now intros -> | now intros [= ->]].
Qed.

(** The type tag of a dict that goes through the item loop is kept. *)
Lemma transform_each_item_type (m : dict) (items out : dict) (s : string) :
  transform_each_item m items = Ok out ->
  eq_str (get_default out "type" VNone) s = eq_str (get_default items "type" VNone) s.
Proof.
  intros Hout.
  pose proof (transform_each_item_get m items out "type" Hout) as Hty.
  unfold get_default. destruct (dict_get "type" items) as [ty|].
  - destruct Hty as [ty' [-> Hty']]. unfold transform_item in Hty'. simpl in Hty'.
    apply transform_kind in Hty'.
    destruct ty'; subst; try reflexivity; destruct ty; try discriminate; reflexivity.
  - now rewrite Hty.
Qed.

(** After the rewrite, a doc-typed root of a tree with [root_ok] has a
    list under ['content'], or no such key. *)
Lemma rewritten_doc_content (m : dict) (t : value) (d : dict) :
  wf_value t = true -> root_ok t = true ->
  transform m t = Ok (VDict d) ->
  eq_str (get_default d "type" VNone) "doc" = true ->
  exists cs,
    dict_get "content" d = Some (VList cs)
    \/ (dict_get "content" d = None /\ cs = []).
Proof.
  intros Hwf Hroot Ht Hdoc.
  pose proof (transform_kind _ _ _ Ht) as Hk. simpl in Hk.
  destruct t as [ | | | | | xs | items]; try discriminate. clear Hk.
  destruct (in_media_family (get_default items "type" VNone)) eqn:Hfam.
  - destruct (transform_media_family _ _ _ Hfam Ht)
      as [[media Hm] | [Hr | (ms & p & ps & Hps & Hr)]].
    + apply media_paragraph_shape in Hm as (text & url & _ & _ & Hr).
      destruct (negb (truthy url)); injection Hr as ->; discriminate.
    + injection Hr as ->. discriminate.
    + injection Hr as ->. exists (p :: ps). now left.
  - simpl in Hwf. apply andb_true_iff in Hwf as [Hu _]. apply unique_keys_NoDup in Hu.
    rewrite transform_generic, transform_items_unique in Ht by assumption.
    apply bind_Ok in Ht as [out [Hout [= <-]]]. simpl in *.
    rewrite (transform_each_item_type m items out "doc" Hout) in Hdoc.
    rewrite Hdoc in Hroot.
    pose proof (transform_each_item_get m items out "content" Hout) as Hc.
    destruct (dict_get "content" items) as [c|].
    + destruct c as [ | | | | | cs | ]; try discriminate.
      destruct Hc as [c' [Hc' Hitem]]. unfold transform_item in Hitem. simpl in Hitem.
      apply bind_Ok in Hitem as [cs' [_ [= <-]]]. exists cs'. now left.
    + exists []. now right.
Qed.

(** The rewrite and the post-pass both return on a well-shaped tree whose
    root passes [root_ok]. *)
Lemma rewrite_and_post_pass_return
    (t : value) (copied_attachments : option (list attachment)) :
  wf_value t = true -> well_shaped t = true -> root_ok t = true ->
  exists r, _adf_replace_media_with_attachment_links t copied_attachments = Ok r.
Proof.
  intros Hwf Hshape Hroot.
  set (m := filename_to_url copied_attachments).
  destruct (proj1 (transform_returns_iff m t Hwf) Hshape) as [r Hr].
  unfold _adf_replace_media_with_attachment_links. cbv zeta. fold m. rewrite Hr.
  cbn [bind].
  destruct (is_doc r) eqn:Hdoc.
  - destruct m as [|e rest] eqn:Em.
    + rewrite append_attachments_empty. eauto.
    + destruct r as [ | | | | | xs | d]; try discriminate. simpl in Hdoc.
      destruct (rewritten_doc_content _ t d Hwf Hroot Hr Hdoc) as [cs Hcs].
      rewrite <- Em. unfold m.
      rewrite (append_attachments_doc copied_attachments d cs Hdoc); eauto.
      fold m. rewrite Em. discriminate.
  - rewrite append_attachments_other by assumption. eauto.
Qed.

(** C2. When the rewritten root is doc-typed and the mapping has at least
    one entry, the output is the rewritten root with exactly two nodes
    appended to its content: a paragraph with the single text node
    ["Attachments:"], then a [bulletList] with one [listItem] per mapping
    entry, whose text is the filename and carries a link mark to its URL.
    With an empty mapping nothing is appended, whatever the document held. *)
Theorem attachments_trailer_on_doc_root
    (adf_doc : value) (copied_attachments : option (list attachment)) :
  let m := filename_to_url copied_attachments in
  wf_value adf_doc = true -> well_shaped adf_doc = true -> root_ok adf_doc = true ->
  exists transformed,
    transform m adf_doc = Ok transformed
    /\ (m = [] ->
        _adf_replace_media_with_attachment_links adf_doc copied_attachments
        = Ok transformed)
    /\ (is_doc transformed = true -> m <> [] ->
        exists d cs,
          transformed = VDict d
          /\ (dict_get "content" d = Some (VList cs)
              \/ (dict_get "content" d = None /\ cs = []))
          /\ _adf_replace_media_with_attachment_links adf_doc copied_attachments
             = Ok (VDict
                     (dict_set "content"
                        (VList
                           (cs ++
                            [VDict [("type", VStr "paragraph");
                                    ("content",
                                     VList [VDict [("type", VStr "text");
                                                   ("text", VStr "Attachments:")]])];
                             VDict [("type", VStr "bulletList");
                                    ("content",
                                     VList
                                       (map (fun entry =>
                                               VDict [("type", VStr "listItem");
                                                      ("content",
                                                       VList [VDict [("type", VStr "paragraph");
                                                                     ("content",
                                                                      VList [VDict [("type", VStr "text");
                                                                                    ("text", VStr (fst entry));
                                                                                    ("marks",
                                                                                     VList [VDict [("type", VStr "link");
                                                                                                   ("attrs", VDict [("href", snd entry)])]])]])]])])
                                          m))]]))
                        d))).
Proof.
  intros m Hwf Hshape Hroot.
  destruct (proj1 (transform_returns_iff m adf_doc Hwf) Hshape) as [r Hr].
  exists r. split; [assumption|].
  unfold _adf_replace_media_with_attachment_links. cbv zeta. fold m. rewrite Hr.
  cbn [bind]. split.
  - intros ->. apply append_attachments_empty.
  - intros Hdoc Hm. destruct r as [ | | | | | xs | d]; try discriminate.
    simpl in Hdoc.
    destruct (rewritten_doc_content m adf_doc d Hwf Hroot Hr Hdoc) as [cs Hcs].
    exists d, cs. repeat split; [assumption|].
    exact (append_attachments_doc copied_attachments d cs Hdoc Hm Hcs).
Qed.

Lemma attachments_trailer_on_doc_root_witness :
  wf_value sample_page = true /\ well_shaped sample_page = true
  /\ root_ok sample_page = true
  /\ exists transformed,
       transform (filename_to_url sample_copied) sample_page = Ok transformed
       /\ (filename_to_url sample_copied = [] ->
           _adf_replace_media_with_attachment_links sample_page sample_copied
           = Ok transformed)
       /\ (is_doc transformed = true -> filename_to_url sample_copied <> [] ->
           exists d cs,
             transformed = VDict d
             /\ (dict_get "content" d = Some (VList cs)
                 \/ (dict_get "content" d = None /\ cs = []))
             /\ _adf_replace_media_with_attachment_links sample_page sample_copied
                = Ok (VDict
                        (dict_set "content"
                           (VList (cs ++ [attachments_heading;
                                          attachments_list (filename_to_url sample_copied)]))
                           d))).
Proof.
  repeat (split; [reflexivity|]).
  exact (attachments_trailer_on_doc_root sample_page sample_copied
           eq_refl eq_refl eq_refl).
Defined.

(** The three sentences of C2 at the sample page: the image becomes a
    plain paragraph, and the trailer lists the one copied file. *)
Example attachments_trailer_sample :
  _adf_replace_media_with_attachment_links sample_page sample_copied
  = Ok (sample_doc
          [paragraph [text_node (VStr "Hello")];
           paragraph [text_node (VStr "a.png")];
           paragraph [text_node (VStr "Attachments:")];
           VDict [("type", VStr "bulletList");
                  ("content",
                   VList [VDict [("type", VStr "listItem");
                                 ("content",
                                  VList [paragraph
                                           [linked_text_node (VStr "c.png")
                                              (VStr "https://x/c.png")]])]])]]).
Proof. reflexivity. Qed.

(** ** Running the rewrite twice *)

Lemma append_attachments_is_doc (m : dict) (r r' : value) :
  append_attachments m r = Ok r' -> is_doc r' = is_doc r.
Proof.
  destruct r as [ | | | | | xs | d]; try (intros [= <-]; reflexivity).
  unfold append_attachments.
  destruct (eq_str (get_default d "type" VNone) "doc") eqn:Hdoc;
    [|intros [= <-]; reflexivity].
  destruct (truthy _); [|intros [= <-]; reflexivity].
  intros H. apply bind_Ok in H as [c1 [_ H]]. apply bind_Ok in H as [c2 [_ [= <-]]].
  simpl. unfold get_default in *.
  rewrite !dict_get_set_other by discriminate.
  destruct (dict_has "content" d); [reflexivity|].
  rewrite dict_get_set_other by discriminate. reflexivity.
Qed.

(** The trailer is made of settled nodes. *)
Lemma attachment_item_settled (name : string) (url : value) :
  scalar url = true ->
  settled (attachment_item name url) = true /\ is_splice (attachment_item name url) = false.
Proof.
  intros Hurl. split; [|reflexivity].
  apply settled_dict_intro.
  - repeat constructor; simpl; intuition discriminate.
  - reflexivity.
  - constructor; [|constructor; [|constructor]]; simpl; split.
    + reflexivity.
    + discriminate.
    + apply settled_list. constructor; [|constructor].
      now apply settled_linked_paragraph.
    + intros _ cs [= <-]. constructor; [|constructor]. apply paragraph_not_splice.
Qed.

Lemma attachments_list_settled (m : dict) :
  scalar_urls m = true -> settled (attachments_list m) = true.
Proof.
  intros Hm. unfold scalar_urls in Hm. rewrite forallb_forall in Hm.
  apply settled_dict_intro.
  - repeat constructor; simpl; intuition discriminate.
  - reflexivity.
  - constructor; [|constructor; [|constructor]]; simpl; split.
    + reflexivity.
    + discriminate.
    + apply settled_list. apply Forall_map, Forall_forall.
      intros entry Hin. now apply attachment_item_settled, Hm.
    + intros _ cs [= <-]. apply Forall_map, Forall_forall.
      intros entry Hin. now apply attachment_item_settled, Hm.
Qed.

(** A settled doc-typed root with the trailer appended is settled. *)
Lemma trailer_settled (m : dict) (d : dict) (cs : list value) :
  scalar_urls m = true ->
  settled (VDict d) = true ->
  eq_str (get_default d "type" VNone) "doc" = true ->
  dict_get "content" d = Some (VList cs) \/ (dict_get "content" d = None /\ cs = []) ->
  settled (VDict (dict_set "content"
                    (VList (cs ++ [attachments_heading; attachments_list m])) d)) = true.
Proof.
  intros Hm Hset Hdoc Hc.
  pose proof (settled_dict_items d Hset) as Hitems.
  pose proof (proj1 (settled_parts _) Hset) as (Hwf & _ & _).
  simpl in Hwf. apply andb_prop in Hwf as [Huniq _]. apply unique_keys_NoDup in Huniq.
  assert (Hcs : Forall (fun c => settled c = true /\ is_splice c = false) cs).
  { destruct Hc as [Hc | [_ ->]]; [|constructor].
    apply dict_get_In in Hc. rewrite Forall_forall in Hitems.
    destruct (Hitems _ Hc) as [Hs Hsp]. simpl in Hs, Hsp.
    apply settled_list in Hs. specialize (Hsp eq_refl cs eq_refl).
    rewrite Forall_forall in *. intros c Hin. split; [now apply Hs | now apply Hsp]. }
  assert (Hnew : Forall (fun c => settled c = true /\ is_splice c = false)
                   (cs ++ [attachments_heading; attachments_list m])).
  { apply Forall_app. split; [assumption|].
    constructor; [split; [now apply settled_text_paragraph | apply paragraph_not_splice]|].
    constructor; [|constructor].
    split; [now apply attachments_list_settled | reflexivity]. }
  apply settled_dict_intro.
  - now apply dict_set_unique.
  - unfold get_default in *. rewrite dict_get_set_other by discriminate.
    destruct (dict_get "type" d) as [[ | | | | s | | ]|]; try discriminate.
    simpl in Hdoc. apply String.eqb_eq in Hdoc. now subst s.
  - apply dict_set_Forall; [|assumption]. simpl. split.
    + apply settled_list. eapply Forall_impl; [|exact Hnew]. now intros c [H _].
    + intros _ cs' [= <-]. eapply Forall_impl; [|exact Hnew]. now intros c [_ H].
Qed.

(** On a doc-typed output and a mapping with an entry, the second pass
    appends the trailer once more. *)
Lemma second_pass_on_doc
    (t r : value) (copied_attachments : option (list attachment)) :
  wf_value t = true ->
  scalar_urls (filename_to_url copied_attachments) = true ->
  _adf_replace_media_with_attachment_links t copied_attachments = Ok r ->
  filename_to_url copied_attachments <> [] -> is_doc r = true ->
  exists d cs,
    r = VDict d /\ dict_get "content" d = Some (VList cs)
    /\ _adf_replace_media_with_attachment_links r copied_attachments
       = Ok (VDict (dict_set "content"
                      (VList (cs ++ [attachments_heading;
                                     attachments_list (filename_to_url copied_attachments)]))
                      d)).
Proof.
  unfold _adf_replace_media_with_attachment_links. cbv zeta.
  intros Hwf Hurls H Hm Hdoc.
  apply bind_Ok in H as [r0 [Hr0 Happ]].
  pose proof (transform_output_settled _ Hurls t r0 Hwf Hr0) as Hset.
  rewrite (append_attachments_is_doc _ _ _ Happ) in Hdoc.
  destruct r0 as [ | | | | | xs | d0]; try discriminate. simpl in Hdoc.
  assert (Hc : exists cs, dict_get "content" d0 = Some (VList cs)
                          \/ (dict_get "content" d0 = None /\ cs = [])).
  { destruct (dict_get "content" d0) as [c|] eqn:Hget; [|exists []; now right].
    destruct c as [ | | | | | cs | ]; try (exists cs; now left); exfalso;
      unfold append_attachments in Happ; rewrite Hdoc, urls_of_mapping in Happ;
      destruct (filename_to_url copied_attachments); try contradiction;
      unfold dict_has, get_default in Happ; rewrite Hget in Happ;
      rewrite Hget in Happ; discriminate. }
  destruct Hc as [cs Hc].
  rewrite (append_attachments_doc copied_attachments d0 cs Hdoc Hm Hc) in Happ.
  injection Happ as <-.
  set (m := filename_to_url copied_attachments) in *.
  set (cs1 := (cs ++ [attachments_heading; attachments_list m])%list).
  exists (dict_set "content" (VList cs1) d0), cs1.
  split; [reflexivity|]. split; [apply dict_get_set_same|]. unfold cs1.
  rewrite (transform_settled m _ (trailer_settled m d0 cs Hurls Hset Hdoc Hc)).
  cbn [bind]. apply (append_attachments_doc copied_attachments).
  - unfold get_default in *. now rewrite dict_get_set_other by discriminate.
  - exact Hm.
  - left. apply dict_get_set_same.
Qed.

(** C3, amended.  On a tree of Python values and a mapping whose URLs are
    scalars, a second pass over the output of the first changes nothing
    if, and only if, the mapping is empty or the first output is not
    doc-typed.  (On a doc-typed output with a non-empty mapping the second
    pass appends the attachments trailer once more.) *)
Theorem second_pass_changes_nothing
    (t r : value) (copied_attachments : option (list attachment)) :
  wf_value t = true ->
  scalar_urls (filename_to_url copied_attachments) = true ->
  _adf_replace_media_with_attachment_links t copied_attachments = Ok r ->
  (_adf_replace_media_with_attachment_links r copied_attachments = Ok r
   <-> filename_to_url copied_attachments = [] \/ is_doc r = false).
Proof.
  intros Hwf Hurls H. split.
  - intros Hsecond.
    assert (Hcases : filename_to_url copied_attachments = []
                     \/ filename_to_url copied_attachments <> []).
    { destruct (filename_to_url copied_attachments); [now left | right; discriminate]. }
    destruct Hcases as [Hm | Hm]; [now left|].
    right. destruct (is_doc r) eqn:Hdoc; [exfalso | reflexivity].
    destruct (second_pass_on_doc t r copied_attachments Hwf Hurls H Hm Hdoc)
      as (d & cs & -> & Hc & H2).
    rewrite H2 in Hsecond. injection Hsecond as Hd.
    apply (f_equal (dict_get "content")) in Hd.
    rewrite dict_get_set_same, Hc in Hd. injection Hd as Hd.
    apply (f_equal (@List.length value)) in Hd. rewrite length_app in Hd. simpl in Hd. lia.
  - revert H. unfold _adf_replace_media_with_attachment_links. cbv zeta.
    set (m := filename_to_url copied_attachments) in *.
    intros H Hcase.
    apply bind_Ok in H as [r0 [Hr0 Happ]].
    pose proof (transform_output_settled m Hurls t r0 Hwf Hr0) as Hset.
    assert (Heq : r = r0).
    { destruct Hcase as [Hm | Hnd].
      - rewrite Hm, append_attachments_empty in Happ. now injection Happ.
      - rewrite (append_attachments_is_doc _ _ _ Happ) in Hnd.
        rewrite append_attachments_other in Happ by assumption. now injection Happ. }
    subst r0. rewrite (transform_settled m r Hset). exact Happ.
Qed.

Lemma second_pass_changes_nothing_witness :
  wf_value sample_page = true
  /\ scalar_urls (filename_to_url None) = true
  /\ _adf_replace_media_with_attachment_links sample_page None
     = Ok (sample_doc [paragraph [text_node (VStr "Hello")];
                       paragraph [text_node (VStr "a.png")]])
  /\ (_adf_replace_media_with_attachment_links
        (sample_doc [paragraph [text_node (VStr "Hello")];
                     paragraph [text_node (VStr "a.png")]]) None
      = Ok (sample_doc [paragraph [text_node (VStr "Hello")];
                        paragraph [text_node (VStr "a.png")]])
      <-> filename_to_url None = []
          \/ is_doc (sample_doc [paragraph [text_node (VStr "Hello")];
                                 paragraph [text_node (VStr "a.png")]]) = false).
Proof.
  repeat (split; [reflexivity|]).
  exact (second_pass_changes_nothing sample_page _ None eq_refl eq_refl eq_refl).
Defined.

(** C3 as stated fails: on a doc-typed root and a mapping with one entry,
    the second pass appends the trailer again. *)
Lemma second_pass_appends_again :
  (r <- _adf_replace_media_with_attachment_links sample_plain_page sample_copied ;;
   _adf_replace_media_with_attachment_links r sample_copied)
  <> _adf_replace_media_with_attachment_links sample_plain_page sample_copied.
Proof. vm_compute. discriminate. Qed.

(** ** Documents without media nodes *)

(** On a doc-typed root and a mapping with an entry, the post-pass does
    not return its argument as it was. *)
Lemma append_attachments_changes
    (copied_attachments : option (list attachment)) (r : value) :
  filename_to_url copied_attachments <> [] -> is_doc r = true ->
  append_attachments (filename_to_url copied_attachments) r <> Ok r.
Proof.
  intros Hm Hdoc. destruct r as [ | | | | | xs | d]; try discriminate. simpl in Hdoc.
  destruct (dict_get "content" d) as [c|] eqn:Hget.
  - destruct c as [ | | | | | cs | ];
      try (unfold append_attachments; rewrite Hdoc, urls_of_mapping;
           destruct (filename_to_url copied_attachments); try contradiction;
           unfold dict_has, get_default; rewrite Hget; rewrite Hget; discriminate).
    rewrite (append_attachments_doc copied_attachments d cs Hdoc Hm (or_introl Hget)).
    intros [= Hd]. apply (f_equal (dict_get "content")) in Hd.
    rewrite dict_get_set_same, Hget in Hd. injection Hd as Hd.
    apply (f_equal (@List.length value)) in Hd. rewrite length_app in Hd. simpl in Hd. lia.
  - rewrite (append_attachments_doc copied_attachments d [] Hdoc Hm
               (or_intror (conj Hget eq_refl))).
    intros [= Hd]. apply (f_equal (dict_get "content")) in Hd.
    rewrite dict_get_set_same, Hget in Hd. discriminate.
Qed.

(** C4, amended.  A tree of Python values with no media-family node, and
    with no doc-typed dict as an element of a content list, comes back
    equal to the input (same keys in the same order, same content) if,
    and only if, the mapping is empty or the root is not doc-typed. *)
Theorem media_free_document_unchanged
    (t : value) (copied_attachments : option (list attachment)) :
  wf_value t = true -> media_free t = true -> splice_free t = true ->
  (_adf_replace_media_with_attachment_links t copied_attachments = Ok t
   <-> filename_to_url copied_attachments = [] \/ is_doc t = false).
Proof.
  intros Hwf Hmf Hsf.
  unfold _adf_replace_media_with_attachment_links. cbv zeta.
  rewrite transform_settled by (apply settled_parts; auto).
  cbn [bind]. split.
  - intros H.
    assert (Hcases : filename_to_url copied_attachments = []
                     \/ filename_to_url copied_attachments <> []).
    { destruct (filename_to_url copied_attachments); [now left | right; discriminate]. }
    destruct Hcases as [Hm | Hm]; [now left|].
    right. destruct (is_doc t) eqn:Hdoc; [exfalso | reflexivity].
    exact (append_attachments_changes copied_attachments t Hm Hdoc H).
  - intros [-> | Hnd].
    + apply append_attachments_empty.
    + now apply append_attachments_other.
Qed.

Lemma media_free_document_unchanged_witness :
  wf_value sample_plain_page = true /\ media_free sample_plain_page = true
  /\ splice_free sample_plain_page = true
  /\ (_adf_replace_media_with_attachment_links sample_plain_page (Some [])
      = Ok sample_plain_page
      <-> filename_to_url (Some []) = [] \/ is_doc sample_plain_page = false).
Proof.
  repeat (split; [reflexivity|]).
  exact (media_free_document_unchanged sample_plain_page (Some [])
           eq_refl eq_refl eq_refl).
Defined.

(** C4 as stated fails: a doc-typed root without media nodes still gets
    the attachments trailer when the mapping has an entry. *)
Lemma media_free_document_gets_trailer :
  media_free sample_plain_page = true
  /\ _adf_replace_media_with_attachment_links sample_plain_page sample_copied
     <> Ok sample_plain_page.
Proof. split; [reflexivity | vm_compute; discriminate]. Qed.

(** A doc-typed dict inside a content list is merged into its parent even
    though no media node is involved. *)
Example nested_doc_is_merged :
  _adf_replace_media_with_attachment_links
    (sample_doc [sample_doc [text_node (VStr "x")]]) None
  = Ok (sample_doc [text_node (VStr "x")]).
Proof. reflexivity. Qed.

(** ** Totality *)

(** C5 as stated fails: on a [mediaSingle] whose content is a list of
    strings, [media.get] raises [AttributeError]. *)
Lemma rewrite_raises_on_malformed_media :
  _adf_replace_media_with_attachment_links sample_malformed None
  = Raise AttributeError.
Proof. reflexivity. Qed.

(** Other malformed shapes and what they raise. *)
Example rewrite_raises_on_null_attrs :
  _adf_replace_media_with_attachment_links
    (VDict [("type", VStr "media"); ("attrs", VNone)]) None
  = Raise AttributeError.
Proof. reflexivity. Qed.

Example rewrite_raises_on_dict_content :
  _adf_replace_media_with_attachment_links
    (VDict [("type", VStr "mediaSingle"); ("content", VDict [("type", VStr "media")])]) None
  = Raise KeyError.
Proof. reflexivity. Qed.

Example rewrite_raises_on_list_filename :
  _adf_replace_media_with_attachment_links
    (VDict [("type", VStr "media"); ("attrs", VDict [("fileName", VList [VStr "a.png"])])]) None
  = Raise TypeError.
Proof. reflexivity. Qed.

Example post_pass_raises_on_null_content :
  _adf_replace_media_with_attachment_links
    (VDict [("type", VStr "doc"); ("content", VNone)]) sample_copied
  = Raise AttributeError.
Proof. reflexivity. Qed.

(** ** Plain text *)

(** C6. The extractor returns the concatenation, in document order and
    with nothing in between, of the [text] values of the text-typed nodes
    outside media-family subtrees; cutting every media-family subtree down
    to its type tag leaves the result unchanged (where the text values are
    scalars, as display strings are), and a media-family node yields the
    empty string whatever it holds. *)
Theorem extract_joins_visible_texts (node : value) :
  _extract_text_from_adf node = join_empty (map py_str (visible_texts node))
  /\ (plain_texts node = true ->
      _extract_text_from_adf (prune_media node) = _extract_text_from_adf node)
  /\ (forall items,
         node = VDict items ->
         in_media_family (get_default items "type" VNone) = true ->
         _extract_text_from_adf node = "").
Proof.
  split; [apply extract_visible_texts | split].
  - apply extract_prune_media.
  - intros items -> Hfam. simpl. now rewrite Hfam.
Qed.

Lemma extract_joins_visible_texts_witness :
  plain_texts (sample_doc [paragraph [text_node (VStr "Hello "); text_node (VStr "world")];
                           sample_media "secret.png"]) = true
  /\ _extract_text_from_adf
       (prune_media
          (sample_doc [paragraph [text_node (VStr "Hello "); text_node (VStr "world")];
                       sample_media "secret.png"]))
     = _extract_text_from_adf
         (sample_doc [paragraph [text_node (VStr "Hello "); text_node (VStr "world")];
                      sample_media "secret.png"]).
Proof.
  split; [reflexivity|].
  exact (proj1 (proj2 (extract_joins_visible_texts
                         (sample_doc [paragraph [text_node (VStr "Hello ");
                                                 text_node (VStr "world")];
                                      sample_media "secret.png"])))
           eq_refl).
Defined.

(** The example of the specification. *)
Example extract_hello_world :
  _extract_text_from_adf
    (sample_doc [paragraph [text_node (VStr "Hello "); text_node (VStr "world")];
                 sample_media "secret.png"])
  = "Hello world".
Proof. reflexivity. Qed.

(** ** Empty input *)

(** C9. On [None], and on the empty dict or list, the extractor returns
    the empty string and the rewriter returns its input, which holds no
    node, whatever the mapping; a doc with no content stays as it is under
    an empty mapping. *)
Theorem empty_input_gives_empty_output (copied_attachments : option (list attachment)) :
  _extract_text_from_adf VNone = ""
  /\ _extract_text_from_adf (VDict []) = ""
  /\ _extract_text_from_adf (VList []) = ""
  /\ _adf_replace_media_with_attachment_links VNone copied_attachments = Ok VNone
  /\ _adf_replace_media_with_attachment_links (VDict []) copied_attachments = Ok (VDict [])
  /\ _adf_replace_media_with_attachment_links (VList []) copied_attachments = Ok (VList [])
  /\ _adf_replace_media_with_attachment_links (sample_doc []) None = Ok (sample_doc [])
  /\ _extract_text_from_adf (sample_doc []) = "".
Proof. repeat split. Qed.

(** ** The driver's call *)

(** C10. The call the driver makes passes the keyword [parent_key], which
    [clone_issue_with_media_upload] does not declare: binding the
    arguments raises [TypeError], so the body never starts and the tracker
    is left as it was, whatever the argument values. *)
Theorem driver_clone_call_raises_type_error
    (world : Type)
    (get_issue : value -> world -> world * value)
    (create_issue : dict -> world -> world * value)
    (copy_attachments : value -> value -> world -> world * option (list attachment))
    (put_description : value -> value -> world -> world)
    (org_key clone_project_key summary issue_type due_date
     clone_label clone_models parent_key : value)
    (w : world) :
  call_clone_issue_with_media_upload world get_issue create_issue copy_attachments
    put_description
    (driver_kwargs org_key clone_project_key summary issue_type due_date
       clone_label clone_models parent_key) w
  = (w, Raise TypeError).
Proof. reflexivity. Qed.

(** Without [parent_key] the same keywords bind, with [link_type] at its
    default. *)
Example driver_kwargs_without_parent_key_bind
    (org_key clone_project_key summary issue_type due_date clone_label clone_models : value) :
  bind_arguments clone_issue_with_media_upload_params
    [ ("source_issue_key", org_key); ("project_key", clone_project_key);
      ("summary", summary); ("issue_type", issue_type); ("due_date", due_date);
      ("labels", clone_label); ("models", clone_models) ]
  = Ok [ ("source_issue_key", org_key); ("project_key", clone_project_key);
         ("summary", summary); ("issue_type", issue_type); ("due_date", due_date);
         ("labels", clone_label); ("link_type", VStr "Relates");
         ("models", clone_models) ].
Proof. reflexivity. Qed.

(** ** Media groups *)

Lemma media_paragraph_not_doc (m : dict) (media p : value) :
  media_paragraph m media = Ok p -> is_doc p = false.
Proof.
  intros H. apply media_paragraph_shape in H as (text & url & _ & _ & ->).
  destruct (negb (truthy url)); reflexivity.
Qed.

(** The group node by itself: one paragraph per media reference, wrapped
    in a doc-typed dict unless there is none. *)
Lemma transform_media_group (m : dict) (g : dict) (medias : list value) :
  get_default g "type" VNone = VStr "mediaGroup" ->
  get_default g "content" (VList []) = VList medias ->
  forallb media_ok medias = true ->
  exists ps,
    Forall2 (fun media p => media_paragraph m media = Ok p) medias ps
    /\ transform m (VDict g)
       = Ok (match ps with [] => empty_paragraph | _ => doc_wrapper ps end).
Proof.
  intros Hty Hc Hok. apply (media_ok_paragraphs m) in Hok as [ps Hps].
  exists ps. split; [now apply media_paragraphs_Forall2|].
  rewrite transform_dict_eq. cbv zeta. rewrite Hty, Hc.
  assert (Hor : py_or (VList medias) (VList []) = VList medias).
  { unfold py_or. destruct medias; reflexivity. }
  cbn [eq_str String.eqb Ascii.eqb Bool.eqb andb]. rewrite Hor.
  cbn [iterate bind]. rewrite Hps. reflexivity.
Qed.

(** C7. A [mediaGroup] among the children of a parent's content: with no
    item it is replaced by one paragraph holding an empty text; with [k]
    items it yields [k] paragraphs, each the one a [mediaSingle] around the
    item is rewritten to, and these stand in the parent's content at the
    place of the group, none of them doc-typed. *)
Theorem media_group_spliced_into_parent
    (m : dict) (parent g : dict) (before after medias : list value) :
  unique_keys (map fst parent) = true ->
  in_media_family (get_default parent "type" VNone) = false ->
  dict_get "content" parent = Some (VList (before ++ VDict g :: after)) ->
  get_default g "type" VNone = VStr "mediaGroup" ->
  get_default g "content" (VList []) = VList medias ->
  forallb media_ok medias = true ->
  exists ps,
    (medias = [] ->
     ps = [VDict [("type", VStr "paragraph");
                  ("content", VList [VDict [("type", VStr "text"); ("text", VStr "")]])]])
    /\ (medias <> [] ->
        Forall2 (fun media p =>
                   transform m (VDict [("type", VStr "mediaSingle");
                                       ("content", VList [media])]) = Ok p)
          medias ps)
    /\ Forall (fun p => is_doc p = false) ps
    /\ (forall acc,
           transform_children m (before ++ VDict g :: after) acc
           = bs <- transform_children m before acc ;;
             transform_children m after (bs ++ ps))
    /\ (forall out,
           transform m (VDict parent) = Ok out ->
           exists bs rest d,
             transform_children m before [] = Ok bs
             /\ transform_children m after [] = Ok rest
             /\ out = VDict d
             /\ dict_get "content" d = Some (VList (bs ++ ps ++ rest))).
Proof.
  intros Hu Hfam Hcontent Hty Hc Hok.
  destruct (transform_media_group m g medias Hty Hc Hok) as [ps0 [Hps Hg]].
  set (tg := match ps0 with [] => empty_paragraph | _ => doc_wrapper ps0 end) in *.
  exists (merged tg).
  assert (Hloop : forall acc,
             transform_children m (before ++ VDict g :: after) acc
             = bs <- transform_children m before acc ;;
               transform_children m after (bs ++ merged tg)).
  { intros acc. rewrite transform_children_app.
    destruct (transform_children m before acc) as [bs|e]; [|reflexivity].
    cbn [bind transform_children]. rewrite Hg. cbn [bind].
    now rewrite merge_child_app. }
  split; [|split; [|split; [|split]]].
  - intros ->. inversion Hps; subst. reflexivity.
  - intros Hne. destruct Hps as [|media p medias ps0 Hp Hps]; [contradiction|].
    subst tg. unfold merged. simpl.
    constructor.
    + erewrite transform_media_single; [exact Hp | reflexivity | reflexivity].
    + clear -Hps. induction Hps as [|media' p' medias ps0 Hp' _ IH]; constructor;
        [|exact IH].
      erewrite transform_media_single; [exact Hp' | reflexivity | reflexivity].
  - destruct Hps as [|media p medias ps0 Hp Hps].
    + repeat constructor.
    + subst tg. unfold merged. simpl.
      constructor; [eapply media_paragraph_not_doc; eauto|].
      clear -Hps. induction Hps; constructor; eauto using media_paragraph_not_doc.
  - exact Hloop.
  - intros out Hout. apply unique_keys_NoDup in Hu.
    rewrite transform_generic, transform_items_unique in Hout by assumption.
    apply bind_Ok in Hout as [d [Hd [= <-]]].
    pose proof (transform_each_item_get m parent d "content" Hd) as Hget.
    rewrite Hcontent in Hget. destruct Hget as [v' [Hv' Hitem]].
    unfold transform_item in Hitem. simpl in Hitem.
    apply bind_Ok in Hitem as [cs [Hcs [= <-]]].
    rewrite Hloop in Hcs. apply bind_Ok in Hcs as [bs [Hbs Hrest]].
    rewrite transform_children_acc in Hrest.
    apply bind_Ok in Hrest as [rest [Hrest [= <-]]].
    exists bs, rest, d. repeat split; try assumption.
    rewrite Hv'. now rewrite <- app_assoc.
Qed.

Lemma media_group_spliced_into_parent_witness :
  exists ps,
    ps = [paragraph [text_node (VStr "a.png")]; paragraph [text_node (VStr "b.png")]]
    /\ transform [] (sample_doc [paragraph [text_node (VStr "Hello")];
                                 sample_media_group ["a.png"; "b.png"];
                                 paragraph [text_node (VStr "Bye")]])
       = Ok (sample_doc ([paragraph [text_node (VStr "Hello")]] ++ ps
                         ++ [paragraph [text_node (VStr "Bye")]])).
Proof.
  destruct (media_group_spliced_into_parent []
              [("type", VStr "doc"); ("version", VInt 1);
               ("content", VList ([paragraph [text_node (VStr "Hello")]]
                                  ++ sample_media_group ["a.png"; "b.png"]
                                  :: [paragraph [text_node (VStr "Bye")]]))]
              [("type", VStr "mediaGroup");
               ("content", VList (map sample_media ["a.png"; "b.png"]))]
              [paragraph [text_node (VStr "Hello")]]
              [paragraph [text_node (VStr "Bye")]]
              (map sample_media ["a.png"; "b.png"])
              eq_refl eq_refl eq_refl eq_refl eq_refl eq_refl)
    as [ps [_ [Hps _]]].
  exists ps.
  assert (Hne : map sample_media ["a.png"; "b.png"] <> []) by discriminate.
  specialize (Hps Hne).
  inversion Hps as [|? p1 ? ps1 H1 Hps1]; subst.
  inversion Hps1 as [|? p2 ? ps2 H2 Hps2]; subst.
  inversion Hps2; subst.
  injection H1 as <-. injection H2 as <-.
  split; reflexivity.
Defined.

(** ** Trees in the store *)

Lemma repr_list (lo hi : nat) (h : store) (vs : list value) (x : ref) :
  repr lo hi h (VList vs) x <->
  exists l xs,
    x = RObj l /\ lo <= l < hi /\ nth_error h l = Some (OList xs)
    /\ Forall2 (repr lo hi h) vs xs.
Proof.
  simpl. split; intros (l & xs & Hx & Hl & Hn & Hall); exists l, xs;
    repeat split; try tauto; clear Hn Hx.
  - revert xs Hall. induction vs as [|v vs IH]; intros [|y ys] Hall;
      try contradiction; constructor; [apply Hall | apply IH, Hall].
  - induction Hall; [exact I | split; assumption].
Qed.

Lemma repr_dict (lo hi : nat) (h : store) (items : dict) (x : ref) :
  repr lo hi h (VDict items) x <->
  exists l xs,
    x = RObj l /\ lo <= l < hi /\ nth_error h l = Some (ODict xs)
    /\ Forall2 (fun kv kx => fst kx = fst kv /\ repr lo hi h (snd kv) (snd kx)) items xs.
Proof.
  simpl. split; intros (l & xs & Hx & Hl & Hn & Hall); exists l, xs;
    repeat split; try tauto; clear Hn Hx.
  - revert xs Hall. induction items as [|v vs IH]; intros [|y ys] Hall;
      try contradiction; constructor; [split; apply Hall | apply IH, Hall].
  - induction Hall as [|? ? ? ? [? ?] ? ?]; [exact I | repeat split; assumption].
Qed.

Lemma repr_scalar (lo hi : nat) (h : store) (v : value) (x : ref) :
  scalar v = true -> (repr lo hi h v x <-> x = ref_of_scalar v).
Proof. destruct v; simpl; intros H; try discriminate; reflexivity. Qed.

#[local] Arguments repr : simpl never.

Lemma repr_scalar_ref (lo hi : nat) (h : store) (v : value) :
  scalar v = true -> repr lo hi h v (ref_of_scalar v).
Proof. intros H. now apply repr_scalar. Qed.

(** A representation only depends on the objects between its bounds. *)
Lemma repr_stable (lo hi : nat) (h h' : store) (v : value) (x : ref) :
  (forall l, lo <= l < hi -> nth_error h' l = nth_error h l) ->
  repr lo hi h v x -> repr lo hi h' v x.
Proof.
  intros Hsame. revert x.
  induction v as [ | | | | | vs IH | items IH] using value_nested_ind; intros x;
    try (rewrite !repr_scalar by reflexivity; trivial).
  - rewrite !repr_list. intros (l & xs & Hx & Hl & Hn & Hall).
    exists l, xs. repeat split; try tauto.
    + rewrite Hsame; tauto.
    + clear -IH Hall. induction Hall; constructor; inversion IH; subst; auto.
  - rewrite !repr_dict. intros (l & xs & Hx & Hl & Hn & Hall).
    exists l, xs. repeat split; try tauto.
    + rewrite Hsame; tauto.
    + clear -IH Hall. induction Hall as [|? ? ? ? [? ?] ? ?]; constructor;
        inversion IH; subst; auto.
Qed.

Lemma repr_mono (lo hi lo' hi' : nat) (h : store) (v : value) (x : ref) :
  lo' <= lo -> hi <= hi' ->
  repr lo hi h v x -> repr lo' hi' h v x.
Proof.
  intros Hlo Hhi. revert x.
  induction v as [ | | | | | vs IH | items IH] using value_nested_ind; intros x;
    try (rewrite !repr_scalar by reflexivity; trivial).
  - rewrite !repr_list. intros (l & xs & Hx & Hl & Hn & Hall).
    exists l, xs. repeat split; try tauto; try lia.
    clear -IH Hall. induction Hall; constructor; inversion IH; subst; auto.
  - rewrite !repr_dict. intros (l & xs & Hx & Hl & Hn & Hall).
    exists l, xs. repeat split; try tauto; try lia.
    clear -IH Hall. induction Hall as [|? ? ? ? [? ?] ? ?]; constructor;
      inversion IH; subst; auto.
Qed.

(** The bounds of a representation lie within the store. *)
Lemma frozen_refl (n : nat) (h : store) : n <= List.length h -> frozen n h h.
Proof. unfold frozen. auto. Qed.

Lemma frozen_trans (n : nat) (h1 h2 h3 : store) :
  frozen n h1 h2 -> frozen n h2 h3 -> frozen n h1 h3.
Proof.
  unfold frozen. intros (H1 & H2 & H3) (H4 & H5 & H6).
  repeat split; try lia. intros l Hl. rewrite H6, H3; auto.
Qed.

Lemma frozen_weaken (n n' : nat) (h h' : store) :
  n' <= n -> frozen n h h' -> frozen n' h h'.
Proof.
  unfold frozen. intros Hn (H1 & H2 & H3). repeat split; try lia.
  intros l Hl. apply H3. lia.
Qed.

Lemma repr_frozen (n lo hi : nat) (h h' : store) (v : value) (x : ref) :
  hi <= n -> frozen n h h' ->
  repr lo hi h v x -> repr lo hi h' v x.
Proof.
  intros Hhi (_ & _ & Hsame). apply repr_stable. intros l Hl. apply Hsame. lia.
Qed.

(** A representation survives a run that keeps what lies below [n], and
    may then be taken up to the end of the new store. *)
Lemma repr_grow (n lo hi : nat) (h h' : store) (v : value) (x : ref) :
  hi <= n -> frozen n h h' ->
  repr lo hi h v x -> repr lo (List.length h') h' v x.
Proof.
  intros Hhi Hf Hv. apply (repr_mono lo hi); [lia | destruct Hf; lia |].
  now apply (repr_frozen n lo hi h h').
Qed.

#[local] Open Scope list_scope.

(** ** The store *)

Lemma set_nth_length {A} (n : nat) (a : A) (l : list A) :
  List.length (set_nth n a l) = List.length l.
Proof.
  revert n. induction l as [|x l IH]; intros [|n]; simpl; auto.
Qed.

Lemma nth_error_set_nth_same {A} (n : nat) (a : A) (l : list A) :
  n < List.length l -> nth_error (set_nth n a l) n = Some a.
Proof.
  revert n. induction l as [|x l IH]; intros [|n]; simpl; intros H; try lia; auto.
  apply IH. lia.
Qed.

Lemma nth_error_set_nth_other {A} (n n' : nat) (a : A) (l : list A) :
  n <> n' -> nth_error (set_nth n a l) n' = nth_error l n'.
Proof.
  revert n n'. induction l as [|x l IH]; intros [|n] [|n']; simpl; intros H;
    try congruence; auto.
Qed.

Lemma nth_error_alloc_new (h : store) (o : object) :
  nth_error (h ++ [o]) (List.length h) = Some o.
Proof. rewrite nth_error_app2 by lia. now rewrite Nat.sub_diag. Qed.

Lemma nth_error_alloc_old (h : store) (o : object) (l : nat) :
  l < List.length h -> nth_error (h ++ [o]) l = nth_error h l.
Proof. intros H. now rewrite nth_error_app1. Qed.

Lemma nth_error_Some_lt {A} (l : list A) (n : nat) (a : A) :
  nth_error l n = Some a -> n < List.length l.
Proof. intros H. apply nth_error_Some. congruence. Qed.

Lemma frozen_alloc (n : nat) (h : store) (o : object) :
  n <= List.length h -> frozen n h (h ++ [o]).
Proof.
  intros Hn. unfold frozen. rewrite length_app. simpl. repeat split; try lia.
  intros l Hl. apply nth_error_alloc_old. lia.
Qed.

(** An update at or above [n] keeps the objects below [n]. *)
Lemma frozen_set_nth (n l : nat) (h : store) (o : object) :
  n <= l -> n <= List.length h -> frozen n h (set_nth l o h).
Proof.
  intros Hl Hn. unfold frozen. rewrite set_nth_length. repeat split; try lia.
  intros l' Hl'. apply nth_error_set_nth_other. lia.
Qed.

(** ** Runs that follow a computation on trees *)

Lemma sim_ret {A B} (n : nat) (R : store -> B -> A -> Prop) (h : store) (a : A) (b : B) :
  n <= List.length h -> R h b a -> sim n R (ret a) h (Ok b).
Proof. intros Hn HR. exists h, (Returns a). repeat split; eauto using frozen_refl. Qed.

Lemma sim_raise {A B} (n : nat) (R : store -> B -> A -> Prop) (h : store) (e : exn) :
  n <= List.length h -> sim n R (raise e) h (Raise e).
Proof. intros Hn. exists h, (Raises e). repeat split; eauto using frozen_refl. Qed.

Lemma sim_bind {A B A' B'} (n : nat) (R : store -> B -> A -> Prop)
    (R' : store -> B' -> A' -> Prop)
    (c : run A) (k : A -> run A') (h : store) (p : result B) (kp : B -> result B') :
  sim n R c h p ->
  (forall h' a b, p = Ok b -> frozen n h h' -> R h' b a -> sim n R' (k a) h' (kp b)) ->
  sim n R' (bind_run c k) h (bind p kp).
Proof.
  intros (h1 & out & Hc & Hf & Hp) Hk. unfold sim, bind_run. rewrite Hc.
  destruct p as [b|e]; simpl.
  - destruct Hp as (a & -> & HR).
    destruct (Hk h1 a b eq_refl Hf HR) as (h2 & out2 & Hk2 & Hf2 & Hp2).
    exists h2, out2. split; [assumption|].
    split; [eauto using frozen_trans | assumption].
  - subst out. exists h1, (Raises e). auto.
Qed.

(** A step of the run that the computation on trees does not have. *)
Lemma sim_step {A B A' B'} (n : nat) (R : store -> B -> A -> Prop)
    (R' : store -> B' -> A' -> Prop)
    (c : run A) (k : A -> run A') (h : store) (b : B) (p : result B') :
  sim n R c h (Ok b) ->
  (forall h' a, frozen n h h' -> R h' b a -> sim n R' (k a) h' p) ->
  sim n R' (bind_run c k) h p.
Proof.
  intros Hc Hk.
  apply (sim_bind n R R' c k h (Ok b) (fun _ => p)); [assumption|].
  intros h' a b' [= <-] Hf HR. auto.
Qed.

Lemma sim_weaken {A B} (n n' : nat) (R R' : store -> B -> A -> Prop)
    (c : run A) (h : store) (p : result B) :
  n' <= n -> (forall h' b a, R h' b a -> R' h' b a) ->
  sim n R c h p -> sim n' R' c h p.
Proof.
  intros Hn HR (h1 & out & Hc & Hf & Hp). exists h1, out.
  split; [assumption|]. split; [eauto using frozen_weaken|].
  destruct p; [|assumption]. destruct Hp as (a0 & -> & Hp). eauto.
Qed.

Lemma sim_alloc {B} (n : nat) (h : store) (o : object) (b : B) :
  n <= List.length h ->
  sim n (fun h' _ l => l = List.length h /\ h' = h ++ [o]) (alloc o) h (Ok b).
Proof.
  intros Hn. exists (h ++ [o]), (Returns (List.length h)).
  split; [reflexivity|]. split; [now apply frozen_alloc|].
  exists (List.length h). auto.
Qed.

Lemma sim_frozen_post {A B} (n : nat) (R : store -> B -> A -> Prop)
    (c : run A) (h : store) (p : result B) :
  sim n R c h p ->
  sim n (fun h' b a => R h' b a /\ frozen n h h') c h p.
Proof.
  intros (h1 & out & Hc & Hf & Hp). exists h1, out.
  split; [assumption|]. split; [assumption|].
  destruct p; [|assumption]. destruct Hp as (a0 & -> & Hp). eauto.
Qed.

(** ** Reading a tree in the store *)

Section Reading.

Variables (lo hi : nat) (h : store).

Lemma repr_eq_str (v : value) (x : ref) (s : string) :
  repr lo hi h v x -> r_eq_str x s = eq_str v s.
Proof.
  destruct v; try (rewrite repr_scalar by reflexivity; intros ->; reflexivity).
  - rewrite repr_list. intros (l & xs' & -> & _). reflexivity.
  - rewrite repr_dict. intros (l & xs' & -> & _). reflexivity.
Qed.

Lemma repr_lookup (items : dict) (xs : list (string * ref)) (k : string) :
  Forall2 (fun kv kx => fst kx = fst kv /\ repr lo hi h (snd kv) (snd kx)) items xs ->
  match dict_get k items with
  | Some v => exists x, lookup k xs = Some x /\ repr lo hi h v x
  | None => lookup k xs = None
  end.
Proof.
  induction 1 as [|[k1 v] [k2 x] items xs [Hk Hv] _ IH]; simpl in *; [reflexivity|].
  subst k2. destruct (k1 =? k); [eauto | exact IH].
Qed.

Lemma repr_items_get (items : dict) (xs : list (string * ref)) (k : string)
    (dv : value) (d : ref) :
  Forall2 (fun kv kx => fst kx = fst kv /\ repr lo hi h (snd kv) (snd kx)) items xs ->
  repr lo hi h dv d ->
  repr lo hi h (get_default items k dv) (items_get xs k d).
Proof.
  intros Hall Hd. pose proof (repr_lookup items xs k Hall) as H.
  unfold get_default, items_get. destruct (dict_get k items).
  - destruct H as [x [-> Hx]]. exact Hx.
  - now rewrite H.
Qed.

Lemma repr_items_has (items : dict) (xs : list (string * ref)) (k : string) :
  Forall2 (fun kv kx => fst kx = fst kv /\ repr lo hi h (snd kv) (snd kx)) items xs ->
  match lookup k xs with Some _ => true | None => false end = dict_has k items.
Proof.
  intros Hall. pose proof (repr_lookup items xs k Hall) as H.
  unfold dict_has. destruct (dict_get k items).
  - destruct H as [x [-> _]]. reflexivity.
  - now rewrite H.
Qed.

Lemma repr_truthy (v : value) (x : ref) :
  repr lo hi h v x -> r_truthy x h = (h, Returns (truthy v)).
Proof.
  destruct v; try (rewrite repr_scalar by reflexivity; intros ->; reflexivity).
  - rewrite repr_list. intros (l & ys & -> & _ & Hn & Hall).
    unfold r_truthy, bind_run, load. rewrite Hn.
    destruct Hall; reflexivity.
  - rewrite repr_dict. intros (l & ys & -> & _ & Hn & Hall).
    unfold r_truthy, bind_run, load. rewrite Hn.
    destruct Hall; reflexivity.
Qed.

Lemma repr_get (v dv : value) (o d : ref) (k : string) :
  repr lo hi h v o -> repr lo hi h dv d ->
  exists out,
    r_get o k d h = (h, out)
    /\ match meth_get v k dv with
       | Ok r => exists y, out = Returns y /\ repr lo hi h r y
       | Raise e => out = Raises e
       end.
Proof.
  intros Hv Hd.
  destruct v; try (apply repr_scalar in Hv; [subst o | reflexivity]; simpl;
                   eexists; split; reflexivity).
  - apply repr_list in Hv as (l & ys & -> & _ & Hn & _).
    unfold r_get, bind_run, load. rewrite Hn. eexists; split; reflexivity.
  - apply repr_dict in Hv as (l & ys & -> & _ & Hn & Hall).
    unfold r_get, bind_run, load. rewrite Hn. eexists. split; [reflexivity|].
    simpl. eexists. split; [reflexivity|]. now apply repr_items_get.
Qed.

Lemma repr_subscript0 (v : value) (c : ref) :
  repr lo hi h v c ->
  exists out,
    r_subscript0 c h = (h, out)
    /\ match subscript0 v with
       | Ok r => exists y, out = Returns y /\ repr lo hi h r y
       | Raise e => out = Raises e
       end.
Proof.
  intros Hv.
  destruct v; try (apply repr_scalar in Hv; [subst c | reflexivity]; simpl;
                   eexists; split; reflexivity).
  - apply repr_scalar in Hv; [subst c | reflexivity]. simpl.
    destruct s; eexists; (split; [reflexivity|]); simpl; eauto.
    eexists. split; [reflexivity|]. now apply repr_scalar.
  - apply repr_list in Hv as (l & ys & -> & _ & Hn & Hall).
    unfold r_subscript0, bind_run, load. rewrite Hn.
    destruct Hall; eexists; (split; [reflexivity|]); simpl; eauto.
  - apply repr_dict in Hv as (l & ys & -> & _ & Hn & Hall).
    unfold r_subscript0, bind_run, load. rewrite Hn.
    eexists; split; reflexivity.
Qed.

Lemma repr_iterate (v : value) (c : ref) :
  repr lo hi h v c ->
  exists out,
    r_iterate c h = (h, out)
    /\ match iterate v with
       | Ok vs => exists xs, out = Returns xs /\ Forall2 (repr lo hi h) vs xs
       | Raise e => out = Raises e
       end.
Proof.
  intros Hv.
  destruct v; try (apply repr_scalar in Hv; [subst c | reflexivity]; simpl;
                   eexists; split; reflexivity).
  - apply repr_scalar in Hv; [subst c | reflexivity]. simpl.
    eexists. split; [reflexivity|]. eexists. split; [reflexivity|].
    induction (list_ascii_of_string s) as [|a rest IH]; simpl; [constructor|].
    constructor;
      [exact (repr_scalar_ref lo hi h (VStr (String a "")) eq_refl) | exact IH].
  - apply repr_list in Hv as (l & ys & -> & _ & Hn & Hall).
    unfold r_iterate, bind_run, load. rewrite Hn.
    eexists. split; [reflexivity|]. simpl. eexists. split; [reflexivity | exact Hall].
  - apply repr_dict in Hv as (l & ys & -> & _ & Hn & Hall).
    unfold r_iterate, bind_run, load. rewrite Hn.
    eexists. split; [reflexivity|]. eexists. split; [reflexivity|].
    clear Hn.
    induction Hall as [|kv kx ? ? [Hk _] _ IH]; simpl; [constructor|].
    constructor; [|exact IH].
    rewrite <- Hk. exact (repr_scalar_ref lo hi h (VStr (fst kx)) eq_refl).
Qed.

End Reading.

(** ** Displays *)

Section TreeInduction.

Variable P : tree -> Prop.
Hypothesis P_ref : forall x, P (TRef x).
Hypothesis P_list : forall ts, Forall P ts -> P (TList ts).
Hypothesis P_dict : forall items, Forall (fun kt => P (snd kt)) items -> P (TDict items).

Fixpoint tree_nested_ind (t : tree) : P t :=
  match t with
  | TRef x => P_ref x
  | TList ts =>
      P_list ts
        ((fix all (ts : list tree) : Forall P ts :=
            match ts with
            | [] => Forall_nil P
            | t :: rest => Forall_cons t (tree_nested_ind t) (all rest)
            end) ts)
  | TDict items =>
      P_dict items
        ((fix all (items : list (string * tree))
            : Forall (fun kt => P (snd kt)) items :=
            match items with
            | [] => Forall_nil _
            | kt :: rest =>
                Forall_cons (P := fun kt => P (snd kt)) kt
                  (tree_nested_ind (snd kt)) (all rest)
            end) items)
  end.

End TreeInduction.

Lemma tree_repr_list (lo hi : nat) (h : store) (ts : list tree) (v : value) :
  tree_repr lo hi h (TList ts) v <->
  exists vs, v = VList vs /\ Forall2 (tree_repr lo hi h) ts vs.
Proof.
  simpl. split; intros (vs & Hv & Hall); exists vs; (split; [assumption|]); clear Hv.
  - revert vs Hall. induction ts as [|t ts IH]; intros [|y ys] Hall;
      try contradiction; constructor; [apply Hall | apply IH, Hall].
  - induction Hall; [exact I | split; assumption].
Qed.

Lemma tree_repr_dict (lo hi : nat) (h : store) (items : list (string * tree)) (v : value) :
  tree_repr lo hi h (TDict items) v <->
  exists vs,
    v = VDict vs
    /\ Forall2 (fun kt kv => fst kv = fst kt /\ tree_repr lo hi h (snd kt) (snd kv))
         items vs.
Proof.
  simpl. split; intros (vs & Hv & Hall); exists vs; (split; [assumption|]); clear Hv.
  - revert vs Hall. induction items as [|t ts IH]; intros [|y ys] Hall;
      try contradiction; constructor; [split; apply Hall | apply IH, Hall].
  - induction Hall as [|? ? ? ? [? ?] ? ?]; [exact I | repeat split; assumption].
Qed.

#[local] Arguments tree_repr : simpl never.
#[local] Arguments build : simpl never.

Lemma tree_repr_frozen (n lo hi : nat) (h h' : store) (t : tree) (v : value) :
  hi <= n -> frozen n h h' ->
  tree_repr lo hi h t v -> tree_repr lo hi h' t v.
Proof.
  intros Hhi Hf. revert v.
  induction t as [x | ts IH | items IH] using tree_nested_ind; intros v.
  - apply (repr_frozen n); assumption.
  - rewrite !tree_repr_list. intros (vs & -> & Hall). exists vs. split; [reflexivity|].
    clear -IH Hall. induction Hall; constructor; inversion IH; subst; auto.
  - rewrite !tree_repr_dict. intros (vs & -> & Hall). exists vs. split; [reflexivity|].
    clear -IH Hall. induction Hall as [|? ? ? ? [? ?] ? ?]; constructor;
      inversion IH; subst; auto.
Qed.

Lemma build_list_eq (ts : list tree) :
  build (TList ts)
  = (xs <~ (fix each (ts : list tree) : run (list ref) :=
              match ts with
              | [] => ret []
              | t :: rest => x <~ build t ;; xs <~ each rest ;; ret (x :: xs)
              end) ts ;;
     l <~ alloc (OList xs) ;;
     ret (RObj l)).
Proof. reflexivity. Qed.

Lemma build_dict_eq (items : list (string * tree)) :
  build (TDict items)
  = (xs <~ (fix each (items : list (string * tree)) : run (list (string * ref)) :=
              match items with
              | [] => ret []
              | (k, t) :: rest => x <~ build t ;; xs <~ each rest ;; ret ((k, x) :: xs)
              end) items ;;
     l <~ alloc (ODict xs) ;;
     ret (RObj l)).
Proof. reflexivity. Qed.

(** Evaluating a display only allocates, and the reference it returns
    stands for the tree of the display. *)
Lemma build_spec (t : tree) :
  forall (lo hi : nat) (h : store) (v : value),
    lo <= List.length h -> hi <= List.length h ->
    tree_repr lo hi h t v ->
    exists h' y,
      build t h = (h', Returns y)
      /\ frozen (List.length h) h h'
      /\ repr lo (List.length h') h' v y.
Proof.
  induction t as [x | ts IH | items IH] using tree_nested_ind;
    intros lo hi h v Hlo Hhi Ht.
  - exists h, x. split; [reflexivity|]. split; [apply frozen_refl; lia|].
    change (repr lo hi h v x) in Ht.
    eapply repr_mono; [| |exact Ht]; lia.
  - apply tree_repr_list in Ht as (vs & -> & Hall).
    rewrite build_list_eq.
    set (each := fix each (ts : list tree) : run (list ref) :=
                   match ts with
                   | [] => ret []
                   | t :: rest => x <~ build t ;; xs <~ each rest ;; ret (x :: xs)
                   end).
    assert (Heach : forall h1, List.length h <= List.length h1 ->
               Forall2 (tree_repr lo hi h1) ts vs ->
               exists h2 xs, each ts h1 = (h2, Returns xs)
                             /\ frozen (List.length h1) h1 h2
                             /\ Forall2 (repr lo (List.length h2) h2) vs xs).
    { clear Hall. revert vs. induction ts as [|t ts IHts]; intros vs h1 Hlen Hall.
      - inversion Hall; subst. exists h1, []. repeat split; auto.
      - inversion Hall as [|? v0 ? vs0 Ht0 Hrest]; subst.
        inversion IH as [|? ? IHt IHrest]; subst.
        destruct (IHt lo hi h1 v0 ltac:(lia) ltac:(lia) Ht0) as (h2 & y & Hb & Hf & Hy).
        assert (Hrest2 : Forall2 (tree_repr lo hi h2) ts vs0).
        { eapply Forall2_impl; [|exact Hrest]. intros a b.
          apply (tree_repr_frozen (List.length h1)); [lia | assumption]. }
        destruct Hf as (Hf1 & Hf2 & Hf3).
        destruct (IHts IHrest vs0 h2 ltac:(lia) Hrest2) as (h3 & xs & He & Hf' & Hxs).
        exists h3, (y :: xs). simpl. unfold bind_run at 1. rewrite Hb.
        unfold bind_run at 1. rewrite He. split; [reflexivity|].
        split; [eapply frozen_trans; [|eapply frozen_weaken; [|exact Hf']]; [repeat split; auto | lia]|].
        constructor; [|assumption].
        exact (repr_grow (List.length h2) lo (List.length h2) h2 h3 v0 y
                 (le_n _) Hf' Hy). }
    destruct (Heach h ltac:(lia) Hall) as (h2 & xs & He & Hf & Hxs).
    exists (h2 ++ [OList xs]), (RObj (List.length h2)).
    unfold bind_run at 1. rewrite He. split; [reflexivity|].
    pose proof Hf as (Hf1 & Hf2 & Hf3).
    split; [eapply frozen_trans; [exact Hf | apply frozen_alloc; lia]|].
    apply repr_list. exists (List.length h2), xs. rewrite length_app. simpl.
    repeat split; try lia; [apply nth_error_alloc_new|].
    eapply Forall2_impl; [|exact Hxs]. intros a b Hab.
    pose proof (repr_grow (List.length h2) lo (List.length h2) h2 (h2 ++ [OList xs]) a b
                  (le_n _) (frozen_alloc _ _ _ (le_n _)) Hab) as Hg.
    rewrite length_app in Hg. exact Hg.
  - apply tree_repr_dict in Ht as (vs & -> & Hall).
    rewrite build_dict_eq.
    set (each := fix each (items : list (string * tree)) : run (list (string * ref)) :=
                   match items with
                   | [] => ret []
                   | (k, t) :: rest => x <~ build t ;; xs <~ each rest ;; ret ((k, x) :: xs)
                   end).
    assert (Heach : forall h1, List.length h <= List.length h1 ->
               Forall2 (fun kt kv => fst kv = fst kt /\ tree_repr lo hi h1 (snd kt) (snd kv))
                 items vs ->
               exists h2 xs, each items h1 = (h2, Returns xs)
                             /\ frozen (List.length h1) h1 h2
                             /\ Forall2 (fun kv kx => fst kx = fst kv
                                                      /\ repr lo (List.length h2) h2 (snd kv) (snd kx))
                                  vs xs).
    { clear Hall. revert vs. induction items as [|[k t] items IHts]; intros vs h1 Hlen Hall.
      - inversion Hall; subst. exists h1, []. repeat split; auto.
      - inversion Hall as [|? [k0 v0] ? vs0 [Hk0 Ht0] Hrest]; subst.
        inversion IH as [|? ? IHt IHrest]; subst. simpl in *. subst k0.
        destruct (IHt lo hi h1 v0 ltac:(lia) ltac:(lia) Ht0) as (h2 & y & Hb & Hf & Hy).
        assert (Hrest2 : Forall2 (fun kt kv => fst kv = fst kt
                                               /\ tree_repr lo hi h2 (snd kt) (snd kv))
                           items vs0).
        { eapply Forall2_impl; [|exact Hrest]. intros a b [Hab1 Hab2]. split; [assumption|].
          revert Hab2. apply (tree_repr_frozen (List.length h1)); [lia | assumption]. }
        destruct Hf as (Hf1 & Hf2 & Hf3).
        destruct (IHts IHrest vs0 h2 ltac:(lia) Hrest2) as (h3 & xs & He & Hf' & Hxs).
        exists h3, ((k, y) :: xs). simpl. unfold bind_run at 1. rewrite Hb.
        unfold bind_run at 1. rewrite He. split; [reflexivity|].
        split; [eapply frozen_trans; [|eapply frozen_weaken; [|exact Hf']]; [repeat split; auto | lia]|].
        constructor; [|assumption]. split; [reflexivity|]. simpl.
        exact (repr_grow (List.length h2) lo (List.length h2) h2 h3 v0 y
                 (le_n _) Hf' Hy). }
    destruct (Heach h ltac:(lia) Hall) as (h2 & xs & He & Hf & Hxs).
    exists (h2 ++ [ODict xs]), (RObj (List.length h2)).
    unfold bind_run at 1. rewrite He. split; [reflexivity|].
    pose proof Hf as (Hf1 & Hf2 & Hf3).
    split; [eapply frozen_trans; [exact Hf | apply frozen_alloc; lia]|].
    apply repr_dict. exists (List.length h2), xs. rewrite length_app. simpl.
    repeat split; try lia; [apply nth_error_alloc_new|].
    eapply Forall2_impl; [|exact Hxs]. intros a b [Hab1 Hab]. split; [assumption|].
    pose proof (repr_grow (List.length h2) lo (List.length h2) h2 (h2 ++ [ODict xs])
                  (snd a) (snd b) (le_n _) (frozen_alloc _ _ _ (le_n _)) Hab) as Hg.
    rewrite length_app in Hg. exact Hg.
Qed.

(** ** Media paragraphs in the store *)

Lemma sim_truthy {B} (n lo hi : nat) (h : store) (v : value) (x : ref) (b : B) :
  n <= List.length h -> repr lo hi h v x ->
  sim n (fun h' _ t => h' = h /\ t = truthy v) (r_truthy x) h (Ok b).
Proof.
  intros Hn Hv. exists h, (Returns (truthy v)).
  split; [eapply repr_truthy; eauto|]. split; [now apply frozen_refl|]. eauto.
Qed.

Lemma sim_get (n lo hi : nat) (h : store) (v dv : value) (o d : ref) (k : string) :
  n <= List.length h -> repr lo hi h v o -> repr lo hi h dv d ->
  sim n (fun h' r y => h' = h /\ repr lo hi h r y) (r_get o k d) h (meth_get v k dv).
Proof.
  intros Hn Hv Hd. destruct (repr_get lo hi h v dv o d k Hv Hd) as (out & Hrun & Hout).
  exists h, out. split; [assumption|]. split; [now apply frozen_refl|].
  destruct (meth_get v k dv); [|assumption].
  destruct Hout as (y & -> & Hy). eauto.
Qed.

Lemma sim_subscript0 (n lo hi : nat) (h : store) (v : value) (c : ref) :
  n <= List.length h -> repr lo hi h v c ->
  sim n (fun h' r y => h' = h /\ repr lo hi h r y) (r_subscript0 c) h (subscript0 v).
Proof.
  intros Hn Hv. destruct (repr_subscript0 lo hi h v c Hv) as (out & Hrun & Hout).
  exists h, out. split; [assumption|]. split; [now apply frozen_refl|].
  destruct (subscript0 v); [|assumption].
  destruct Hout as (y & -> & Hy). eauto.
Qed.

Lemma sim_iterate (n lo hi : nat) (h : store) (v : value) (c : ref) :
  n <= List.length h -> repr lo hi h v c ->
  sim n (fun h' vs xs => h' = h /\ Forall2 (repr lo hi h) vs xs)
    (r_iterate c) h (iterate v).
Proof.
  intros Hn Hv. destruct (repr_iterate lo hi h v c Hv) as (out & Hrun & Hout).
  exists h, out. split; [assumption|]. split; [now apply frozen_refl|].
  destruct (iterate v); [|assumption].
  destruct Hout as (y & -> & Hy). eauto.
Qed.

Lemma sim_build (n lo hi : nat) (h : store) (t : tree) (v : value) :
  n <= List.length h -> lo <= List.length h -> hi <= List.length h ->
  tree_repr lo hi h t v ->
  sim n (fun h' r y => r = v /\ frozen (List.length h) h h'
                       /\ repr lo (List.length h') h' v y)
    (build t) h (Ok v).
Proof.
  intros Hn Hlo Hhi Ht.
  destruct (build_spec t lo hi h v Hlo Hhi Ht) as (h' & y & Hb & Hf & Hy).
  exists h', (Returns y). split; [assumption|].
  split; [eapply frozen_weaken; eauto|]. eauto.
Qed.

Lemma ref_of_mapping_get (m : dict) (s : string) :
  items_get (refs_of_mapping m) s RNone = ref_of_scalar (get_default m s VNone).
Proof.
  unfold items_get, get_default, refs_of_mapping.
  induction m as [|[k v] m IH]; simpl; [reflexivity|].
  destruct (k =? s); [reflexivity | exact IH].
Qed.

Lemma get_default_scalar (m : dict) (s : string) :
  scalar_urls m = true -> scalar (get_default m s VNone) = true.
Proof.
  intros Hm. unfold get_default. destruct (dict_get s m) eqn:E; [|reflexivity].
  eapply mapping_url_scalar; eauto.
Qed.

(** Displays with scalar leaves stand for the tree they spell out. *)
Ltac solve_tree_repr :=
  repeat first
    [ apply tree_repr_dict; eexists; split; [reflexivity|]
    | apply tree_repr_list; eexists; split; [reflexivity|]
    | apply Forall2_cons
    | apply Forall2_nil
    | split; [reflexivity|]; simpl
    | (apply repr_scalar_ref; solve [reflexivity | assumption]) ].

Section MediaInStore.

Variable m : dict.
Hypothesis urls : scalar_urls m = true.

Let fresh (n : nat) : store -> value -> ref -> Prop :=
  fun h' r y => repr n (List.length h') h' r y.

Lemma make_link_paragraph_sim (n : nat) (h : store) (fname url : value) :
  n <= List.length h -> scalar fname = true -> scalar url = true ->
  sim n (fresh n)
    (h_make_link_paragraph (ref_of_scalar fname) (ref_of_scalar url)) h
    (Ok (make_link_paragraph fname url)).
Proof.
  intros Hn Hf Hu. unfold h_make_link_paragraph, make_link_paragraph, py_or.
  eapply sim_step;
    [apply (sim_truthy n 0 0 h fname (ref_of_scalar fname) tt);
     [assumption | now apply repr_scalar_ref] |].
  intros h1 t _ [-> ->]. cbv beta zeta.
  eapply sim_step;
    [apply (sim_truthy n 0 0 h url (ref_of_scalar url) tt);
     [assumption | now apply repr_scalar_ref] |].
  intros h1 t _ [-> ->].
  set (text := if truthy fname then fname else VStr "attachment").
  assert (Htext : (if truthy fname then ref_of_scalar fname else RStr "attachment")
                  = ref_of_scalar text).
  { unfold text. destruct (truthy fname); reflexivity. }
  assert (Hst : scalar text = true).
  { unfold text. destruct (truthy fname); [assumption | reflexivity]. }
  rewrite Htext.
  destruct (negb (truthy url)).
  - eapply sim_weaken; [apply le_n | | apply (sim_build n n n h); try lia].
    + intros h' b a (-> & _ & H). exact H.
    + solve_tree_repr.
  - eapply sim_weaken; [apply le_n | | apply (sim_build n n n h); try lia].
    + intros h' b a (-> & _ & H). exact H.
    + solve_tree_repr.
Qed.

Lemma repr_empty_dict_alloc (h : store) :
  repr 0 (S (List.length h)) (h ++ [ODict []]) (VDict []) (RObj (List.length h)).
Proof.
  apply repr_dict. exists (List.length h), [].
  repeat split; try lia; [apply nth_error_alloc_new | constructor].
Qed.

Lemma media_filename_sim (n hi : nat) (h : store) (media_v : value) (media : ref) :
  n <= List.length h -> hi <= List.length h ->
  repr 0 hi h media_v media ->
  sim n (fun h' r y => frozen (List.length h) h h' /\ repr 0 (List.length h') h' r y)
    (h_media_filename media) h (media_filename media_v).
Proof.
  intros Hn Hhi Hmedia. unfold h_media_filename, media_filename.
  eapply sim_step; [apply (sim_alloc (B := unit) n h (ODict []) tt Hn)|].
  intros h1 d _ [-> ->]. cbv beta.
  set (h1 := h ++ [ODict []]).
  assert (Hlen1 : List.length h1 = S (List.length h)).
  { unfold h1. rewrite length_app. simpl. lia. }
  assert (Hf1 : frozen (List.length h) h h1) by (apply frozen_alloc; lia).
  assert (Hmedia1 : repr 0 (List.length h1) h1 media_v media).
  { exact (repr_grow (List.length h) 0 hi h h1 media_v media Hhi Hf1 Hmedia). }
  assert (Hd1 : repr 0 (List.length h1) h1 (VDict []) (RObj (List.length h))).
  { rewrite Hlen1. apply repr_empty_dict_alloc. }
  eapply sim_bind;
    [apply (sim_get n 0 (List.length h1) h1 media_v (VDict []) media
              (RObj (List.length h)) "attrs"); [lia | assumption | assumption] |].
  intros h' attrs attrs_v _ _ [-> Hattrs]. cbv beta.
  eapply sim_bind;
    [apply (sim_get n 0 (List.length h1) h1 attrs_v VNone attrs RNone "fileName");
     [lia | assumption | reflexivity] |].
  intros h' file_name file_name_v _ _ [-> Hfile]. cbv beta.
  eapply sim_step;
    [apply (sim_truthy n 0 (List.length h1) h1 file_name_v file_name tt);
     [lia | assumption] |].
  intros h' t _ [-> ->].
  destruct (truthy file_name_v).
  - apply sim_ret; [lia | auto].
  - eapply sim_step; [apply (sim_alloc (B := unit) n h1 (ODict []) tt); lia|].
    intros h2 d' _ [-> ->]. cbv beta.
    set (h2 := h1 ++ [ODict []]).
    assert (Hlen2 : List.length h2 = S (List.length h1)).
    { unfold h2. rewrite length_app. simpl. lia. }
    assert (Hf2 : frozen (List.length h1) h1 h2) by (apply frozen_alloc; lia).
    assert (Hmedia2 : repr 0 (List.length h2) h2 media_v media).
    { exact (repr_grow (List.length h1) 0 (List.length h1) h1 h2 media_v media
               (le_n _) Hf2 Hmedia1). }
    assert (Hd2 : repr 0 (List.length h2) h2 (VDict []) (RObj (List.length h1))).
    { rewrite Hlen2. apply repr_empty_dict_alloc. }
    eapply sim_bind;
      [apply (sim_get n 0 (List.length h2) h2 media_v (VDict []) media
                (RObj (List.length h1)) "attrs"); [lia | assumption | assumption] |].
    intros h' attrs' attrs_v' _ _ [-> Hattrs']. cbv beta.
    eapply sim_weaken;
      [apply le_n | |
       apply (sim_get n 0 (List.length h2) h2 attrs_v' VNone attrs' RNone "name");
       [lia | assumption | reflexivity]].
    intros h' r y [-> Hr]. split; [|assumption].
    eapply frozen_trans; [exact Hf1|]. eapply frozen_weaken; [|exact Hf2]. lia.
Qed.

Lemma url_lookup_sim (n lo hi : nat) (h : store) (key_v : value) (key : ref) :
  n <= List.length h -> repr lo hi h key_v key ->
  sim n (fun h' url_v url =>
           h' = h /\ scalar key_v = true /\ key = ref_of_scalar key_v
           /\ scalar url_v = true /\ url = ref_of_scalar url_v)
    (h_url_lookup (refs_of_mapping m) key) h (url_lookup m key_v).
Proof.
  intros Hn Hkey.
  destruct key_v as [ | b | z | f | s | xs | d].
  6: { apply repr_list in Hkey as (l & xs' & -> & _). simpl. now apply sim_raise. }
  6: { apply repr_dict in Hkey as (l & xs' & -> & _). simpl. now apply sim_raise. }
  all: apply repr_scalar in Hkey; [subst key | reflexivity]; simpl;
    apply sim_ret; [assumption|]; repeat split;
    auto using get_default_scalar, ref_of_mapping_get.
Qed.

(** The three statements of a media branch, on the store. *)
Lemma media_paragraph_sim (n hi : nat) (h : store) (media_v : value) (media : ref) :
  n <= List.length h -> hi <= List.length h ->
  repr 0 hi h media_v media ->
  sim n (fresh n) (h_media_paragraph (refs_of_mapping m) media) h
    (media_paragraph m media_v).
Proof.
  intros Hn Hhi Hmedia. unfold h_media_paragraph, media_paragraph.
  eapply sim_bind; [apply (media_filename_sim n hi h media_v media); assumption|].
  intros h1 fname fname_v _ _ [Hf1 Hfname]. cbv beta.
  assert (Hn1 : n <= List.length h1) by (destruct Hf1; lia).
  eapply sim_bind; [apply (url_lookup_sim n 0 (List.length h1) h1 fname_v fname);
                    assumption|].
  intros h' url url_v _ _ (-> & Hsf & -> & Hsu & ->). cbv beta.
  eapply sim_step;
    [apply (sim_truthy n 0 (List.length h1) h1 fname_v (ref_of_scalar fname_v) tt);
     assumption|].
  intros h' t _ [-> ->].
  assert (Harg : (if truthy fname_v then ref_of_scalar fname_v else RStr "image")
                 = ref_of_scalar (py_or fname_v (VStr "image"))).
  { unfold py_or. destruct (truthy fname_v); reflexivity. }
  rewrite Harg. apply make_link_paragraph_sim; try assumption.
  unfold py_or. destruct (truthy fname_v); [assumption | reflexivity].
Qed.

End MediaInStore.

(** ** Updates of the store *)

Lemma run_append (h : store) (l : loc) (xs : list ref) (y : ref) :
  nth_error h l = Some (OList xs) ->
  r_append (RObj l) y h = (set_nth l (OList (xs ++ [y])) h, Returns tt).
Proof.
  intros Hn. unfold r_append, bind_run, load, store_at. now rewrite Hn, Hn.
Qed.

Lemma run_extend (h : store) (l : loc) (xs more : list ref) :
  nth_error h l = Some (OList xs) ->
  r_extend l more h = (set_nth l (OList (xs ++ more)) h, Returns tt).
Proof.
  intros Hn. unfold r_extend, bind_run, load, store_at. now rewrite Hn, Hn.
Qed.

Lemma run_setitem (h : store) (l : loc) (items : list (string * ref)) (k : string) (x : ref) :
  nth_error h l = Some (ODict items) ->
  r_setitem l k x h = (set_nth l (ODict (items_set k x items)) h, Returns tt).
Proof.
  intros Hn. unfold r_setitem, bind_run, load, store_at. now rewrite Hn, Hn.
Qed.

Lemma run_getitem (h : store) (l : loc) (items : list (string * ref)) (k : string) (x : ref) :
  nth_error h l = Some (ODict items) -> lookup k items = Some x ->
  r_getitem l k h = (h, Returns x).
Proof.
  intros Hn Hk. unfold r_getitem, bind_run, load. now rewrite Hn, Hk.
Qed.

Lemma lookup_items_set_same (k : string) (x : ref) (items : list (string * ref)) :
  lookup k (items_set k x items) = Some x.
Proof.
  induction items as [|[k' x'] items IH]; simpl.
  - now rewrite String.eqb_refl.
  - destruct (String.eqb_spec k' k) as [->|Hne]; simpl.
    + now rewrite String.eqb_refl.
    + destruct (String.eqb_spec k' k); [contradiction | exact IH].
Qed.

(** A representation above [l] does not see an update at [l]. *)
Lemma repr_set_nth (lo hi l : nat) (h : store) (o : object) (v : value) (x : ref) :
  l < lo -> repr lo hi h v x -> repr lo hi (set_nth l o h) v x.
Proof.
  intros Hl. apply repr_stable. intros l' Hl'. apply nth_error_set_nth_other. lia.
Qed.

Lemma repr_set_nth_below (lo hi l : nat) (h : store) (o : object) (v : value) (x : ref) :
  hi <= l -> repr lo hi h v x -> repr lo hi (set_nth l o h) v x.
Proof.
  intros Hl. apply repr_stable. intros l' Hl'. apply nth_error_set_nth_other. lia.
Qed.

Lemma Forall2_repr_set_nth (lo hi l : nat) (h : store) (o : object)
    (vs : list value) (xs : list ref) :
  l < lo -> Forall2 (repr lo hi h) vs xs -> Forall2 (repr lo hi (set_nth l o h)) vs xs.
Proof.
  intros Hl H. eapply Forall2_impl; [|exact H]. intros a b. now apply repr_set_nth.
Qed.

Lemma Forall2_repr_grow (n lo hi : nat) (h h' : store) (vs : list value) (xs : list ref) :
  hi <= n -> frozen n h h' ->
  Forall2 (repr lo hi h) vs xs -> Forall2 (repr lo (List.length h') h') vs xs.
Proof.
  intros Hhi Hf H. eapply Forall2_impl; [|exact H]. intros a b.
  now apply (repr_grow n).
Qed.

Lemma Forall2_repr_frozen (n lo hi : nat) (h h' : store) (vs : list value) (xs : list ref) :
  hi <= n -> frozen n h h' ->
  Forall2 (repr lo hi h) vs xs -> Forall2 (repr lo hi h') vs xs.
Proof.
  intros Hhi Hf H. eapply Forall2_impl; [|exact H]. intros a b.
  now apply (repr_frozen n).
Qed.

Lemma Forall2_repr_mono (lo hi lo' hi' : nat) (h : store) (vs : list value) (xs : list ref) :
  lo' <= lo -> hi <= hi' ->
  Forall2 (repr lo hi h) vs xs -> Forall2 (repr lo' hi' h) vs xs.
Proof.
  intros Hlo Hhi H. eapply Forall2_impl; [|exact H]. intros a b.
  now apply repr_mono.
Qed.

Lemma sim_map {A B B'} (n : nat) (R : store -> B -> A -> Prop)
    (R' : store -> B' -> A -> Prop) (f : B -> B')
    (c : run A) (h : store) (p : result B) :
  sim n R c h p ->
  (forall h' b a, R h' b a -> R' h' (f b) a) ->
  sim n R' c h (bind p (fun b => Ok (f b))).
Proof.
  intros (h1 & out & Hc & Hf & Hp) HR. exists h1, out.
  split; [assumption|]. split; [assumption|].
  destruct p as [b|e]; simpl; [|assumption].
  destruct Hp as (a0 & -> & Hp). eauto.
Qed.

(** A step whose effect on the store is known. *)
Lemma sim_run {A A' B'} (n : nat) (R' : store -> B' -> A' -> Prop)
    (c : run A) (k : A -> run A') (h h1 : store) (a : A) (p : result B') :
  c h = (h1, Returns a) -> frozen n h h1 ->
  sim n R' (k a) h1 p ->
  sim n R' (bind_run c k) h p.
Proof.
  intros Hc Hf (h2 & out & Hk & Hf2 & Hp). exists h2, out.
  unfold bind_run. rewrite Hc. split; [assumption|].
  split; [eapply frozen_trans; eauto | assumption].
Qed.

Lemma sim_ext {A B} (n : nat) (R : store -> B -> A -> Prop)
    (c c' : run A) (h : store) (p : result B) :
  c h = c' h -> sim n R c' h p -> sim n R c h p.
Proof. unfold sim. now intros ->. Qed.

Lemma sim_post {A A' B} (n : nat) (R : store -> B -> A -> Prop)
    (R' : store -> B -> A' -> Prop) (f : A -> A')
    (c : run A) (h : store) (p : result B) :
  sim n R c h p ->
  (forall h' b a, R h' b a -> R' h' b (f a)) ->
  sim n R' (a <~ c ;; ret (f a)) h p.
Proof.
  intros (h1 & out & Hc & Hf & Hp) HR. unfold sim, bind_run. rewrite Hc.
  destruct p as [b|e].
  - destruct Hp as (a0 & -> & Hp). exists h1, (Returns (f a0)).
    split; [reflexivity|]. split; [assumption|]. eauto.
  - subst out. exists h1, (Raises e). auto.
Qed.

(** ** Loops that append to a new list *)

Lemma each_sim (f : ref -> run ref) (g : value -> result value) (hi lp : nat)
    (vs : list value) :
  hi <= lp ->
  Forall (follows f g) vs ->
  forall (xs : list ref) (h : store) (acc : list value) (accx : list ref),
    lp < List.length h ->
    nth_error h lp = Some (OList accx) ->
    Forall2 (repr (S lp) (List.length h) h) acc accx ->
    Forall2 (repr 0 hi h) vs xs ->
    sim lp (fun h' rs _ =>
              exists rsx,
                nth_error h' lp = Some (OList rsx)
                /\ Forall2 (repr (S lp) (List.length h') h') (acc ++ rs) rsx)
      (h_each f lp xs) h (collect g vs).
Proof.
  intros Hhi Hall. induction Hall as [|v vs Hv _ IH];
    intros xs h acc accx Hlp Hn Hacc Hxs.
  - inversion Hxs; subst. simpl. apply sim_ret; [lia|].
    exists accx. rewrite app_nil_r. auto.
  - inversion Hxs as [|? x ? xs' Hx Hxs']; subst. simpl.
    eapply sim_bind.
    + eapply sim_weaken; [| |apply sim_frozen_post, (Hv h x hi); [lia | assumption]];
        [lia | intros h' b a H; exact H].
    + intros h1 y r _ _ [Hy Hf1]. cbv beta.
      pose proof Hf1 as (_ & Hlen1 & Hsame1).
      assert (Hn1 : nth_error h1 lp = Some (OList accx)) by (rewrite Hsame1; auto).
      set (h2 := set_nth lp (OList (accx ++ [y])) h1).
      assert (Hlen2 : List.length h2 = List.length h1) by apply set_nth_length.
      apply (sim_run lp _ _ _ h1 h2 tt);
        [exact (run_append h1 lp accx y Hn1) | apply frozen_set_nth; lia |].
      assert (Hacc2 : Forall2 (repr (S lp) (List.length h2) h2) (acc ++ [r]) (accx ++ [y])).
      { rewrite Hlen2. apply Forall2_repr_set_nth; [lia|]. apply Forall2_app.
        - exact (Forall2_repr_grow (List.length h) (S lp) (List.length h) h h1 acc accx
                   (le_n _) Hf1 Hacc).
        - repeat constructor. eapply repr_mono; [| |exact Hy]; lia. }
      assert (Hxs2 : Forall2 (repr 0 hi h2) vs xs').
      { eapply Forall2_impl; [|exact Hxs']. intros a b Hab.
        apply repr_set_nth_below; [lia|].
        apply (repr_frozen (List.length h) 0 hi h h1); [lia | assumption | assumption]. }
      assert (Hn2 : nth_error h2 lp = Some (OList (accx ++ [y]))).
      { apply nth_error_set_nth_same. lia. }
      pose proof (IH xs' h2 (acc ++ [r]) (accx ++ [y]) ltac:(lia) Hn2 Hacc2 Hxs2) as Hrest.
      apply (sim_map lp _ _ (fun rs => r :: rs) _ _ _ Hrest).
      intros h' rs _ (rsx & Hrsx & Hfinal).
      exists rsx. split; [assumption|]. now rewrite <- app_assoc in Hfinal.
Qed.

Lemma collect_transform_list (m : dict) (xs : list value) :
  collect (transform m) xs = transform_list m xs.
Proof. induction xs as [|x xs IH]; simpl; [reflexivity | now rewrite IH]. Qed.

Lemma collect_media_paragraphs (m : dict) (xs : list value) :
  collect (media_paragraph m) xs = media_paragraphs m xs.
Proof. induction xs as [|x xs IH]; simpl; [reflexivity | now rewrite IH]. Qed.

Lemma h_each_media_eq (m : list (string * ref)) (lp : loc) (medias : list ref) :
  h_each_media m lp medias = h_each (h_media_paragraph m) lp medias.
Proof. induction medias as [|x xs IH]; simpl; [reflexivity | now rewrite IH]. Qed.

(** ** The content loop on the store *)

Lemma Forall2_items_set {V X} (R : V -> X -> Prop) (k : string) (v : V) (x : X)
    (set_v : string -> V -> list (string * V) -> list (string * V))
    (set_x : string -> X -> list (string * X) -> list (string * X))
    (d : list (string * V)) (dx : list (string * X)) :
  (forall d, set_v k v d = match d with
                           | [] => [(k, v)]
                           | (k', v') :: rest =>
                               if k' =? k then (k', v) :: rest
                               else (k', v') :: set_v k v rest
                           end) ->
  (forall d, set_x k x d = match d with
                           | [] => [(k, x)]
                           | (k', x') :: rest =>
                               if k' =? k then (k', x) :: rest
                               else (k', x') :: set_x k x rest
                           end) ->
  R v x ->
  Forall2 (fun kv kx => fst kx = fst kv /\ R (snd kv) (snd kx)) d dx ->
  Forall2 (fun kv kx => fst kx = fst kv /\ R (snd kv) (snd kx)) (set_v k v d) (set_x k x dx).
Proof.
  intros Hv Hx HR Hall.
  induction Hall as [|[k1 v1] [k2 x1] d dx [Hk H1] Hrest IH]; rewrite Hv, Hx.
  - repeat constructor; auto.
  - simpl in Hk. subst k2. destruct (k1 =? k); constructor; auto.
Qed.

Lemma Forall2_dict_set (R : value -> ref -> Prop) (k : string) (v : value) (x : ref)
    (d : dict) (dx : list (string * ref)) :
  R v x ->
  Forall2 (fun kv kx => fst kx = fst kv /\ R (snd kv) (snd kx)) d dx ->
  Forall2 (fun kv kx => fst kx = fst kv /\ R (snd kv) (snd kx))
    (dict_set k v d) (items_set k x dx).
Proof.
  apply (Forall2_items_set R k v x dict_set items_set);
    intros [|[k' y] rest]; reflexivity.
Qed.

(** The store after the merge of one transformed child: the list under
    construction has grown by what [merged] says, and nothing else changed. *)
Lemma merge_child_run (lo ln ll : nat) (k : string) (h : store)
    (nd : list (string * ref)) (accx : list ref) (r : value) (y : ref) :
  nth_error h ln = Some (ODict nd) -> lookup k nd = Some (RObj ll) ->
  nth_error h ll = Some (OList accx) ->
  repr lo (List.length h) h r y ->
  exists more,
    h_merge_child ln k y h = (set_nth ll (OList (accx ++ more)) h, Returns tt)
    /\ Forall2 (repr lo (List.length h) h) (merged r) more.
Proof.
  intros Hln Hk Hll Hr.
  assert (Happend : (target <~ r_getitem ln k ;; r_append target y) h
                    = (set_nth ll (OList (accx ++ [y])) h, Returns tt)).
  { unfold bind_run. rewrite (run_getitem h ln nd k (RObj ll) Hln Hk).
    now apply run_append. }
  assert (Hplain : is_splice r = false ->
            forall c : store * outcome unit,
              c = (set_nth ll (OList (accx ++ [y])) h, Returns tt) ->
              exists more,
                c = (set_nth ll (OList (accx ++ more)) h, Returns tt)
                /\ Forall2 (repr lo (List.length h) h) (merged r) more).
  { intros Hs c ->. exists [y]. split; [reflexivity|].
    rewrite merged_plain by assumption. repeat constructor. assumption. }
  destruct r as [ | b | z | f | s | vs | d].
  1-5: apply repr_scalar in Hr as Hy; [subst y | reflexivity];
    apply Hplain; [reflexivity | exact Happend].
  - apply repr_list in Hr as Hy. destruct Hy as (l & xs & -> & Hl & Hn & Hall).
    apply Hplain; [reflexivity|]. rewrite <- Happend.
    unfold h_merge_child. unfold bind_run at 1. unfold load. rewrite Hn. reflexivity.
  - apply repr_dict in Hr as Hy. destruct Hy as (l & dx & -> & Hl & Hn & Hall).
    assert (Hty : r_eq_str (items_get dx "type" RNone) "doc"
                  = eq_str (get_default d "type" VNone) "doc").
    { apply (repr_eq_str lo (List.length h) h).
      apply repr_items_get; [assumption | reflexivity]. }
    pose proof (repr_items_get lo (List.length h) h d dx "content" VNone RNone
                  Hall eq_refl) as Hc.
    assert (Hrun : h_merge_child ln k (RObj l) h
                   = (if eq_str (get_default d "type" VNone) "doc" then
                        match items_get dx "content" RNone with
                        | RObj lc =>
                            oc <~ load lc ;;
                            match oc with
                            | OList cs =>
                                target <~ r_getitem ln k ;;
                                src <~ r_getitem l "content" ;;
                                match target with
                                | RObj lt => r_extend lt cs
                                | _ => raise AttributeError
                                end
                            | ODict _ =>
                                target <~ r_getitem ln k ;; r_append target (RObj l)
                            end
                        | _ => target <~ r_getitem ln k ;; r_append target (RObj l)
                        end
                      else target <~ r_getitem ln k ;; r_append target (RObj l)) h).
    { unfold h_merge_child. unfold bind_run at 1. unfold load at 1. rewrite Hn, Hty.
      reflexivity. }
    rewrite Hrun. clear Hrun.
    destruct (eq_str (get_default d "type" VNone) "doc") eqn:Hdoc.
    2: { apply Hplain; [simpl; now rewrite Hdoc | exact Happend]. }
    destruct (get_default d "content" VNone) as [ | b | z | f | s | cs | cd] eqn:Hcv.
    1-5: apply repr_scalar in Hc; [|reflexivity]; rewrite Hc; simpl ref_of_scalar;
      cbv iota; apply Hplain; [simpl; rewrite Hdoc, Hcv; reflexivity | exact Happend].
    + apply repr_list in Hc as (lc & csx & Hcx & Hlc & Hnc & Hcs). rewrite Hcx.
      unfold bind_run at 1. unfold load at 1. rewrite Hnc.
      unfold bind_run at 1. rewrite (run_getitem h ln nd k (RObj ll) Hln Hk).
      assert (Hsrc : lookup "content" dx = Some (RObj lc)).
      { unfold items_get in Hcx. destruct (lookup "content" dx); [congruence | discriminate]. }
      unfold bind_run at 1. rewrite (run_getitem h l dx "content" (RObj lc) Hn Hsrc).
      rewrite (run_extend h ll accx csx Hll).
      exists csx. split; [reflexivity|].
      rewrite (merged_splice d cs Hdoc Hcv). assumption.
    + apply repr_dict in Hc as (lc & cdx & Hcx & Hlc & Hnc & Hcs). rewrite Hcx.
      apply Hplain; [simpl; now rewrite Hdoc, Hcv|]. rewrite <- Happend.
      unfold bind_run at 1. unfold load at 1. rewrite Hnc. reflexivity.
Qed.

(** ** The items of a root under construction *)

Lemma held_repr (n : nat) (h : store) (l : loc) (z : option loc) (v : value) (x : ref) :
  held n h l z v x -> repr n (List.length h) h v x.
Proof.
  intros (lo & hi & Hlo & Hhi & _ & _ & Hr). eapply repr_mono; [| |exact Hr]; lia.
Qed.

Lemma content_list_repr (n : nat) (h : store) (l : loc) (z : option loc)
    (v : value) (x : ref) :
  content_list n h l z v x -> repr n (List.length h) h v x.
Proof.
  intros (ll & cs & csx & hi & _ & -> & -> & Hn & _ & Hnth & Hhi & _ & Hall).
  apply repr_list. exists ll, csx.
  pose proof (nth_error_Some_lt _ _ _ Hnth).
  repeat split; try lia; [assumption|].
  eapply Forall2_repr_mono; [| |exact Hall]; lia.
Qed.

Lemma root_item_repr (n : nat) (h : store) (l : loc) (z : option loc)
    (d : dict) (dx : list (string * ref)) :
  Forall2 (root_item n h l z) d dx ->
  Forall2 (fun kv kx => fst kx = fst kv /\ repr n (List.length h) h (snd kv) (snd kx))
    d dx.
Proof.
  intros H. eapply Forall2_impl; [|exact H].
  intros kv kx [Hk [[_ Hc] | [_ Hh]]]; split; try assumption.
  - now apply content_list_repr in Hc.
  - now apply held_repr in Hh.
Qed.

(** The items stay what they are when the store changes at the root, or
    grows. *)
Lemma held_stable (n : nat) (h h' : store) (l : loc) (z : option loc)
    (v : value) (x : ref) :
  (forall l', n <= l' < List.length h -> l' <> l -> nth_error h' l' = nth_error h l') ->
  List.length h <= List.length h' ->
  held n h l z v x -> held n h' l z v x.
Proof.
  intros Hsame Hlen (lo & hi & Hlo & Hhi & Hl & Hz & Hr).
  exists lo, hi. repeat split; try assumption; try lia.
  apply (repr_stable lo hi h h'); [|assumption].
  intros l' Hl'. apply Hsame; lia.
Qed.

Lemma content_list_stable (n : nat) (h h' : store) (l : loc) (z : option loc)
    (v : value) (x : ref) :
  (forall l', n <= l' < List.length h -> l' <> l -> nth_error h' l' = nth_error h l') ->
  List.length h <= List.length h' ->
  content_list n h l z v x -> content_list n h' l z v x.
Proof.
  intros Hsame Hlen (ll & cs & csx & hi & Hz & Hv & Hx & Hn & Hne & Hnth & Hhi & Hl & Hall).
  pose proof (nth_error_Some_lt _ _ _ Hnth).
  exists ll, cs, csx, hi. repeat split; try assumption; try lia.
  - rewrite Hsame; [assumption | lia | assumption].
  - eapply Forall2_impl; [|exact Hall]. intros a b.
    apply repr_stable. intros l' Hl'. apply Hsame; lia.
Qed.

Lemma root_item_stable (n : nat) (h h' : store) (l : loc) (z : option loc)
    (kv : string * value) (kx : string * ref) :
  (forall l', n <= l' < List.length h -> l' <> l -> nth_error h' l' = nth_error h l') ->
  List.length h <= List.length h' ->
  root_item n h l z kv kx -> root_item n h' l z kv kx.
Proof.
  intros Hsame Hlen [Hk [[Hc Hcl] | [Hc Hh]]]; (split; [assumption|]).
  - left. split; [assumption|]. now apply (content_list_stable n h h').
  - right. split; [assumption|]. now apply (held_stable n h h').
Qed.

(** An item under another key does not go through a list made later. *)
Lemma root_item_later (n : nat) (h : store) (l ll : loc) (z : option loc)
    (kv : string * value) (kx : string * ref) :
  List.length h <= ll ->
  fst kv <> "content" ->
  root_item n h l z kv kx -> root_item n h l (Some ll) kv kx.
Proof.
  intros Hll Hne [Hk [[Hc _] | [Hc (lo & hi & Hlo & Hhi & Hl & _ & Hr)]]];
    [contradiction|].
  split; [assumption|]. right. split; [assumption|].
  exists lo, hi. repeat split; try assumption.
  intros ll' [= <-]. left. lia.
Qed.

Lemma Forall2_dict_set_key (R R' : string * value -> string * ref -> Prop)
    (k : string) (v : value) (x : ref) (d : dict) (dx : list (string * ref)) :
  (forall kv kx, R kv kx -> fst kx = fst kv) ->
  (forall kv kx, fst kv <> k -> R kv kx -> R' kv kx) ->
  R' (k, v) (k, x) ->
  NoDup (map fst d) ->
  Forall2 R d dx ->
  Forall2 R' (dict_set k v d) (items_set k x dx).
Proof.
  intros Hkey Hother Hnew Hnd Hall.
  induction Hall as [|[k1 v1] [k2 x1] d dx H1 Hrest IH]; simpl.
  - repeat constructor. assumption.
  - pose proof (Hkey _ _ H1) as Hk. simpl in Hk. subst k2.
    inversion Hnd as [|? ? Hnotin Hnd']; subst.
    destruct (String.eqb_spec k1 k) as [->|Hne].
    + constructor; [assumption|].
      clear IH Hnd Hnd'. simpl in Hnotin.
      induction Hrest as [|kv kx d dx H2 Hrest IH2]; constructor.
      * apply Hother; [|assumption]. intros E. apply Hnotin. left. assumption.
      * apply IH2. intros Hin. apply Hnotin. right. assumption.
    + constructor; [|now apply IH]. apply Hother; assumption.
Qed.

Lemma items_set_same_value (k : string) (x : ref) (dx : list (string * ref)) :
  lookup k dx = Some x -> items_set k x dx = dx.
Proof.
  induction dx as [|[k' x'] dx IH]; simpl; [discriminate|].
  destruct (k' =? k); [now intros [= ->] | intros H; now rewrite IH].
Qed.

(** The item under ['content'], on both sides. *)
Lemma root_item_content (n : nat) (h : store) (l : loc) (z : option loc)
    (d : dict) (dx : list (string * ref)) :
  Forall2 (root_item n h l z) d dx ->
  match dict_get "content" d with
  | Some v =>
      exists x,
        lookup "content" dx = Some x
        /\ (content_list n h l z v x
            \/ (isinstance_list v = false /\ held n h l z v x))
  | None => lookup "content" dx = None
  end.
Proof.
  intros H. induction H as [|[k v] [k' x] d dx [Hk Hi] _ IH]; simpl; [reflexivity|].
  simpl in Hk, Hi. subst k'.
  destruct (String.eqb_spec k "content") as [->|Hne]; [|exact IH].
  exists x. split; [reflexivity|].
  destruct Hi as [[_ Hc] | [Hc Hh]]; [now left | right]. split; auto.
Qed.

Lemma root_item_mono (n n' : nat) (h : store) (l : loc) (z : option loc)
    (kv : string * value) (kx : string * ref) :
  n' <= n -> root_item n h l z kv kx -> root_item n' h l z kv kx.
Proof.
  intros Hn [Hk [[Hc Hcl] | [Hc Hh]]]; (split; [assumption|]).
  - left. split; [assumption|].
    destruct Hcl as (ll & cs & csx & hi & H1 & H2 & H3 & H4 & H5).
    exists ll, cs, csx, hi. repeat split; try tauto. lia.
  - right. split; [assumption|].
    destruct Hh as (lo & hi & H1 & H2).
    exists lo, hi. split; [lia | assumption].
Qed.

Lemma sim_weaken_ok {A B} (n : nat) (R R' : store -> B -> A -> Prop)
    (c : run A) (h : store) (p : result B) :
  (forall h' b a, p = Ok b -> R h' b a -> R' h' b a) ->
  sim n R c h p -> sim n R' c h p.
Proof.
  intros HR (h' & out & Hrun & Hf & Hp). exists h', out.
  split; [assumption|]. split; [assumption|].
  destruct p as [b|e]; [|assumption].
  destruct Hp as (a & -> & Ha). exists a. split; [reflexivity|]. now apply HR.
Qed.

Lemma rooted_not_doc (n : nat) (h : store) (r : value) (y : ref) :
  is_doc r = false -> rooted n h r y.
Proof. intros H Hdoc. congruence. Qed.

Section LoopsInStore.

Variable m : dict.
Variable rec : ref -> run ref.

Lemma each_child_sim (hi ln ll : nat) (k : string) (nd : list (string * ref))
    (cs : list value) :
  hi <= ln -> ln < ll ->
  lookup k nd = Some (RObj ll) ->
  Forall (follows rec (transform m)) cs ->
  forall (xs : list ref) (h : store) (acc : list value) (accx : list ref),
    ll < List.length h ->
    nth_error h ln = Some (ODict nd) ->
    nth_error h ll = Some (OList accx) ->
    Forall2 (repr (S ll) (List.length h) h) acc accx ->
    Forall2 (repr 0 hi h) cs xs ->
    sim ll (fun h' rs _ =>
              exists rsx,
                nth_error h' ll = Some (OList rsx)
                /\ Forall2 (repr (S ll) (List.length h') h') rs rsx)
      (h_each_child rec ln k xs) h (transform_children m cs acc).
Proof.
  intros Hhi Hln Hk Hall. induction Hall as [|c cs Hc _ IH];
    intros xs h acc accx Hll Hnd Hn Hacc Hxs.
  - inversion Hxs; subst. simpl. apply sim_ret; [lia|]. eauto.
  - inversion Hxs as [|? x ? xs' Hx Hxs']; subst. simpl.
    eapply sim_bind.
    + eapply sim_weaken; [| |apply sim_frozen_post, (Hc h x hi); [lia | assumption]];
        [lia | intros h' b a H; exact H].
    + intros h1 y r _ _ [Hy Hf1]. cbv beta.
      pose proof Hf1 as (_ & Hlen1 & Hsame1).
      assert (Hnd1 : nth_error h1 ln = Some (ODict nd)) by (rewrite Hsame1; auto; lia).
      assert (Hn1 : nth_error h1 ll = Some (OList accx)) by (rewrite Hsame1; auto).
      destruct (merge_child_run (List.length h) ln ll k h1 nd accx r y Hnd1 Hk Hn1 Hy)
        as (more & Hrun & Hmore).
      set (h2 := set_nth ll (OList (accx ++ more)) h1) in *.
      assert (Hlen2 : List.length h2 = List.length h1) by apply set_nth_length.
      apply (sim_run ll _ _ _ h1 h2 tt); [exact Hrun | apply frozen_set_nth; lia|].
      rewrite merge_child_app. apply (IH xs' h2 (acc ++ merged r) (accx ++ more)).
      * lia.
      * unfold h2. rewrite nth_error_set_nth_other by lia. assumption.
      * apply nth_error_set_nth_same. lia.
      * rewrite Hlen2. apply Forall2_repr_set_nth; [lia|]. apply Forall2_app.
        -- exact (Forall2_repr_grow (List.length h) (S ll) (List.length h) h h1 acc accx
                    (le_n _) Hf1 Hacc).
        -- eapply Forall2_repr_mono; [| |exact Hmore]; lia.
      * eapply Forall2_impl; [|exact Hxs']. intros a b Hab.
        apply repr_set_nth_below; [lia|].
        apply (repr_frozen (List.length h) 0 hi h h1); [lia | assumption | assumption].
Qed.

(** What the item loop needs of the values of a dict: [rec] follows
    [transform] on each, and on the elements of each list. *)
Definition item_follows (kv : string * value) : Prop :=
  follows rec (transform m) (snd kv)
  /\ match snd kv with
     | VList cs => Forall (follows rec (transform m)) cs
     | _ => True
     end.

Lemma is_list_run (lo hi : nat) (h : store) (v : value) (x : ref) :
  repr lo hi h v x ->
  match v with
  | VList cs =>
      exists xs, h_is_list x h = (h, Returns (Some xs)) /\ Forall2 (repr lo hi h) cs xs
  | _ => h_is_list x h = (h, Returns None)
  end.
Proof.
  intros Hv.
  destruct v; try (apply repr_scalar in Hv; [subst x | reflexivity]; reflexivity).
  - apply repr_list in Hv as (l & xs' & -> & _ & Hn & Hall).
    exists xs'. split; [|assumption].
    unfold h_is_list, bind_run, load. now rewrite Hn.
  - apply repr_dict in Hv as (l & xs' & -> & _ & Hn & Hall).
    unfold h_is_list, bind_run, load. now rewrite Hn.
Qed.

Let item_rel (lo hi : nat) (h : store) : string * value -> string * ref -> Prop :=
  fun kv kx => fst kx = fst kv /\ repr lo hi h (snd kv) (snd kx).

Lemma item_rel_same (lo hi : nat) (h h' : store) (d : dict) (dx : list (string * ref)) :
  (forall l, lo <= l < hi -> nth_error h' l = nth_error h l) ->
  Forall2 (item_rel lo hi h) d dx -> Forall2 (item_rel lo hi h') d dx.
Proof.
  intros Hsame H. eapply Forall2_impl; [|exact H].
  intros a b [Hk Hab]. split; [assumption|]. now apply (repr_stable lo hi h h').
Qed.

Lemma item_rel_mono (lo hi lo' hi' : nat) (h : store) (d : dict) (dx : list (string * ref)) :
  lo' <= lo -> hi <= hi' ->
  Forall2 (item_rel lo hi h) d dx -> Forall2 (item_rel lo' hi' h) d dx.
Proof.
  intros Hlo Hhi H. eapply Forall2_impl; [|exact H].
  intros a b [Hk Hab]. split; [assumption|]. now apply (repr_mono lo hi).
Qed.

(** The dict under construction at [ln], after the item loop. *)
Let built (ln : nat) : store -> value -> unit -> Prop :=
  fun h' r _ =>
    exists d dx z,
      r = VDict d
      /\ nth_error h' ln = Some (ODict dx)
      /\ NoDup (map fst d)
      /\ Forall2 (root_item (S ln) h' ln z) d dx.

Lemma each_item_sim (hi ln : nat) (kvs : dict) :
  hi <= ln ->
  Forall item_follows kvs ->
  forall (kxs : list (string * ref)) (h : store) (new_node : dict)
         (ndx : list (string * ref)) (z : option loc),
    ln < List.length h ->
    nth_error h ln = Some (ODict ndx) ->
    NoDup (map fst new_node) ->
    (forall ll, z = Some ll -> ll < List.length h) ->
    Forall2 (root_item (S ln) h ln z) new_node ndx ->
    Forall2 (item_rel 0 hi h) kvs kxs ->
    sim ln (built ln) (h_each_item rec ln kxs) h (transform_items m kvs new_node).
Proof.
  intros Hhi Hall. induction Hall as [|[k v] kvs [Hv Hdeep] _ IH];
    intros kxs h new_node ndx z Hln Hnd Huniq Hz Hnew Hkxs.
  - inversion Hkxs; subst. simpl. apply sim_ret; [lia|].
    exists new_node, ndx, z. auto.
  - inversion Hkxs as [|? [k' x] ? kxs' [Hk Hx] Hkxs']; subst.
    simpl in Hk, Hx, Hv, Hdeep. subst k'.
    (* an item transformed by [rec] and stored under [k] *)
    assert (Hplain :
              (k = "content" -> isinstance_list v = false) ->
              sim ln (built ln)
                (_ <~ (tv <~ rec x ;; r_setitem ln k tv) ;; h_each_item rec ln kxs') h
                (tv <- transform m v ;; transform_items m kvs (dict_set k tv new_node))).
    { intros Hnolist. unfold bind_run at 1.
      change (fun h0 => match (tv <~ rec x ;; r_setitem ln k tv) h0 with
                        | (h', Returns a) => h_each_item rec ln kxs' h'
                        | (h', Raises e) => (h', Raises e)
                        | (h', Stuck) => (h', Stuck)
                        end)
        with (_ <~ (tv <~ rec x ;; r_setitem ln k tv) ;; h_each_item rec ln kxs').
      assert (Hassoc : forall h0,
                 (_ <~ (tv <~ rec x ;; r_setitem ln k tv) ;; h_each_item rec ln kxs') h0
                 = (tv <~ rec x ;; _ <~ r_setitem ln k tv ;; h_each_item rec ln kxs') h0).
      { intros h0. unfold bind_run. destruct (rec x h0) as [h' [a|e|]]; reflexivity. }
      destruct (sim_bind ln
                  (fun h' r y => repr (List.length h) (List.length h') h' r y
                                 /\ frozen (List.length h) h h')
                  (built ln)
                  (rec x)
                  (fun tv => _ <~ r_setitem ln k tv ;; h_each_item rec ln kxs')
                  h (transform m v)
                  (fun tv => transform_items m kvs (dict_set k tv new_node)))
        as (h' & out & Hrun & Hf & Hp).
      - eapply sim_weaken; [| |apply sim_frozen_post, (Hv h x hi); [lia | assumption]];
          [lia | intros h' b a H; exact H].
      - intros h1 y r Hr _ [Hy Hf1].
        pose proof Hf1 as (_ & Hlen1 & Hsame1).
        assert (Hnd1 : nth_error h1 ln = Some (ODict ndx)) by (rewrite Hsame1; auto).
        set (h2 := set_nth ln (ODict (items_set k y ndx)) h1).
        assert (Hlen2 : List.length h2 = List.length h1) by apply set_nth_length.
        assert (Hsame2 : forall l', S ln <= l' < List.length h -> l' <> ln ->
                                    nth_error h2 l' = nth_error h l').
        { intros l' Hl' Hne. unfold h2. rewrite nth_error_set_nth_other by lia.
          apply Hsame1. lia. }
        apply (sim_run ln _ _ _ h1 h2 tt);
          [exact (run_setitem h1 ln ndx k y Hnd1) | apply frozen_set_nth; lia|].
        apply (IH kxs' h2 (dict_set k r new_node) (items_set k y ndx) z).
        + lia.
        + apply nth_error_set_nth_same. lia.
        + now apply dict_set_unique.
        + intros ll Hll. specialize (Hz ll Hll). lia.
        + apply (Forall2_dict_set_key (root_item (S ln) h ln z)); try assumption.
          * intros kv kx H. exact (proj1 H).
          * intros kv kx _. apply root_item_stable; [exact Hsame2 | lia].
          * split; [reflexivity|]. right. simpl. split.
            -- intros Hc. specialize (Hnolist Hc). apply transform_kind in Hr.
               destruct r; try reflexivity. congruence.
            -- exists (List.length h), (List.length h1).
               repeat split; try lia.
               ++ intros ll Hll. specialize (Hz ll Hll). lia.
               ++ unfold h2. apply repr_set_nth; [lia | exact Hy].
        + apply (item_rel_same _ _ h1).
          { intros l Hl. apply nth_error_set_nth_other. lia. }
          apply (item_rel_same _ _ h); [|assumption].
          intros l Hl. apply Hsame1. lia.
      - exists h', out. rewrite Hassoc. auto. }
    cbn [h_each_item transform_items].
    destruct (String.eqb_spec k "content") as [->|Hne];
      [|apply Hplain; intros Hc; contradiction].
    pose proof (is_list_run 0 hi h v x Hx) as Hlist.
    destruct v as [ | b | z0 | f | s | cs | d].
    1-5, 7: (eapply sim_ext; [|apply Hplain; reflexivity]);
      unfold bind_run at 1 2; rewrite Hlist; reflexivity.
    clear Hplain. destruct Hlist as (xs & His & Hcs).
    (* a list under ['content']: a new list, filled by the content loop *)
    set (ll := List.length h).
    set (h1 := h ++ [OList []]).
    set (h2 := set_nth ln (ODict (items_set "content" (RObj ll) ndx)) h1).
    assert (Hnd1 : nth_error h1 ln = Some (ODict ndx)).
    { unfold h1. rewrite nth_error_alloc_old by lia. assumption. }
    assert (Hlen1 : List.length h1 = S ll).
    { unfold h1. rewrite length_app. simpl. unfold ll. lia. }
    assert (Hlen2 : List.length h2 = S ll).
    { unfold h2. rewrite set_nth_length. assumption. }
    assert (Hsame2 : forall l, l < ll -> l <> ln -> nth_error h2 l = nth_error h l).
    { intros l Hl Hneq. unfold h2.
      rewrite nth_error_set_nth_other by lia. apply nth_error_alloc_old. assumption. }
    assert (Hrun2 : (_ <~ (children <~ h_is_list x ;;
                           match children with
                           | Some children =>
                               fresh <~ alloc (OList []) ;;
                               _ <~ r_setitem ln "content" (RObj fresh) ;;
                               h_each_child rec ln "content" children
                           | None => tv <~ rec x ;; r_setitem ln "content" tv
                           end) ;; h_each_item rec ln kxs') h
                    = (_ <~ h_each_child rec ln "content" xs ;;
                       h_each_item rec ln kxs') h2).
    { unfold bind_run at 1 2. rewrite His. unfold bind_run at 1. unfold alloc.
      unfold bind_run at 1. fold h1. fold ll.
      rewrite (run_setitem h1 ln ndx "content" (RObj ll) Hnd1). fold h2.
      reflexivity. }
    assert (Hf02 : frozen ln h h2).
    { unfold frozen. rewrite Hlen2. split; [lia|]. split; [unfold ll; lia|].
      intros l Hl. apply Hsame2; unfold ll; lia. }
    assert (Hloop :
              sim ll (fun h' rs _ =>
                        exists rsx,
                          nth_error h' ll = Some (OList rsx)
                          /\ Forall2 (repr (S ll) (List.length h') h') rs rsx)
                (h_each_child rec ln "content" xs) h2 (transform_children m cs [])).
    { apply (each_child_sim hi ln ll "content" (items_set "content" (RObj ll) ndx) cs
               Hhi ltac:(unfold ll; lia) (lookup_items_set_same _ _ _) Hdeep
               xs h2 [] []);
        try assumption; try (unfold ll; lia).
      - unfold h2. apply nth_error_set_nth_same. lia.
      - unfold h2. rewrite nth_error_set_nth_other by (unfold ll; lia).
        unfold h1, ll. apply nth_error_alloc_new.
      - constructor.
      - eapply Forall2_impl; [|exact Hcs]. intros a b.
        apply repr_stable. intros l Hl. apply Hsame2; unfold ll; lia. }
    apply sim_frozen_post in Hloop.
    destruct (sim_bind ln
                (fun h' rs (_ : unit) =>
                   (exists rsx,
                       nth_error h' ll = Some (OList rsx)
                       /\ Forall2 (repr (S ll) (List.length h') h') rs rsx)
                   /\ frozen ll h2 h')
                (built ln)
                (h_each_child rec ln "content" xs)
                (fun _ => h_each_item rec ln kxs')
                h2 (transform_children m cs [])
                (fun cs' => transform_items m kvs
                              (dict_set "content" (VList cs') new_node)))
      as (h' & out & Hrun & Hf & Hp).
    { eapply sim_weaken; [| |exact Hloop]; [unfold ll; lia | intros ? ? ? H; exact H]. }
    { intros h3 [] cs' _ _ [(rsx & Hrsx & Hrs) Hf3].
      pose proof Hf3 as (_ & Hlen3 & Hsame3).
      apply (IH kxs' h3 (dict_set "content" (VList cs') new_node)
               (items_set "content" (RObj ll) ndx) (Some ll)).
      - lia.
      - rewrite Hsame3 by (unfold ll; lia). unfold h2.
        apply nth_error_set_nth_same. lia.
      - now apply dict_set_unique.
      - intros ? [= <-]. lia.
      - apply (Forall2_dict_set_key (root_item (S ln) h ln z)); try assumption.
        + intros kv kx H. exact (proj1 H).
        + intros kv kx Hkey Hitem.
          apply (root_item_stable (S ln) h h3).
          * intros l' Hl' Hneq. rewrite Hsame3 by (unfold ll; lia).
            apply Hsame2; unfold ll; lia.
          * unfold ll in *. lia.
          * apply (root_item_later (S ln) h ln ll z); [unfold ll; lia | assumption | assumption].
        + split; [reflexivity|]. left. split; [reflexivity|].
          exists ll, cs', rsx, (List.length h3). simpl.
          repeat split; try assumption; try (unfold ll; lia).
      - apply (item_rel_same _ _ h); [|exact Hkxs'].
        intros l Hl. rewrite Hsame3 by (unfold ll; lia). apply Hsame2; unfold ll; lia. }
    eapply sim_ext; [exact Hrun2|].
    exists h', out. split; [exact Hrun|].
    split; [eapply frozen_trans; eauto | exact Hp].
Qed.

End LoopsInStore.

(** ** [transform] on the store *)

Section TransformInStore.

Variable m : dict.
Hypothesis urls : scalar_urls m = true.

Let m' := refs_of_mapping m.
Let fresh (n : nat) : store -> value -> ref -> Prop :=
  fun h' r y => repr n (List.length h') h' r y.

Lemma media_paragraph_follows (v : value) :
  follows (h_media_paragraph m') (media_paragraph m) v.
Proof.
  intros h x hi Hhi Hx. exact (media_paragraph_sim m urls (List.length h) hi h v x
                                 (le_n _) Hhi Hx).
Qed.

Lemma list_branch_sim (rec : ref -> run ref) (hi l : nat) (h : store)
    (vs : list value) (xs : list ref) :
  hi <= List.length h ->
  Forall (follows rec (transform m)) vs ->
  Forall2 (repr 0 hi h) vs xs ->
  sim (List.length h) (fresh (List.length h))
    (out <~ alloc (OList []) ;; _ <~ h_each rec out xs ;; ret (RObj out)) h
    (transform m (VList vs)).
Proof.
  intros Hhi Hall Hxs. rewrite transform_list_eq, <- collect_transform_list.
  set (lp := List.length h). set (h1 := h ++ [OList []]).
  assert (Hlen1 : List.length h1 = S lp).
  { unfold h1. rewrite length_app. simpl. unfold lp. lia. }
  apply (sim_run lp _ _ _ h h1 lp); [reflexivity | apply frozen_alloc; lia|].
  assert (Hloop := each_sim rec (transform m) hi lp vs Hhi Hall xs h1 [] []
                     ltac:(lia) (nth_error_alloc_new h (OList [])) (Forall2_nil _)
                     (Forall2_repr_frozen lp 0 hi h h1 vs xs Hhi
                        (frozen_alloc lp h (OList []) (le_n _)) Hxs)).
  eapply (sim_bind lp _ _ _ _ h1 _ (fun ys => Ok (VList ys))); [exact Hloop|].
  intros h2 [] ys _ Hf2 (rsx & Hrsx & Hrs). cbv beta.
  apply sim_ret; [destruct Hf2; lia|].
  unfold fresh. apply repr_list. exists lp, rsx.
  pose proof (nth_error_Some_lt _ _ _ Hrsx).
  repeat split; try lia; [assumption|].
  eapply Forall2_repr_mono; [| |exact Hrs]; lia.
Qed.

Lemma generic_branch_sim (rec : ref -> run ref) (hi : nat) (h : store)
    (items : dict) (dx : list (string * ref)) :
  hi <= List.length h ->
  Forall (item_follows m rec) items ->
  Forall2 (fun kv kx => fst kx = fst kv /\ repr 0 hi h (snd kv) (snd kx)) items dx ->
  sim (List.length h) (fresh_root (List.length h))
    (new_node <~ alloc (ODict []) ;; _ <~ h_each_item rec new_node dx ;;
     ret (RObj new_node)) h
    (transform_items m items []).
Proof.
  intros Hhi Hall Hitems.
  set (ln := List.length h). set (h1 := h ++ [ODict []]).
  assert (Hlen1 : List.length h1 = S ln).
  { unfold h1. rewrite length_app. simpl. unfold ln. lia. }
  apply (sim_run ln _ _ _ h h1 ln); [reflexivity | apply frozen_alloc; lia|].
  assert (Hitems1 : Forall2 (fun kv kx => fst kx = fst kv
                                          /\ repr 0 hi h1 (snd kv) (snd kx)) items dx).
  { eapply Forall2_impl; [|exact Hitems]. intros a b [Hk Hab]. split; [assumption|].
    exact (repr_frozen ln 0 hi h h1 _ _ Hhi (frozen_alloc ln h _ (le_n _)) Hab). }
  assert (Hloop := each_item_sim m rec hi ln items Hhi Hall dx h1 [] [] None
                     ltac:(lia) (nth_error_alloc_new h (ODict [])) (NoDup_nil _)
                     ltac:(discriminate) (Forall2_nil _) Hitems1).
  eapply sim_weaken; [apply le_n | |
    apply (sim_post ln _ (fresh_root ln) (fun _ : unit => RObj ln) _ h1 _ Hloop)].
  - intros h' b a H. exact H.
  - intros h' r [] (d & dx' & z & -> & Hn & Huniq & Hd).
    pose proof (nth_error_Some_lt _ _ _ Hn). split.
    + apply repr_dict. exists ln, dx'.
      repeat split; try lia; [assumption|].
      apply root_item_repr in Hd.
      eapply Forall2_impl; [|exact Hd]. intros a b [Hk Hab]. split; [assumption|].
      eapply repr_mono; [| |exact Hab]; lia.
    + intros _. exists d, ln. repeat split; try lia.
      exists dx', z. repeat split; try assumption.
      eapply Forall2_impl; [|exact Hd]. intros a b. apply root_item_mono. lia.
Qed.

Let items_rel (hi : nat) (h : store) (items : dict) (dx : list (string * ref)) : Prop :=
  Forall2 (fun kv kx => fst kx = fst kv /\ repr 0 hi h (snd kv) (snd kx)) items dx.

Lemma items_rel_grow (n hi : nat) (h h' : store) (items : dict)
    (dx : list (string * ref)) :
  hi <= n -> frozen n h h' ->
  items_rel hi h items dx -> items_rel (List.length h') h' items dx.
Proof.
  intros Hhi Hf H. unfold items_rel in *. eapply Forall2_impl; [|exact H].
  intros a b [Hk Hab]. split; [assumption|]. now apply (repr_grow n 0 hi h h').
Qed.

Lemma media_single_branch_sim (hi : nat) (h : store)
    (items : dict) (dx : list (string * ref)) :
  hi <= List.length h ->
  items_rel hi h items dx ->
  sim (List.length h) (fresh (List.length h))
    (t <~ r_truthy (items_get dx "content" RNone) ;;
     media <~ (if t then
                 e <~ alloc (ODict []) ;;
                 dl <~ alloc (OList [RObj e]) ;;
                 r_subscript0 (items_get dx "content" (RObj dl))
               else
                 e <~ alloc (ODict []) ;;
                 ret (RObj e)) ;;
     h_media_paragraph m' media) h
    (media <- (if truthy (get_default items "content" VNone)
               then subscript0 (get_default items "content" (VList [VDict []]))
               else Ok (VDict [])) ;;
     media_paragraph m media).
Proof.
  intros Hhi Hitems. set (n := List.length h).
  eapply sim_step;
    [apply (sim_truthy n 0 hi h (get_default items "content" VNone)
              (items_get dx "content" RNone) tt (le_n _));
     apply repr_items_get; [exact Hitems | reflexivity] |].
  intros h' t _ [-> ->].
  set (h1 := h ++ [ODict []]).
  assert (Hlen1 : List.length h1 = S n).
  { unfold h1. rewrite length_app. simpl. unfold n. lia. }
  assert (Hf1 : frozen n h h1) by (apply frozen_alloc; unfold n; lia).
  destruct (truthy (get_default items "content" VNone)).
  - set (h2 := h1 ++ [OList [RObj n]]).
    assert (Hlen2 : List.length h2 = S (S n)).
    { unfold h2. rewrite length_app. simpl. lia. }
    assert (Hf2 : frozen n h h2).
    { eapply frozen_trans; [exact Hf1|]. apply frozen_alloc. lia. }
    eapply sim_bind.
    + apply (sim_run n _ _ _ h h1 n); [reflexivity | exact Hf1 |].
      apply (sim_run n _ _ _ h1 h2 (S n));
        [unfold alloc; now rewrite Hlen1 | apply frozen_alloc; lia |].
      apply (sim_subscript0 n 0 (List.length h2) h2); [lia|].
      apply repr_items_get; [exact (items_rel_grow n hi h h2 items dx Hhi Hf2 Hitems)|].
      apply repr_list. exists (S n), [RObj n]. rewrite Hlen2.
      repeat split; try lia.
      * unfold h2. rewrite <- Hlen1. apply nth_error_alloc_new.
      * repeat constructor. apply repr_dict. exists n, [].
        repeat split; try lia; [|constructor].
        unfold h2. rewrite nth_error_alloc_old by lia. apply nth_error_alloc_new.
    + intros h' media media_v _ _ [-> Hmedia]. cbv beta.
      exact (media_paragraph_sim m urls n (List.length h2) h2 media_v media
               ltac:(lia) (le_n _) Hmedia).
  - eapply sim_bind.
    + apply (sim_run n _ _ _ h h1 n); [reflexivity | exact Hf1 |].
      apply (sim_ret n (fun h' r y => h' = h1 /\ repr 0 (List.length h1) h1 r y));
        [lia|]. split; [reflexivity|].
      rewrite Hlen1. apply repr_empty_dict_alloc.
    + intros h' media media_v _ _ [-> Hmedia]. cbv beta.
      exact (media_paragraph_sim m urls n (List.length h1) h1 media_v media
               ltac:(lia) (le_n _) Hmedia).
Qed.

Lemma media_group_tail_sim (hi lp : nat) (h : store)
    (medias_v : list value) (medias : list ref) :
  hi <= lp -> lp < List.length h ->
  nth_error h lp = Some (OList []) ->
  Forall2 (repr 0 hi h) medias_v medias ->
  sim lp (fresh_root lp)
    (_ <~ h_each_media m' lp medias ;;
     t' <~ r_truthy (RObj lp) ;;
     if negb t' then build (t_paragraph [t_text_node (RStr "")])
     else build (TDict [("type", t_str "doc"); ("version", TRef (RInt 1));
                        ("content", TRef (RObj lp))])) h
    (paragraphs <- media_paragraphs m medias_v ;;
     Ok (match paragraphs with
         | [] => empty_paragraph
         | _ => doc_wrapper paragraphs
         end)).
Proof.
  intros Hhi Hlp Hn Hmedias.
  rewrite <- collect_media_paragraphs.
  eapply sim_bind.
  - eapply sim_ext; [apply (f_equal (fun c => c h)), h_each_media_eq with (m := m')|].
    apply (each_sim (h_media_paragraph m') (media_paragraph m) hi lp medias_v Hhi
             (proj2 (Forall_forall _ _) (fun v _ => media_paragraph_follows v))
             medias h [] [] Hlp Hn (Forall2_nil _) Hmedias).
  - intros h1 [] ps _ Hf1 (rsx & Hrsx & Hrs). cbv beta. simpl app in Hrs.
    pose proof (nth_error_Some_lt _ _ _ Hrsx) as Hlt.
    apply (sim_run lp _ _ _ h1 h1 (match rsx with [] => false | _ => true end)).
    { unfold r_truthy, bind_run, load. rewrite Hrsx. destruct rsx; reflexivity. }
    { apply frozen_refl. lia. }
    destruct Hrs as [|p y ps rsx Hp Hrs]; simpl negb; cbv iota.
    + eapply sim_weaken; [apply le_n | |apply (sim_build lp lp lp h1); try lia].
      * intros h' b a (-> & _ & H). split; [exact H | now apply rooted_not_doc].
      * solve_tree_repr.
    + set (lw := List.length h1).
      set (wx := [("type", RStr "doc"); ("version", RInt 1); ("content", RObj lp)]).
      set (h2 := h1 ++ [ODict wx]).
      assert (Hlen2 : List.length h2 = S lw).
      { unfold h2. rewrite length_app. simpl. unfold lw. lia. }
      assert (Hf2 : frozen lw h1 h2) by (apply frozen_alloc; unfold lw; lia).
      assert (Hps : Forall2 (repr (S lp) lw h2) (p :: ps) (y :: rsx)).
      { apply (Forall2_repr_frozen lw (S lp) lw h1 h2); [lia | assumption|].
        now constructor. }
      exists h2, (Returns (RObj lw)). split; [reflexivity|].
      split; [eapply frozen_weaken; [|exact Hf2]; unfold lw; lia|].
      exists (RObj lw). split; [reflexivity|].
      assert (Hlp2 : nth_error h2 lp = Some (OList (y :: rsx))).
      { unfold h2. rewrite nth_error_alloc_old by assumption. assumption. }
      assert (Hlw2 : nth_error h2 lw = Some (ODict wx)) by apply nth_error_alloc_new.
      split.
      * apply repr_dict. exists lw, wx. rewrite Hlen2.
        repeat split; try (unfold lw; lia); [assumption|].
        repeat constructor; simpl.
        change (repr lp (S lw) h2 (VList (p :: ps)) (RObj lp)).
        apply repr_list. exists lp, (y :: rsx).
        repeat split; try (unfold lw; lia); [assumption|].
        eapply Forall2_repr_mono; [| |exact Hps]; lia.
      * intros _. exists [("type", VStr "doc"); ("version", VInt 1);
                          ("content", VList (p :: ps))], lw.
        split; [reflexivity|]. split; [reflexivity|].
        split; [rewrite Hlen2; unfold lw; lia|].
        exists wx, (Some lp). split; [assumption|]. split.
        { repeat constructor; simpl; intuition discriminate. }
        assert (Hscalar : forall (k : string) (v : value),
                   k <> "content" -> scalar v = true ->
                   root_item lp h2 lw (Some lp) (k, v) (k, ref_of_scalar v)).
        { intros k v Hk Hv. split; [reflexivity|]. right. simpl.
          split; [intros; contradiction|].
          exists (S lw), (S lw). rewrite Hlen2.
          repeat split; try (unfold lw; lia).
          - intros ll [= <-]. unfold lw. lia.
          - now apply repr_scalar_ref. }
        constructor; [apply (Hscalar "type" (VStr "doc")); [discriminate | reflexivity]|].
        constructor; [apply (Hscalar "version" (VInt 1)); [discriminate | reflexivity]|].
        constructor; [|constructor].
        split; [reflexivity|]. left. split; [reflexivity|].
        exists lp, (p :: ps), (y :: rsx), lw. simpl.
        repeat split; try assumption; try (unfold lw; lia).
Qed.

Lemma media_group_branch_sim (hi : nat) (h : store)
    (items : dict) (dx : list (string * ref)) :
  hi <= List.length h ->
  items_rel hi h items dx ->
  sim (List.length h) (fresh_root (List.length h))
    (paragraphs <~ alloc (OList []) ;;
     e <~ alloc (OList []) ;;
     t <~ r_truthy (items_get dx "content" (RObj e)) ;;
     it <~ (if t then ret (items_get dx "content" (RObj e))
            else e' <~ alloc (OList []) ;; ret (RObj e')) ;;
     medias <~ r_iterate it ;;
     _ <~ h_each_media m' paragraphs medias ;;
     t' <~ r_truthy (RObj paragraphs) ;;
     if negb t' then build (t_paragraph [t_text_node (RStr "")])
     else build (TDict [("type", t_str "doc"); ("version", TRef (RInt 1));
                        ("content", TRef (RObj paragraphs))])) h
    (medias <- iterate (py_or (get_default items "content" (VList [])) (VList [])) ;;
     paragraphs <- media_paragraphs m medias ;;
     Ok (match paragraphs with
         | [] => empty_paragraph
         | _ => doc_wrapper paragraphs
         end)).
Proof.
  intros Hhi Hitems. set (lp := List.length h).
  set (h1 := h ++ [OList []]). set (h2 := h1 ++ [OList []]).
  assert (Hlen1 : List.length h1 = S lp).
  { unfold h1. rewrite length_app. simpl. unfold lp. lia. }
  assert (Hlen2 : List.length h2 = S (S lp)).
  { unfold h2. rewrite length_app. simpl. lia. }
  assert (Hf1 : frozen lp h h1) by (apply frozen_alloc; unfold lp; lia).
  assert (Hf2 : frozen lp h h2).
  { eapply frozen_trans; [exact Hf1|]. apply frozen_alloc. lia. }
  assert (Hlp2 : nth_error h2 lp = Some (OList [])).
  { unfold h2. rewrite nth_error_alloc_old by lia. apply nth_error_alloc_new. }
  apply (sim_run lp _ _ _ h h1 lp); [reflexivity | exact Hf1 |].
  apply (sim_run lp _ _ _ h1 h2 (S lp));
    [unfold alloc; now rewrite Hlen1 | apply frozen_alloc; lia |].
  set (c_v := get_default items "content" (VList [])).
  set (c := items_get dx "content" (RObj (S lp))).
  assert (Hc : repr 0 (List.length h2) h2 c_v c).
  { apply repr_items_get; [exact (items_rel_grow lp hi h h2 items dx Hhi Hf2 Hitems)|].
    apply repr_list. exists (S lp), []. rewrite Hlen2.
    repeat split; try lia; [|constructor].
    unfold h2. rewrite <- Hlen1. apply nth_error_alloc_new. }
  eapply sim_step; [apply (sim_truthy lp 0 (List.length h2) h2 c_v c tt); [lia | exact Hc]|].
  intros h' t _ [-> ->]. unfold py_or. fold c_v.
  destruct (truthy c_v) eqn:Ht.
  - apply (sim_run lp _ _ _ h2 h2 c); [reflexivity | apply frozen_refl; lia|].
    assert (Hc' : repr 0 hi h2 c_v c).
    { pose proof (repr_lookup 0 hi h items dx "content" Hitems) as Hl.
      unfold c_v, c, get_default, items_get in *.
      destruct (dict_get "content" items) as [v|].
      - destruct Hl as [x [-> Hx]].
        exact (repr_frozen lp 0 hi h h2 v x Hhi Hf2 Hx).
      - discriminate. }
    eapply sim_bind; [apply (sim_iterate lp 0 hi h2 c_v c); [lia | exact Hc']|].
    intros h' medias medias_v _ _ [-> Hmedias]. cbv beta.
    apply (media_group_tail_sim hi lp h2 medias_v medias); try assumption; lia.
  - set (h3 := h2 ++ [OList []]).
    assert (Hlen3 : List.length h3 = S (S (S lp))).
    { unfold h3. rewrite length_app. simpl. lia. }
    apply (sim_run lp _ _ _ h2 h3 (RObj (S (S lp))));
      [unfold bind_run, alloc, ret; now rewrite Hlen2 | apply frozen_alloc; lia |].
    apply (sim_run lp _ _ _ h3 h3 []).
    { unfold r_iterate, bind_run, load. unfold h3 at 1. rewrite <- Hlen2.
      now rewrite nth_error_alloc_new. }
    { apply frozen_refl. lia. }
    simpl bind.
    apply (media_group_tail_sim hi lp h3 [] []); try assumption; try lia.
    + unfold h3. rewrite nth_error_alloc_old by lia. assumption.
    + constructor.
Qed.

(** One step of [transform] on the store, given that the recursive calls
    follow [transform] on the children. *)
Lemma transform_step_root_sim (rec : ref -> run ref) (t : value) :
  match t with
  | VList vs => Forall (follows rec (transform m)) vs
  | VDict items => Forall (item_follows m rec) items
  | _ => True
  end ->
  follows_root (h_transform_step m' rec) (transform m) t.
Proof.
  intros Hrec h x hi Hhi Hx.
  destruct t as [ | b | z | f | s | vs | items].
  1-5: apply repr_scalar in Hx; [subst x | reflexivity];
    apply sim_ret; [lia|];
    (split; [now apply repr_scalar_ref | now apply rooted_not_doc]).
  - apply repr_list in Hx as (l & xs & -> & Hl & Hn & Hxs).
    eapply sim_ext; [unfold h_transform_step, bind_run at 1, load; now rewrite Hn|].
    eapply sim_weaken_ok; [|exact (list_branch_sim rec hi l h vs xs Hhi Hrec Hxs)].
    intros h' b a Hb H. split; [exact H|]. apply rooted_not_doc.
    apply transform_kind in Hb. destruct b; try reflexivity. discriminate.
  - apply repr_dict in Hx as Hd. destruct Hd as (l & dx & -> & Hl & Hn & Hitems).
    assert (Hty : forall s, r_eq_str (items_get dx "type" RNone) s
                            = eq_str (get_default items "type" VNone) s).
    { intros s. apply (repr_eq_str 0 hi h).
      apply repr_items_get; [exact Hitems | reflexivity]. }
    rewrite transform_dict_eq. cbv zeta.
    eapply sim_ext.
    { unfold h_transform_step, bind_run at 1, load. rewrite Hn. cbv zeta.
      rewrite !Hty. reflexivity. }
    destruct (eq_str (get_default items "type" VNone) "mediaSingle").
    { eapply sim_weaken_ok; [|exact (media_single_branch_sim hi h items dx Hhi Hitems)].
      intros h' b a Hb H. split; [exact H|]. apply rooted_not_doc.
      apply bind_Ok in Hb as (media & _ & Hb).
      exact (media_paragraph_not_doc m media b Hb). }
    destruct (eq_str (get_default items "type" VNone) "mediaGroup").
    { exact (media_group_branch_sim hi h items dx Hhi Hitems). }
    destruct (eq_str (get_default items "type" VNone) "media").
    { eapply sim_weaken_ok;
        [|exact (media_paragraph_sim m urls (List.length h) hi h (VDict items) (RObj l)
                   (le_n _) Hhi Hx)].
      intros h' b a Hb H. split; [exact H|]. apply rooted_not_doc.
      exact (media_paragraph_not_doc m (VDict items) b Hb). }
    exact (generic_branch_sim rec hi h items dx Hhi Hrec Hitems).
Qed.

Lemma follows_root_follows (f : ref -> run ref) (g : value -> result value) (v : value) :
  follows_root f g v -> follows f g v.
Proof.
  intros H h x hi Hhi Hx.
  eapply sim_weaken; [apply le_n | |exact (H h x hi Hhi Hx)].
  intros h' b a [Hr _]. exact Hr.
Qed.

Lemma transform_step_sim (rec : ref -> run ref) (t : value) :
  match t with
  | VList vs => Forall (follows rec (transform m)) vs
  | VDict items => Forall (item_follows m rec) items
  | _ => True
  end ->
  follows (h_transform_step m' rec) (transform m) t.
Proof. intros H. now apply follows_root_follows, transform_step_root_sim. Qed.

Lemma height_list_elem (v : value) (vs : list value) :
  In v vs -> height v < height (VList vs).
Proof.
  simpl. induction vs as [|a vs IH]; simpl; intros Hin; [contradiction|].
  destruct Hin as [->|Hin]; [lia|]. specialize (IH Hin). lia.
Qed.

Lemma height_dict_value (kv : string * value) (items : dict) :
  In kv items -> height (snd kv) < height (VDict items).
Proof.
  simpl. induction items as [|a items IH]; simpl; intros Hin; [contradiction|].
  destruct Hin as [->|Hin]; [lia|]. specialize (IH Hin). lia.
Qed.

(** With fuel above the height of the tree, [h_transform] follows
    [transform]. *)
Lemma transform_sim (t : value) :
  forall fuel, height t < fuel -> follows (h_transform fuel m') (transform m) t.
Proof.
  induction t as [ | b | z | f | s | vs IH | items IH] using value_deep_ind;
    intros [|fuel] Hfuel; try lia; simpl h_transform;
      apply transform_step_sim; try exact I.
  - rewrite Forall_forall in *. intros v Hin. apply (IH v Hin).
    pose proof (height_list_elem v vs Hin). lia.
  - rewrite Forall_forall in *. intros kv Hin. destruct (IH kv Hin) as [IHv IHdeep].
    pose proof (height_dict_value kv items Hin) as Hkv. split.
    + apply IHv. lia.
    + destruct (snd kv) as [ | | | | | cs | ] eqn:E; try exact I.
      rewrite Forall_forall in *. intros c Hc. apply (IHdeep c Hc).
      pose proof (height_list_elem c cs Hc). lia.
Qed.

Lemma follows_children (t : value) (fuel : nat) :
  height t < S fuel ->
  match t with
  | VList vs => Forall (follows (h_transform fuel m') (transform m)) vs
  | VDict items => Forall (item_follows m (h_transform fuel m')) items
  | _ => True
  end.
Proof.
  intros Hfuel. destruct t as [ | b | z | f | s | vs | items]; try exact I.
  - rewrite Forall_forall. intros v Hin. apply transform_sim.
    pose proof (height_list_elem v vs Hin). lia.
  - rewrite Forall_forall. intros kv Hin.
    pose proof (height_dict_value kv items Hin) as Hkv. split.
    + apply transform_sim. lia.
    + destruct (snd kv) as [ | | | | | cs | ] eqn:E; try exact I.
      rewrite Forall_forall. intros c Hc. apply transform_sim.
      pose proof (height_list_elem c cs Hc). lia.
Qed.

(** At the root, [h_transform] leaves a dict the post-pass can append to. *)
Lemma transform_root_sim (t : value) (fuel : nat) :
  height t < fuel -> follows_root (h_transform fuel m') (transform m) t.
Proof.
  destruct fuel as [|fuel]; [lia|]. intros Hfuel. simpl h_transform.
  now apply transform_step_root_sim, follows_children.
Qed.

End TransformInStore.

(** ** The post-pass on the store *)

Lemma any_truthy_run (m : dict) (h : store) :
  scalar_urls m = true ->
  h_any_truthy (map snd (refs_of_mapping m)) h
  = (h, Returns (truthy (VList (filter truthy (map snd m))))).
Proof.
  intros Hm. induction m as [|[k v] m IH]; [reflexivity|].
  simpl in Hm. apply andb_prop in Hm as [Hv Hm]. simpl.
  unfold bind_run.
  rewrite (repr_truthy 0 0 h v (ref_of_scalar v) (repr_scalar_ref 0 0 h v Hv)).
  destruct (truthy v); [reflexivity | now apply IH].
Qed.

Lemma run_append_raises (lo hi : nat) (h : store) (v : value) (x y : ref) :
  repr lo hi h v x -> isinstance_list v = false ->
  r_append x y h = (h, Raises AttributeError).
Proof.
  intros Hv Hl.
  destruct v; try discriminate;
    try (apply repr_scalar in Hv; [subst x | reflexivity]; reflexivity).
  apply repr_dict in Hv as (l & xs & -> & _ & Hn & _).
  unfold r_append, bind_run, load. now rewrite Hn.
Qed.

(** The list comprehension: one [listItem] per entry of the mapping,
    appended to the list at [out]. *)
Lemma attachment_items_run (out : loc) (entries : dict) :
  scalar_urls entries = true ->
  forall (h : store) (acc : list value) (accx : list ref),
    out < List.length h ->
    nth_error h out = Some (OList accx) ->
    Forall2 (repr (S out) (List.length h) h) acc accx ->
    exists h' rsx,
      h_attachment_items out (refs_of_mapping entries) h = (h', Returns tt)
      /\ frozen out h h'
      /\ nth_error h' out = Some (OList rsx)
      /\ Forall2 (repr (S out) (List.length h') h')
           (acc ++ map (fun entry => attachment_item (fst entry) (snd entry)) entries)
           rsx.
Proof.
  induction entries as [|[k v] entries IH]; intros Hm h acc accx Hout Hn Hacc.
  - exists h, accx. rewrite app_nil_r.
    repeat split; try assumption; try lia.
  - simpl in Hm. apply andb_prop in Hm as [Hv Hm].
    destruct (build_spec
                (TDict [("type", t_str "listItem");
                        ("content",
                         TList [t_paragraph
                                  [t_linked_text_node (RStr k) (ref_of_scalar v)]])])
                (S out) (S out) h (attachment_item k v)) as (h1 & y & Hrun & Hf1 & Hy);
      [lia | lia | unfold t_paragraph, t_linked_text_node, t_str; solve_tree_repr |].
    pose proof Hf1 as (_ & Hlen1 & Hsame1).
    assert (Hn1 : nth_error h1 out = Some (OList accx)) by (rewrite Hsame1; auto).
    set (h2 := set_nth out (OList (accx ++ [y])) h1).
    assert (Hlen2 : List.length h2 = List.length h1) by apply set_nth_length.
    destruct (IH Hm h2 (acc ++ [attachment_item k v]) (accx ++ [y]))
      as (h' & rsx & Hrun' & Hf' & Hn' & Hall').
    + lia.
    + apply nth_error_set_nth_same. lia.
    + rewrite Hlen2. apply Forall2_repr_set_nth; [lia|]. apply Forall2_app.
      * exact (Forall2_repr_grow (List.length h) (S out) (List.length h) h h1 acc accx
                 (le_n _) Hf1 Hacc).
      * repeat constructor. assumption.
    + exists h', rsx. split; [|split; [|split]].
      * unfold refs_of_mapping. cbn [h_attachment_items map fst snd].
        fold (refs_of_mapping entries). unfold bind_run at 1. rewrite Hrun.
        unfold bind_run at 1. rewrite (run_append h1 out accx y Hn1). exact Hrun'.
      * eapply frozen_trans; [eapply frozen_weaken; [|exact Hf1]; lia|].
        eapply frozen_trans; [|exact Hf']. apply frozen_set_nth; lia.
      * assumption.
      * simpl. rewrite <- app_assoc in Hall'. exact Hall'.
Qed.

Lemma post_pass_value (d : dict) (cs : list value) (al : value) :
  dict_get "content" d = Some (VList cs) ->
  (c1 <- list_append (get_default d "content" VNone) attachments_heading ;;
   c2 <- list_append (get_default (dict_set "content" c1 d) "content" VNone) al ;;
   Ok (VDict (dict_set "content" c2 (dict_set "content" c1 d))))
  = Ok (VDict (dict_set "content" (VList (cs ++ [attachments_heading; al])) d)).
Proof.
  intros H. unfold get_default at 1. rewrite H. simpl.
  unfold get_default. rewrite dict_get_set_same. simpl.
  now rewrite dict_set_set, <- app_assoc.
Qed.

(** The two appends, on a root whose content list is at [lt]. *)
Lemma trailer_appends (n : nat) (h : store) (l lt : loc) (d : dict)
    (dx : list (string * ref)) (cs : list value) (v_al : value) (x_al : ref) :
  n <= l < List.length h ->
  nth_error h l = Some (ODict dx) ->
  NoDup (map fst d) ->
  Forall2 (root_item n h l (Some lt)) d dx ->
  dict_get "content" d = Some (VList cs) ->
  held n h l (Some lt) v_al x_al ->
  sim n (fun h' r y => repr n (List.length h') h' r y)
    (heading <~ build (t_paragraph [t_text_node (RStr "Attachments:")]) ;;
     _ <~ r_append (RObj lt) heading ;;
     target' <~ r_getitem l "content" ;;
     _ <~ r_append target' x_al ;;
     ret (RObj l)) h
    (Ok (VDict (dict_set "content" (VList (cs ++ [attachments_heading; v_al])) d))).
Proof.
  intros Hl Hnth Huniq Hitems Hget Hal.
  pose proof (root_item_content n h l (Some lt) d dx Hitems) as Hc. rewrite Hget in Hc.
  destruct Hc as (x & Hlook & [Hcl | [Hnl _]]); [|discriminate].
  destruct Hcl as (ll & cs0 & csx & hi & Hz & Hv & Hx & Hnll & Hne & Hnlt & Hhi & Hav & Hcs).
  injection Hz as <-. injection Hv as <-. subst x.
  pose proof (nth_error_Some_lt _ _ _ Hnlt) as Hlt.
  destruct (build_spec (t_paragraph [t_text_node (RStr "Attachments:")])
              (List.length h) (List.length h) h attachments_heading)
    as (h6 & hd & Hrun6 & Hf6 & Hhd);
    [lia | lia | unfold t_paragraph, t_text_node, t_str; solve_tree_repr |].
  pose proof Hf6 as (_ & Hlen6 & Hsame6).
  set (h7 := set_nth lt (OList (csx ++ [hd])) h6).
  set (h8 := set_nth lt (OList ((csx ++ [hd]) ++ [x_al])) h7).
  assert (Hlen7 : List.length h7 = List.length h6) by apply set_nth_length.
  assert (Hlen8 : List.length h8 = List.length h6).
  { unfold h8. now rewrite set_nth_length. }
  assert (Hsame8 : forall l', l' < List.length h -> l' <> lt ->
                              nth_error h8 l' = nth_error h l').
  { intros l' Hl' Hneq. unfold h8, h7.
    rewrite !nth_error_set_nth_other by lia. now apply Hsame6. }
  assert (Hn6 : nth_error h6 lt = Some (OList csx)) by (rewrite Hsame6; auto).
  assert (Hn7 : nth_error h7 lt = Some (OList (csx ++ [hd]))).
  { apply nth_error_set_nth_same. lia. }
  assert (Hl7 : nth_error h7 l = Some (ODict dx)).
  { unfold h7. rewrite nth_error_set_nth_other by lia. rewrite Hsame6; [assumption | lia]. }
  assert (Hheld : forall v x, held n h l (Some lt) v x ->
                              repr n (List.length h8) h8 v x).
  { intros v x (lo & hi' & Hlo & Hhi' & _ & Hap & Hr).
    eapply repr_mono; [| |apply (repr_stable lo hi' h h8); [|exact Hr]]; try lia.
    intros l' Hl'. apply Hsame8; [lia|]. destruct (Hap lt eq_refl); lia. }
  exists h8, (Returns (RObj l)). split; [|split].
  - unfold bind_run at 1. rewrite Hrun6.
    unfold bind_run at 1. rewrite (run_append h6 lt csx hd Hn6). fold h7.
    unfold bind_run at 1. rewrite (run_getitem h7 l dx "content" (RObj lt) Hl7 Hlook).
    unfold bind_run at 1. rewrite (run_append h7 lt (csx ++ [hd]) x_al Hn7). reflexivity.
  - eapply frozen_trans; [eapply frozen_weaken; [|exact Hf6]; lia|].
    eapply frozen_trans; [apply (frozen_set_nth n lt h6); lia|].
    apply frozen_set_nth; lia.
  - exists (RObj l). split; [reflexivity|].
    apply repr_dict. exists l, dx. split; [reflexivity|]. split; [lia|].
    split; [rewrite Hsame8; [assumption | lia | lia]|].
    rewrite <- (items_set_same_value "content" (RObj lt) dx Hlook).
    apply (Forall2_dict_set_key (root_item n h l (Some lt))); try assumption.
    + intros kv kx H. exact (proj1 H).
    + intros kv kx Hkey [Hk [[Hc _] | [_ Hh]]]; [contradiction|].
      split; [assumption|]. now apply Hheld.
    + split; [reflexivity|]. simpl.
      apply repr_list. exists lt, ((csx ++ [hd]) ++ [x_al]).
      split; [reflexivity|]. split; [lia|].
      split; [unfold h8; apply nth_error_set_nth_same; lia|].
      rewrite <- app_assoc. apply Forall2_app.
      * eapply Forall2_impl; [|exact Hcs]. intros a b Hab.
        eapply repr_mono; [| |apply (repr_stable (S lt) hi h h8); [|exact Hab]]; try lia.
        intros l' Hl'. apply Hsame8; lia.
      * constructor; [|constructor; [now apply Hheld | constructor]].
        rewrite Hlen8. unfold h8, h7.
        apply (repr_mono (List.length h) (List.length h6)); [lia | lia|].
        apply repr_set_nth; [lia|]. apply repr_set_nth; [lia | exact Hhd].
Qed.

Section PostPassInStore.

Variable m : dict.
Hypothesis urls : scalar_urls m = true.

Lemma append_attachments_sim (n : nat) (h : store) (r : value) (y : ref) :
  n <= List.length h ->
  fresh_root n h r y ->
  sim n (fun h' r' y' => repr n (List.length h') h' r' y')
    (h_append_attachments (refs_of_mapping m) y) h (append_attachments m r).
Proof.
  intros Hn [Hr Hroot].
  destruct (is_doc r) eqn:Hdoc.
  2: { (* not a doc-typed dict: returned as it is *)
    assert (Hpure : append_attachments m r = Ok r).
    { destruct r; simpl in *; try reflexivity. now rewrite Hdoc. }
    assert (Hrun : h_append_attachments (refs_of_mapping m) y h = (h, Returns y)).
    { destruct r as [ | b | z | f | s | vs | d];
        try (apply repr_scalar in Hr; [subst y | reflexivity]; reflexivity).
      - apply repr_list in Hr as (l & xs & -> & _ & Hnth & _).
        unfold h_append_attachments, bind_run, load. now rewrite Hnth.
      - apply repr_dict in Hr as (l & dx & -> & _ & Hnth & Hitems).
        unfold h_append_attachments, bind_run, load. rewrite Hnth.
        rewrite (repr_eq_str n (List.length h) h (get_default d "type" VNone));
          [simpl in Hdoc; now rewrite Hdoc|].
        apply repr_items_get; [assumption | reflexivity]. }
    rewrite Hpure. exists h, (Returns y). split; [exact Hrun|].
    split; [now apply frozen_refl|]. exists y. auto. }
  destruct (Hroot Hdoc) as (d & l & -> & -> & [Hl (dx & z & Hnth & Huniq & Hitems)]).
  simpl in Hdoc.
  assert (Hty : r_eq_str (items_get dx "type" RNone) "doc" = true).
  { rewrite (repr_eq_str n (List.length h) h (get_default d "type" VNone));
      [assumption|].
    apply repr_items_get; [now apply root_item_repr in Hitems | reflexivity]. }
  unfold append_attachments. rewrite Hdoc. cbv zeta.
  eapply sim_ext.
  { unfold h_append_attachments, bind_run at 1, load. rewrite Hnth, Hty. reflexivity. }
  apply (sim_run n _ _ _ h h (truthy (VList (filter truthy (map snd m)))));
    [now apply any_truthy_run | now apply frozen_refl |].
  destruct (truthy (VList (filter truthy (map snd m)))).
  2: { apply sim_ret; [assumption|]. exact Hr. }
  (* the list of items *)
  set (out := List.length h). set (h1 := h ++ [OList []]).
  assert (Hlen1 : List.length h1 = S out).
  { unfold h1. rewrite length_app. simpl. unfold out. lia. }
  apply (sim_run n _ _ _ h h1 out); [reflexivity | now apply frozen_alloc |].
  destruct (attachment_items_run out m urls h1 [] [])
    as (h2 & rsx & Hrun2 & Hf2 & Hout2 & Hrs2);
    [lia | apply nth_error_alloc_new | constructor |].
  simpl app in Hrs2. pose proof Hf2 as (_ & Hlen2 & Hsame2).
  apply (sim_run n _ _ _ h1 h2 tt);
    [exact Hrun2 | eapply frozen_weaken; [|exact Hf2]; unfold out; lia |].
  (* the bullet list *)
  set (la := List.length h2).
  set (ax := [("type", RStr "bulletList"); ("content", RObj out)]).
  set (h3 := h2 ++ [ODict ax]).
  assert (Hlen3 : List.length h3 = S la).
  { unfold h3. rewrite length_app. simpl. unfold la. lia. }
  apply (sim_run n _ _ _ h2 h3 (RObj la));
    [reflexivity | apply frozen_alloc; unfold out in *; lia |].
  assert (Hal : repr out (S la) h3 (attachments_list m) (RObj la)).
  { apply repr_dict. exists la, ax. split; [reflexivity|]. split; [unfold la; lia|].
    split; [apply nth_error_alloc_new|].
    repeat constructor; simpl.
    change (repr out (S la) h3
              (VList (map (fun entry => attachment_item (fst entry) (snd entry)) m))
              (RObj out)).
    apply repr_list. exists out, rsx. split; [reflexivity|]. split; [unfold la; lia|].
    split; [unfold h3; rewrite nth_error_alloc_old by (unfold la; lia); assumption|].
    apply (Forall2_repr_mono (S out) la); [lia | lia|].
    apply (Forall2_repr_frozen la (S out) la h2 h3);
      [lia | apply frozen_alloc; unfold la; lia | exact Hrs2]. }
  (* setdefault *)
  set (lf := S la). set (h4 := h3 ++ [OList []]).
  assert (Hlen4 : List.length h4 = S lf).
  { unfold h4. rewrite length_app. simpl. unfold lf. lia. }
  assert (Hsame4 : forall l', l' < out -> nth_error h4 l' = nth_error h l').
  { intros l' Hl'. unfold h4, h3.
    rewrite !nth_error_alloc_old by (rewrite ?length_app; simpl; unfold la; lia).
    rewrite Hsame2 by assumption. apply nth_error_alloc_old. assumption. }
  assert (Hl4 : nth_error h4 l = Some (ODict dx)).
  { rewrite Hsame4; [assumption | unfold out; lia]. }
  assert (Hal4 : repr out (S la) h4 (attachments_list m) (RObj la)).
  { apply (repr_frozen (S la) out (S la) h3 h4); [lia | apply frozen_alloc; lia | exact Hal]. }
  pose proof (root_item_content n h l z d dx Hitems) as Hc.
  destruct (dict_get "content" d) as [v|] eqn:Hget.
  - destruct Hc as (x & Hlook & Hx).
    assert (Hhas : dict_has "content" d = true) by (unfold dict_has; now rewrite Hget).
    rewrite Hhas.
    apply (sim_run n _ _ _ h3 h4 x).
    { unfold h_setdefault_content, bind_run, alloc, load. fold h4.
      rewrite Hl4, Hlook. reflexivity. }
    { apply frozen_alloc. unfold out in *. lia. }
    assert (Hitems4 : Forall2 (root_item n h4 l z) d dx).
    { eapply Forall2_impl; [|exact Hitems]. intros a b.
      apply root_item_stable; [|unfold out in *; lia].
      intros l' Hl' _. apply Hsame4. unfold out. lia. }
    destruct Hx as [Hcl | [Hnl Hh]].
    + (* a list under ['content'] *)
      pose proof Hcl as (lt & cs & csx & hi & -> & -> & -> & _).
      change (c1 <- list_append (get_default d "content" VNone) attachments_heading ;;
              (let d1 := dict_set "content" c1 d in
               c2 <- list_append (get_default d1 "content" VNone) (attachments_list m) ;;
               Ok (VDict (dict_set "content" c2 d1))))
        with (c1 <- list_append (get_default d "content" VNone) attachments_heading ;;
              c2 <- list_append (get_default (dict_set "content" c1 d) "content" VNone)
                      (attachments_list m) ;;
              Ok (VDict (dict_set "content" c2 (dict_set "content" c1 d)))).
      rewrite (post_pass_value d cs (attachments_list m) Hget).
      apply (trailer_appends n h4 l lt d dx cs (attachments_list m) (RObj la));
        try assumption; [unfold out in *; lia|].
      exists out, (S la). repeat split; try (unfold out in *; lia); [|exact Hal4].
      intros ll [= <-]. right.
      destruct Hcl as (? & ? & ? & ? & [= <-] & _ & _ & _ & _ & Hnlt & _).
      apply nth_error_Some_lt in Hnlt. exact Hnlt.
    + (* something else under ['content']: it has no [append] *)
      unfold get_default at 1. rewrite Hget.
      assert (Hraise : list_append v attachments_heading = Raise AttributeError).
      { destruct v; try reflexivity. discriminate. }
      rewrite Hraise. simpl bind.
      destruct (build_spec (t_paragraph [t_text_node (RStr "Attachments:")])
                  (List.length h4) (List.length h4) h4 attachments_heading)
        as (h6 & hd & Hrun6 & Hf6 & Hhd);
        [lia | lia | unfold t_paragraph, t_text_node, t_str; solve_tree_repr |].
      apply (sim_run n _ _ _ h4 h6 hd);
        [exact Hrun6 | eapply frozen_weaken; [|exact Hf6]; unfold out in *; lia |].
      exists h6, (Raises AttributeError). split; [|split].
      * unfold bind_run.
        rewrite (run_append_raises n (List.length h6) h6 v x hd); [reflexivity | | assumption].
        apply (repr_grow (List.length h4) n (List.length h4) h4 h6);
          [lia | exact Hf6 |].
        apply (held_repr n h4 l z).
        apply (held_stable n h h4); [|unfold out in *; lia | exact Hh].
        intros l' Hl' _. apply Hsame4. unfold out. lia.
      * apply frozen_refl. destruct Hf6. unfold out in *. lia.
      * reflexivity.
  - (* no ['content']: the new list goes under it *)
    assert (Hhas : dict_has "content" d = false) by (unfold dict_has; now rewrite Hget).
    rewrite Hhas.
    set (dx5 := items_set "content" (RObj lf) dx).
    set (h5 := set_nth l (ODict dx5) h4).
    assert (Hlen5 : List.length h5 = S lf).
    { unfold h5. now rewrite set_nth_length. }
    apply (sim_run n _ _ _ h3 h5 (RObj lf)).
    { unfold h_setdefault_content, bind_run, alloc, load. fold h4.
      rewrite Hl4, Hc. unfold store_at. rewrite Hl4. fold dx5. fold h5.
      rewrite Hlen3. reflexivity. }
    { eapply frozen_trans; [apply (frozen_alloc n h3 (OList [])); unfold out in *; lia|].
      apply frozen_set_nth; lia. }
    set (d0 := dict_set "content" (VList []) d).
    change (c1 <- list_append (get_default d0 "content" VNone) attachments_heading ;;
            (let d1 := dict_set "content" c1 d0 in
             c2 <- list_append (get_default d1 "content" VNone) (attachments_list m) ;;
             Ok (VDict (dict_set "content" c2 d1))))
      with (c1 <- list_append (get_default d0 "content" VNone) attachments_heading ;;
            c2 <- list_append (get_default (dict_set "content" c1 d0) "content" VNone)
                    (attachments_list m) ;;
            Ok (VDict (dict_set "content" c2 (dict_set "content" c1 d0)))).
    rewrite (post_pass_value d0 [] (attachments_list m) (dict_get_set_same _ _ _)).
    assert (Hsame5 : forall l', l' < out -> l' <> l -> nth_error h5 l' = nth_error h l').
    { intros l' Hl' Hneq. unfold h5. rewrite nth_error_set_nth_other by lia.
      now apply Hsame4. }
    apply (trailer_appends n h5 l lf d0 dx5 [] (attachments_list m) (RObj la)).
    + unfold out in *. lia.
    + unfold h5. apply nth_error_set_nth_same. unfold out in *. lia.
    + now apply dict_set_unique.
    + apply (Forall2_dict_set_key (root_item n h l z)); try assumption.
      * intros kv kx H. exact (proj1 H).
      * intros kv kx Hkey Hitem.
        apply (root_item_stable n h h5);
          [intros l' Hl' Hneq; apply Hsame5; [unfold out; lia | assumption]
          | unfold out in *; lia |].
        apply (root_item_later n h l lf z); [unfold lf, la, out in *; lia | assumption | assumption].
      * split; [reflexivity|]. left. split; [reflexivity|].
        exists lf, [], [], (S lf). cbn [fst snd].
        repeat split; try (unfold lf, la, out in *; lia); [|constructor].
        unfold h5. rewrite nth_error_set_nth_other by (unfold lf, la, out in *; lia).
        unfold h4, lf. rewrite <- Hlen3. apply nth_error_alloc_new.
    + apply dict_get_set_same.
    + exists out, (S la). repeat split; try (unfold lf, out in *; lia).
      * intros ll [= <-]. left. unfold lf. lia.
      * unfold h5. apply repr_set_nth; [unfold out; lia | exact Hal4].
Qed.

End PostPassInStore.

(** ** The extractor on the store *)

Lemma reify_repr (v : value) :
  forall (fuel lo hi : nat) (h : store) (x : ref),
    repr lo hi h v x -> height v < fuel -> reify fuel h x = Some v.
Proof.
  induction v as [ | b | z | f | s | vs IH | items IH] using value_nested_ind;
    intros [|fuel] lo hi h x Hx Hfuel; try lia;
    try (apply repr_scalar in Hx; [subst x | reflexivity]; reflexivity).
  - apply repr_list in Hx as (l & xs & -> & _ & Hn & Hall).
    cbn [reify]. rewrite Hn.
    match goal with |- option_map VList ?e = _ => assert (He : e = Some vs) end;
      [|now rewrite He].
    clear Hn. revert IH Hfuel.
    induction Hall as [|v x vs xs Hv Hall IHall]; intros IH Hfuel; [reflexivity|].
    inversion IH as [|? ? IHv IHvs]; subst.
    simpl in Hfuel. rewrite (IHv fuel lo hi h x Hv) by lia.
    rewrite IHall; [reflexivity | assumption | simpl; lia].
  - apply repr_dict in Hx as (l & xs & -> & _ & Hn & Hall).
    cbn [reify]. rewrite Hn.
    match goal with |- option_map VDict ?e = _ => assert (He : e = Some items) end;
      [|now rewrite He].
    clear Hn. revert IH Hfuel.
    induction Hall as [|[k v] [k' x] items xs [Hk Hv] Hall IHall]; intros IH Hfuel;
      [reflexivity|].
    inversion IH as [|? ? IHv IHvs]; subst. simpl in Hk, Hv, IHv. subst k'.
    simpl in Hfuel. rewrite (IHv fuel lo hi h x Hv) by lia.
    rewrite IHall; [reflexivity | assumption | simpl; lia].
Qed.

Lemma strings_of_map (ss : list string) : strings_of (map RStr ss) = Some ss.
Proof. induction ss as [|s ss IH]; simpl; [reflexivity | now rewrite IH]. Qed.

Lemma repr_in_media_family (lo hi : nat) (h : store) (v : value) (x : ref) :
  repr lo hi h v x -> r_in_media_family x = in_media_family v.
Proof.
  intros H. unfold r_in_media_family, in_media_family.
  now rewrite !(repr_eq_str lo hi h v x) by assumption.
Qed.

Section ExtractInStore.

Variable rec : ref -> run string.

Lemma extract_items_run (hi texts : nat) (items : dict) :
  hi <= texts ->
  Forall (fun kv => reads rec (snd kv)) items ->
  forall (kxs : list (string * ref)) (h : store) (acc : list string),
    texts < List.length h ->
    nth_error h texts = Some (OList (map RStr acc)) ->
    Forall2 (fun kv kx => fst kx = fst kv /\ repr 0 hi h (snd kv) (snd kx)) items kxs ->
    exists h',
      h_extract_items rec texts kxs h = (h', Returns tt)
      /\ frozen texts h h'
      /\ nth_error h' texts
         = Some (OList (map RStr
                          (acc ++ map (fun kv => _extract_text_from_adf (snd kv)) items))).
Proof.
  intros Hhi Hall. induction Hall as [|[k v] items Hv _ IH]; intros kxs h acc Hlt Hn Hkxs.
  - inversion Hkxs; subst. exists h. rewrite app_nil_r.
    repeat split; try assumption; lia.
  - inversion Hkxs as [|? [k' x] ? kxs' [Hk Hx] Hkxs']; subst. simpl in Hk, Hx, Hv.
    destruct (Hv h x hi ltac:(lia) Hx) as (h1 & Hrun1 & Hf1).
    pose proof Hf1 as (_ & Hlen1 & Hsame1).
    assert (Hn1 : nth_error h1 texts = Some (OList (map RStr acc)))
      by (rewrite Hsame1; auto).
    set (s := _extract_text_from_adf v) in *.
    set (h2 := set_nth texts (OList (map RStr acc ++ [RStr s])) h1).
    destruct (IH kxs' h2 (acc ++ [s])) as (h' & Hrun' & Hf' & Hn').
    + unfold h2. rewrite set_nth_length. lia.
    + unfold h2. rewrite map_app. apply nth_error_set_nth_same. lia.
    + eapply Forall2_impl; [|exact Hkxs']. intros a b [Hab Hr]. split; [assumption|].
      apply repr_set_nth_below; [assumption|].
      apply (repr_frozen (List.length h) 0 hi h h1); [lia | assumption | assumption].
    + exists h'. split; [|split].
      * cbn [h_extract_items]. unfold bind_run at 1. rewrite Hrun1.
        unfold bind_run at 1. rewrite (run_append h1 texts (map RStr acc) (RStr s) Hn1).
        exact Hrun'.
      * eapply frozen_trans; [eapply frozen_weaken; [|exact Hf1]; lia|].
        eapply frozen_trans; [|exact Hf']. apply frozen_set_nth; lia.
      * rewrite Hn'. now rewrite <- app_assoc.
Qed.

Lemma extract_each_run (hi : nat) (vs : list value) :
  Forall (reads rec) vs ->
  forall (xs : list ref) (h : store),
    hi <= List.length h ->
    Forall2 (repr 0 hi h) vs xs ->
    exists h',
      h_extract_each rec xs h = (h', Returns (map _extract_text_from_adf vs))
      /\ frozen (List.length h) h h'.
Proof.
  intros Hall. induction Hall as [|v vs Hv _ IH]; intros xs h Hhi Hxs.
  - inversion Hxs; subst. exists h. split; [reflexivity | now apply frozen_refl].
  - inversion Hxs as [|? x ? xs' Hx Hxs']; subst.
    destruct (Hv h x hi Hhi Hx) as (h1 & Hrun1 & Hf1).
    pose proof Hf1 as (_ & Hlen1 & _).
    destruct (IH xs' h1) as (h' & Hrun' & Hf'); [lia | |].
    { apply (Forall2_repr_frozen (List.length h) 0 hi h h1); assumption. }
    exists h'. split.
    + cbn [h_extract_each]. unfold bind_run at 1. rewrite Hrun1.
      unfold bind_run at 1. rewrite Hrun'. reflexivity.
    + eapply frozen_trans; [exact Hf1|].
      eapply frozen_weaken; [|exact Hf']. lia.
Qed.

(** One step of the extractor, given that the recursive calls read the
    children. *)
Lemma extract_step_reads (fuel : nat) (t : value) :
  height t <= fuel ->
  match t with
  | VList vs => Forall (reads rec) vs
  | VDict items => Forall (fun kv => reads rec (snd kv)) items
  | _ => True
  end ->
  reads (h_extract_step rec fuel) t.
Proof.
  intros Hfuel Hrec h x hi Hhi Hx.
  destruct t as [ | b | z | f | s | vs | items].
  1-5: apply repr_scalar in Hx; [subst x | reflexivity];
    exists h; split; [reflexivity | now apply frozen_refl].
  - apply repr_list in Hx as (l & xs & -> & Hl & Hn & Hxs).
    destruct (extract_each_run hi vs Hrec xs h Hhi Hxs) as (h' & Hrun & Hf).
    exists h'. split; [|assumption].
    unfold h_extract_step, bind_run at 1, load. rewrite Hn.
    unfold bind_run. rewrite Hrun. reflexivity.
  - apply repr_dict in Hx as (l & dx & -> & Hl & Hn & Hitems).
    assert (Hty : repr 0 hi h (get_default items "type" VNone) (items_get dx "type" RNone)).
    { apply repr_items_get; [exact Hitems | reflexivity]. }
    unfold h_extract_step, bind_run at 1, load. rewrite Hn. cbv zeta.
    rewrite (repr_in_media_family 0 hi h _ _ Hty), (repr_eq_str 0 hi h _ _ "text" Hty).
    cbn [_extract_text_from_adf].
    destruct (in_media_family (get_default items "type" VNone)).
    { exists h. split; [reflexivity | now apply frozen_refl]. }
    set (texts := List.length h). set (h1 := h ++ [OList []]).
    assert (Hlen1 : List.length h1 = S texts).
    { unfold h1. rewrite length_app. simpl. unfold texts. lia. }
    assert (Hf1 : frozen texts h h1) by (apply frozen_alloc; unfold texts; lia).
    assert (Hitems1 : Forall2 (fun kv kx => fst kx = fst kv
                                            /\ repr 0 hi h1 (snd kv) (snd kx)) items dx).
    { eapply Forall2_impl; [|exact Hitems]. intros a b [Hk Hab]. split; [assumption|].
      exact (repr_frozen texts 0 hi h h1 _ _ Hhi Hf1 Hab). }
    assert (Hhas : items_has "text" dx = dict_has "text" items).
    { exact (repr_items_has 0 hi h items dx "text" Hitems). }
    rewrite Hhas.
    assert (Hfirst : exists h2 acc,
               (if eq_str (get_default items "type" VNone) "text" && dict_has "text" items
                then
                  text <~ r_getitem l "text" ;;
                  s <~ r_str fuel text ;;
                  r_append (RObj texts) (RStr s)
                else ret tt) h1 = (h2, Returns tt)
               /\ List.length h2 = S texts
               /\ (forall l', l' < texts -> nth_error h2 l' = nth_error h l')
               /\ nth_error h2 texts = Some (OList (map RStr acc))
               /\ acc = (if eq_str (get_default items "type" VNone) "text"
                            && dict_has "text" items
                         then [py_str (get_default items "text" VNone)] else [])).
    { destruct (eq_str (get_default items "type" VNone) "text" && dict_has "text" items)
        eqn:Htext.
      - apply andb_prop in Htext as [_ Hd]. unfold dict_has in Hd.
        pose proof (repr_lookup 0 hi h1 items dx "text" Hitems1) as Hlook.
        unfold get_default.
        destruct (dict_get "text" items) as [v|] eqn:Hget; [|discriminate].
        destruct Hlook as (xt & Hlook & Hxt).
        assert (Hv : height v < height (VDict items)).
        { apply (height_dict_value ("text", v)). now apply dict_get_In. }
        exists (set_nth texts (OList [RStr (py_str v)]) h1), [py_str v].
        split; [|split; [|split; [|split]]].
        + unfold bind_run at 1.
          rewrite (run_getitem h1 l dx "text" xt); [|
            unfold h1; rewrite nth_error_alloc_old by lia; assumption | assumption].
          unfold bind_run at 1. unfold r_str.
          rewrite (reify_repr v fuel 0 hi h1 xt Hxt) by lia.
          apply (run_append h1 texts [] (RStr (py_str v))).
          unfold h1, texts. apply nth_error_alloc_new.
        + now rewrite set_nth_length.
        + intros l' Hl'. rewrite nth_error_set_nth_other by lia.
          unfold h1. apply nth_error_alloc_old. unfold texts in Hl'. lia.
        + apply nth_error_set_nth_same. lia.
        + reflexivity.
      - exists h1, []. repeat split; try assumption.
        + intros l' Hl'. unfold h1. apply nth_error_alloc_old. unfold texts in Hl'. lia.
        + unfold h1, texts. apply nth_error_alloc_new. }
    destruct Hfirst as (h2 & acc & Hrun2 & Hlen2 & Hsame2 & Hn2 & Hacc).
    destruct (extract_items_run hi texts items ltac:(unfold texts; lia) Hrec dx h2 acc)
      as (h3 & Hrun3 & Hf3 & Hn3); [lia | assumption | |].
    { eapply Forall2_impl; [|exact Hitems]. intros a b [Hk Hab]. split; [assumption|].
      apply (repr_stable 0 hi h h2); [|assumption].
      intros l' Hl'. apply Hsame2. unfold texts. lia. }
    exists h3. split.
    + unfold bind_run at 1, alloc. fold h1. fold texts.
      unfold bind_run at 1. rewrite Hrun2.
      unfold bind_run at 1. rewrite Hrun3.
      unfold r_join_filtered, bind_run, load. rewrite Hn3, strings_of_map.
      rewrite Hacc. reflexivity.
    + destruct Hf3 as (_ & Hlen3 & Hsame3). unfold frozen. fold texts.
      repeat split; try lia. intros l' Hl'.
      rewrite Hsame3 by assumption. now apply Hsame2.
Qed.

End ExtractInStore.

(** With fuel above the height of the tree, the extractor on the store
    returns what [_extract_text_from_adf] does and changes no object that
    was there. *)
Lemma extract_reads (t : value) :
  forall fuel, height t < fuel -> reads (h_extract_text_from_adf fuel) t.
Proof.
  induction t as [ | b | z | f | s | vs IH | items IH] using value_nested_ind;
    intros [|fuel] Hfuel; try lia; cbn [h_extract_text_from_adf];
      apply extract_step_reads; try exact I; try lia.
  - rewrite Forall_forall in *. intros v Hin. apply (IH v Hin).
    pose proof (height_list_elem v vs Hin). lia.
  - rewrite Forall_forall in *. intros kv Hin. apply (IH kv Hin).
    pose proof (height_dict_value kv items Hin). lia.
Qed.

(** ** The input tree after a call *)

(** C8.  In a store where the reference [x] stands for the tree [t], a
    call of [_adf_replace_media_with_attachment_links] on [x], with a
    mapping whose URLs are scalars and with fuel above the height of [t],
    ends; it changes no object that was in the store before the call, so
    [x] still stands for [t] afterwards, post-pass included; it returns
    when the function on trees does, and then the reference it returns
    stands for the same result through objects allocated during the call
    only; it raises what the function on trees raises.  A call of
    [_extract_text_from_adf] on [x] returns the same string as on [t] and
    changes no object that was in the store either. *)
Theorem rewrite_and_extract_leave_input_untouched
    (copied_attachments : option (list attachment)) (t : value)
    (h : store) (x : ref) (fuel : nat) :
  let m := filename_to_url copied_attachments in
  scalar_urls m = true ->
  repr 0 (List.length h) h t x ->
  height t < fuel ->
  (exists h' out,
      h_adf_replace_media_with_attachment_links fuel (refs_of_mapping m) x h = (h', out)
      /\ frozen (List.length h) h h'
      /\ repr 0 (List.length h) h' t x
      /\ match _adf_replace_media_with_attachment_links t copied_attachments with
         | Ok r => exists y, out = Returns y
                             /\ repr (List.length h) (List.length h') h' r y
         | Raise e => out = Raises e
         end)
  /\ (exists h',
         h_extract_text_from_adf fuel x h = (h', Returns (_extract_text_from_adf t))
         /\ frozen (List.length h) h h'
         /\ repr 0 (List.length h) h' t x).
Proof.
  intros m Hm Hx Hfuel. split.
  - assert (Hsim : sim (List.length h)
                     (fun h' r y => repr (List.length h) (List.length h') h' r y)
                     (h_adf_replace_media_with_attachment_links fuel (refs_of_mapping m) x)
                     h (_adf_replace_media_with_attachment_links t copied_attachments)).
    { unfold h_adf_replace_media_with_attachment_links,
        _adf_replace_media_with_attachment_links. fold m.
      eapply sim_bind.
      - exact (transform_root_sim m Hm t fuel Hfuel h x (List.length h) (le_n _) Hx).
      - intros h1 y r _ Hf1 Hroot. cbv beta.
        apply (append_attachments_sim m Hm (List.length h) h1 r y);
          [destruct Hf1; lia | exact Hroot]. }
    destruct Hsim as (h' & out & Hrun & Hf & Hout).
    exists h', out. repeat split; try assumption; try apply Hf.
    exact (repr_frozen (List.length h) 0 (List.length h) h h' t x (le_n _) Hf Hx).
  - destruct (extract_reads t fuel Hfuel h x (List.length h) (le_n _) Hx)
      as (h' & Hrun & Hf).
    exists h'. repeat split; try assumption; try apply Hf.
    exact (repr_frozen (List.length h) 0 (List.length h) h h' t x (le_n _) Hf Hx).
Qed.

Lemma rewrite_and_extract_leave_input_untouched_witness :
  let m := filename_to_url sample_copied in
  let h := sample_store in
  let x := sample_root in
  scalar_urls m = true
  /\ repr 0 (List.length h) h sample_page x
  /\ height sample_page < 8
  /\ (exists h' out,
         h_adf_replace_media_with_attachment_links 8 (refs_of_mapping m) x h = (h', out)
         /\ frozen (List.length h) h h'
         /\ repr 0 (List.length h) h' sample_page x
         /\ match _adf_replace_media_with_attachment_links sample_page sample_copied with
            | Ok r => exists y, out = Returns y
                                /\ repr (List.length h) (List.length h') h' r y
            | Raise e => out = Raises e
            end)
  /\ (exists h',
         h_extract_text_from_adf 8 x h
         = (h', Returns (_extract_text_from_adf sample_page))
         /\ frozen (List.length h) h h'
         /\ repr 0 (List.length h) h' sample_page x).
Proof.
  assert (Hm : scalar_urls (filename_to_url sample_copied) = true) by reflexivity.
  assert (Hx : repr 0 (List.length sample_store) sample_store sample_page sample_root).
  { vm_compute. repeat (first [reflexivity | lia | eexists | split]). }
  assert (Hh : height sample_page < 8) by (vm_compute; lia).
  cbv zeta. split; [exact Hm|]. split; [exact Hx|]. split; [exact Hh|].
  exact (rewrite_and_extract_leave_input_untouched
           sample_copied sample_page sample_store sample_root 8 Hm Hx Hh).
Defined.

(** The run on the sample store: the objects of the page are the first
    objects of the final store, as they were, and the reference returned
    reads back as the result on trees. *)
Example rewrite_on_sample_store :
  let m := refs_of_mapping (filename_to_url sample_copied) in
  let run := h_adf_replace_media_with_attachment_links 8 m sample_root sample_store in
  firstn (List.length sample_store) (fst run) = sample_store
  /\ match snd run with
     | Returns y =>
         option_map Ok (reify 16 (fst run) y)
         = Some (_adf_replace_media_with_attachment_links sample_page sample_copied)
     | _ => False
     end.
Proof. vm_compute. split; reflexivity. Qed.

(** ** Where the two functions return *)

(** C5, amended.  The extractor returns on every tree: run on a store
    where [x] stands for the tree [t], with fuel above the height of [t],
    it ends with a string, the one [_extract_text_from_adf] gives, and
    raises nothing.  The rewriter returns a result on every tree of Python
    values that is well shaped (each media reference a dict with dict
    attrs and a hashable filename, the content of a [mediaSingle] or
    [mediaGroup] falsy or a list) and whose doc-typed root has a list, or
    nothing, under ['content']; the walk itself returns on no other tree. *)
Theorem rewrite_returns_on_well_shaped_trees :
  (forall (t : value) (h : store) (x : ref) (fuel : nat),
      repr 0 (List.length h) h t x -> height t < fuel ->
      exists h',
        h_extract_text_from_adf fuel x h = (h', Returns (_extract_text_from_adf t)))
  /\ (forall (t : value) (copied_attachments : option (list attachment)),
         wf_value t = true -> well_shaped t = true -> root_ok t = true ->
         exists r, _adf_replace_media_with_attachment_links t copied_attachments = Ok r)
  /\ (forall (t : value) (copied_attachments : option (list attachment)) (r : value),
         wf_value t = true ->
         _adf_replace_media_with_attachment_links t copied_attachments = Ok r ->
         well_shaped t = true).
Proof.
  split; [|split].
  - intros t h x fuel Hx Hfuel.
    destruct (extract_reads t fuel Hfuel h x (List.length h) (le_n _) Hx)
      as (h' & Hrun & _).
    exists h'. exact Hrun.
  - intros t copied_attachments Hwf Hshape Hroot.
    destruct (rewrite_and_post_pass_return t copied_attachments Hwf Hshape Hroot)
      as [r Hr]. eauto.
  - intros t copied_attachments r Hwf H.
    unfold _adf_replace_media_with_attachment_links in H. cbv zeta in H.
    apply bind_Ok in H as [r0 [Hr0 _]].
    apply (transform_returns_iff (filename_to_url copied_attachments) t Hwf). eauto.
Qed.

Lemma rewrite_returns_on_well_shaped_trees_witness :
  wf_value sample_page = true /\ well_shaped sample_page = true
  /\ root_ok sample_page = true
  /\ (exists r, _adf_replace_media_with_attachment_links sample_page sample_copied = Ok r)
  /\ (exists h',
         h_extract_text_from_adf 8 sample_root sample_store
         = (h', Returns (_extract_text_from_adf sample_page))).
Proof.
  repeat (split; [reflexivity|]). split.
  - exact (proj1 (proj2 rewrite_returns_on_well_shaped_trees) sample_page sample_copied
             eq_refl eq_refl eq_refl).
  - apply (proj1 rewrite_returns_on_well_shaped_trees sample_page sample_store
             sample_root 8).
    + vm_compute. repeat (first [reflexivity | lia | eexists | split]).
    + vm_compute. lia.
Defined.

(** * More of the code *)

(** ** [extract_description_text] *)

Lemma text_values_strs (ss : list string) : text_values (map VStr ss) = Ok ss.
Proof. induction ss as [|s ss IH]; simpl; [reflexivity | now rewrite IH]. Qed.

Lemma text_children_text_nodes (ts : list string) :
  text_children (map (fun s => text_node (VStr s)) ts) = Ok (map VStr ts).
Proof. induction ts as [|t ts IH]; simpl; [reflexivity | now rewrite IH]. Qed.

Lemma description_texts_paragraphs (tss : list (list string)) :
  description_texts (map text_paragraph tss) = Ok (map VStr (List.concat tss)).
Proof.
  induction tss as [|ts tss IH]; [reflexivity|].
  cbn [map description_texts].
  change (str_in "content" (text_paragraph ts)) with (Ok true : result bool).
  change (subscript_key (text_paragraph ts) "content")
    with (Ok (VList (map (fun s => text_node (VStr s)) ts))).
  cbn [bind iterate]. rewrite text_children_text_nodes. cbn [bind]. rewrite IH. cbn [bind List.concat].
  now rewrite map_app.
Qed.

Lemma description_texts_app (xs ys : list value) :
  description_texts (xs ++ ys)
  = a <- description_texts xs ;; b <- description_texts ys ;; Ok (a ++ b)%list.
Proof.
  induction xs as [|x xs IH]; simpl.
  - destruct (description_texts ys); reflexivity.
  - destruct (str_in "content" x) as [has|e]; [|reflexivity]. cbn [bind].
    destruct (if has then _ else _) as [here|e]; [|reflexivity]. cbn [bind].
    rewrite IH. destruct (description_texts xs) as [a|e]; [|reflexivity]. cbn [bind].
    destruct (description_texts ys) as [b|e]; [|reflexivity]. cbn [bind].
    now rewrite app_assoc.
Qed.

Lemma visible_texts_paragraphs (tss : list (list string)) :
  flat_map visible_texts (map text_paragraph tss) = map VStr (List.concat tss).
Proof.
  induction tss as [|ts tss IH]; [reflexivity|].
  cbn [map flat_map List.concat]. rewrite IH, map_app. f_equal.
  unfold text_paragraph, paragraph. cbn. rewrite app_nil_r.
  induction ts as [|t ts IHts]; [reflexivity|]. cbn. now rewrite IHts.
Qed.

(** X1.  On an issue whose description is [null], or a plain string, or
    anything else that is not a dict, [extract_description_text] raises
    [AttributeError]: the default of [.get('description', {})] is used for
    a missing key only. *)
Theorem description_text_raises_without_adf
    (issue fields : dict) (description : value) :
  dict_get "fields" issue = Some (VDict fields) ->
  dict_get "description" fields = Some description ->
  isinstance_dict description = false ->
  extract_description_text (VDict issue) = Raise AttributeError.
Proof.
  intros Hf Hd Hnd. unfold extract_description_text, meth_get, get_default.
  rewrite Hf. cbn [bind]. rewrite Hd.
  destruct description; try reflexivity. discriminate.
Qed.

Lemma description_text_raises_without_adf_witness :
  dict_get "fields" [("key", VStr "SI-1"); ("fields", VDict [("description", VNone)])]
  = Some (VDict [("description", VNone)])
  /\ dict_get "description" [("description", VNone)] = Some VNone
  /\ isinstance_dict VNone = false
  /\ extract_description_text (issue_of_description "SI-1" VNone) = Raise AttributeError.
Proof.
  repeat (split; [reflexivity|]).
  exact (description_text_raises_without_adf
           [("key", VStr "SI-1"); ("fields", VDict [("description", VNone)])]
           [("description", VNone)] VNone eq_refl eq_refl eq_refl).
Defined.

(** X2.  On a description that is a doc of paragraphs of text nodes,
    [extract_description_text] returns the texts joined by newlines, one
    newline between any two text nodes, also inside a paragraph, while
    [_extract_text_from_adf] returns the same texts with nothing in
    between. *)
Theorem description_text_of_paragraphs
    (issue fields : dict) (tss : list (list string)) :
  dict_get "fields" issue = Some (VDict fields) ->
  dict_get "description" fields = Some (sample_doc (map text_paragraph tss)) ->
  extract_description_text (VDict issue) = Ok (String.concat newline (List.concat tss))
  /\ _extract_text_from_adf (sample_doc (map text_paragraph tss))
     = String.concat "" (List.concat tss).
Proof.
  intros Hf Hd. split.
  - unfold extract_description_text, meth_get, get_default.
    rewrite Hf. cbn [bind]. rewrite Hd. unfold sample_doc.
    cbn [bind dict_get String.eqb Ascii.eqb Bool.eqb iterate].
    rewrite description_texts_paragraphs. cbn [bind]. unfold join_values.
    now rewrite text_values_strs.
  - rewrite extract_visible_texts. unfold sample_doc. cbn [visible_texts].
    cbn. rewrite app_nil_r, visible_texts_paragraphs, map_map. cbn [py_str].
    now rewrite map_id.
Qed.

Lemma description_text_of_paragraphs_witness :
  extract_description_text
    (issue_of_description "SI-1" (sample_doc (map text_paragraph [["a"; "b"]; ["c"]])))
  = Ok (String.concat newline ["a"; "b"; "c"])
  /\ _extract_text_from_adf (sample_doc (map text_paragraph [["a"; "b"]; ["c"]])) = "abc".
Proof.
  exact (description_text_of_paragraphs
           [("key", VStr "SI-1");
            ("fields",
             VDict [("description",
                     sample_doc (map text_paragraph [["a"; "b"]; ["c"]]))])]
           [("description", sample_doc (map text_paragraph [["a"; "b"]; ["c"]]))]
           [["a"; "b"]; ["c"]] eq_refl eq_refl).
Defined.

(** X3.  [extract_description_text] reads two levels only: a block whose
    children are dicts of another type than ['text'] (a list, a table, a
    panel) adds nothing, whatever text its children hold. *)
Theorem description_text_skips_nested_blocks
    (key : string) (before after children : list value) (block : dict) :
  dict_get "content" block = Some (VList children) ->
  Forall (fun c => exists d, c = VDict d
                             /\ eq_str (get_default d "type" VNone) "text" = false)
    children ->
  extract_description_text
    (issue_of_description key (sample_doc (before ++ VDict block :: after)))
  = extract_description_text (issue_of_description key (sample_doc (before ++ after))).
Proof.
  intros Hc Hchildren.
  assert (Hblock : description_texts [VDict block] = Ok []).
  { cbn [description_texts str_in]. unfold dict_has. rewrite Hc. cbn [bind subscript_key].
    rewrite Hc. cbn [bind iterate].
    assert (H : text_children children = Ok []).
    { clear Hc. induction Hchildren as [|c cs (d & -> & Hty) _ IH]; [reflexivity|].
      cbn [text_children meth_get bind]. rewrite Hty. exact IH. }
    now rewrite H. }
  unfold extract_description_text, issue_of_description, sample_doc.
  cbn [meth_get get_default dict_get String.eqb Ascii.eqb Bool.eqb bind iterate].
  rewrite !description_texts_app.
  change (VDict block :: after) with ([VDict block] ++ after)%list.
  rewrite description_texts_app, Hblock. cbn [bind].
  destruct (description_texts before) as [a|e]; [|reflexivity]. cbn [bind].
  destruct (description_texts after) as [b|e]; reflexivity.
Qed.

Lemma description_text_skips_nested_blocks_witness :
  extract_description_text
    (issue_of_description "SI-1"
       (sample_doc ([text_paragraph ["a"]] ++ sample_bullet_list :: [text_paragraph ["b"]])))
  = extract_description_text
      (issue_of_description "SI-1"
         (sample_doc ([text_paragraph ["a"]] ++ [text_paragraph ["b"]]))).
Proof.
  apply (description_text_skips_nested_blocks "SI-1" [text_paragraph ["a"]]
           [text_paragraph ["b"]]
           [VDict [("type", VStr "listItem");
                   ("content", VList [text_paragraph ["deep"]])]]).
  - reflexivity.
  - repeat constructor. eexists. split; reflexivity.
Defined.

(** ** [get_linked_issues] *)

(** The entry a link gives: the outward end if it has one, else the
    inward end, else nothing. *)
Lemma linked_issues_of_link (type_name : string) (outward inward : option (string * string))
    (rest : list value) :
  linked_issues_of_links (issue_link type_name outward inward :: rest)
  = more <- linked_issues_of_links rest ;;
    Ok (match outward, inward with
        | Some (k, s), _ =>
            [VDict [("type", VStr type_name); ("direction", VStr "outward");
                    ("issue_key", VStr k); ("summary", VStr s)]]
        | None, Some (k, s) =>
            [VDict [("type", VStr type_name); ("direction", VStr "inward");
                    ("issue_key", VStr k); ("summary", VStr s)]]
        | None, None => []
        end ++ more)%list.
Proof.
  destruct outward as [[k s]|], inward as [[k' s']|]; reflexivity.
Qed.

(** X4.  [get_linked_issues] on the JSON of an issue whose links are of
    Jira's shape: the entries follow the links in order, one for each link
    that has an end; the entry is for the outward end whenever the link
    has one, for the inward end otherwise, and carries the key and the
    summary of that end and the name of the link type. *)
Theorem linked_issues_follow_links
    (issue fields : dict)
    (links : list (string * option (string * string) * option (string * string))) :
  dict_get "fields" issue = Some (VDict fields) ->
  dict_get "issuelinks" fields
  = Some (VList (map (fun l => issue_link (fst (fst l)) (snd (fst l)) (snd l)) links)) ->
  linked_issues_of (VDict issue)
  = Ok (flat_map
          (fun l =>
             match snd (fst l), snd l with
             | Some (k, s), _ =>
                 [VDict [("type", VStr (fst (fst l))); ("direction", VStr "outward");
                         ("issue_key", VStr k); ("summary", VStr s)]]
             | None, Some (k, s) =>
                 [VDict [("type", VStr (fst (fst l))); ("direction", VStr "inward");
                         ("issue_key", VStr k); ("summary", VStr s)]]
             | None, None => []
             end) links).
Proof.
  intros Hf Hl. unfold linked_issues_of, meth_get, get_default.
  rewrite Hf. cbn [bind]. rewrite Hl. cbn [bind iterate]. clear Hf Hl.
  induction links as [|[[t o] i] links IH]; [reflexivity|].
  cbn [map fst snd flat_map]. rewrite linked_issues_of_link, IH. reflexivity.
Qed.

Lemma linked_issues_follow_links_witness :
  linked_issues_of
    (VDict [("key", VStr "SI-1");
            ("fields",
             VDict [("issuelinks",
                     VList [issue_link "Relates" None (Some ("CL-7", "Clone-x(SI-1)"));
                            issue_link "Blocks" (Some ("SI-2", "other")) None])])])
  = Ok [VDict [("type", VStr "Relates"); ("direction", VStr "inward");
               ("issue_key", VStr "CL-7"); ("summary", VStr "Clone-x(SI-1)")];
        VDict [("type", VStr "Blocks"); ("direction", VStr "outward");
               ("issue_key", VStr "SI-2"); ("summary", VStr "other")]].
Proof.
  exact (linked_issues_follow_links
           [("key", VStr "SI-1");
            ("fields",
             VDict [("issuelinks",
                     VList [issue_link "Relates" None (Some ("CL-7", "Clone-x(SI-1)"));
                            issue_link "Blocks" (Some ("SI-2", "other")) None])])]
           [("issuelinks",
             VList [issue_link "Relates" None (Some ("CL-7", "Clone-x(SI-1)"));
                    issue_link "Blocks" (Some ("SI-2", "other")) None])]
           [("Relates", None, Some ("CL-7", "Clone-x(SI-1)"));
            ("Blocks", Some ("SI-2", "other"), None)]
           eq_refl eq_refl).
Defined.

(** ** [search_issues_by_jql] *)

Section ScriptedSearch.

Variable jql_query max_results fields : value.

Let pages_run := search_pages (list reply * list dict) scripted_search.

Lemma last_cons_default {A} (x d : A) (l : list A) : last (x :: l) d = last l x.
Proof.
  revert x d. induction l as [|y l IH]; intros x d; [reflexivity|].
  change (last (x :: y :: l) d) with (last (y :: l) d). rewrite IH.
  symmetry. apply IH.
Qed.

Lemma truthy_token (t : string) : t <> "" -> truthy (VStr t) = true.
Proof. intros H. simpl. now destruct (String.eqb_spec t ""). Qed.

(** A run over pages that all carry a token: one request per page, each
    with the token of the page before. *)
Lemma search_pages_script (fuel : nat) (rest : list reply)
    (pages : list (list value * string)) :
  forall (all_issues : list value) (token : value) (sent : list dict),
    Forall (fun p => snd p <> "") pages ->
    pages_run (List.length pages + fuel) jql_query max_results fields all_issues token
      (map search_page pages ++ rest, sent)%list
    = pages_run fuel jql_query max_results fields
        (all_issues ++ List.concat (map fst pages))%list
        (last (map (fun p => VStr (snd p)) pages) token)
        (rest,
         (sent ++ map (search_payload jql_query max_results fields)
                    (removelast (token :: map (fun p => VStr (snd p)) pages)))%list).
Proof.
  induction pages as [|[issues t] pages IH]; intros all_issues token sent Htokens.
  - cbn [List.length map app removelast List.concat last Nat.add].
    now rewrite !app_nil_r.
  - inversion Htokens as [|? ? Ht Hrest]; subst. simpl in Ht.
    cbn [List.length Nat.add map app]. unfold pages_run in *. cbn [search_pages].
    unfold scripted_search at 1. cbn [fst snd search_page].
    change (read_page (VDict [("issues", VList issues); ("nextPageToken", VStr t)]))
      with (Ok (issues, VStr t)).
    cbn iota. rewrite (truthy_token t Ht).
    rewrite (IH (all_issues ++ issues)%list (VStr t)
               (sent ++ [search_payload jql_query max_results fields token])%list Hrest).
    set (ts := map (fun p : list value * string => VStr (snd p)) pages).
    replace (last (VStr t :: ts) token) with (last ts (VStr t))
      by (symmetry; apply last_cons_default).
    replace (removelast (token :: VStr t :: ts)) with (token :: removelast (VStr t :: ts))
      by reflexivity.
    cbn [List.concat map fst snd]. now rewrite <- !app_assoc.
Qed.

End ScriptedSearch.

Lemma sent_payloads {A B} (f : A -> B) (ts : list A) (d : A) :
  (map f (removelast (d :: ts)) ++ [f (last ts d)])%list = map f (d :: ts).
Proof.
  rewrite (app_removelast_last d (l := d :: ts)) at 2 by discriminate.
  rewrite map_app, last_cons_default. reflexivity.
Qed.

(** X5.  A search whose pages all arrive: [search_issues_by_jql] sends
    one request per page, the first without [nextPageToken] and each
    later one with the token of the page before, stops at the first page
    without a token, and returns the issues of all pages in order. *)
Theorem paged_search_returns_all_pages
    (jql_query max_results : value) (fields : option value)
    (pages : list (list value * string)) (last_issues : list value)
    (rest : list reply) :
  Forall (fun p => snd p <> "") pages ->
  search_issues_by_jql (list reply * list dict) scripted_search
    (S (List.length pages)) jql_query fields max_results
    (map search_page pages ++ last_search_page last_issues :: rest, [])%list
  = ((rest,
      map (search_payload jql_query max_results (effective_fields fields))
        (VNone :: map (fun p => VStr (snd p)) pages)),
     Some (Ok (List.concat (map fst pages) ++ last_issues)%list)).
Proof.
  intros Htokens. unfold search_issues_by_jql.
  rewrite <- Nat.add_1_r.
  rewrite (search_pages_script jql_query max_results (effective_fields fields) 1
             (last_search_page last_issues :: rest) pages [] VNone [] Htokens).
  cbn [search_pages]. unfold scripted_search. cbn [fst snd last_search_page].
  change (read_page (VDict [("issues", VList last_issues)]))
    with (Ok (last_issues, VNone)).
  cbn iota. cbn [truthy app]. now rewrite sent_payloads.
Qed.

Lemma paged_search_returns_all_pages_witness :
  Forall (fun p : list value * string => snd p <> "")
    [([VStr "SI-1"; VStr "SI-2"], "t1"); ([VStr "SI-3"], "t2")]
  /\ search_issues_by_jql (list reply * list dict) scripted_search 3
       (VStr "project = SI") None (VInt 100)
       ([search_page ([VStr "SI-1"; VStr "SI-2"], "t1"); search_page ([VStr "SI-3"], "t2");
         last_search_page [VStr "SI-4"]], [])
     = (([],
         [search_payload (VStr "project = SI") (VInt 100) default_search_fields VNone;
          search_payload (VStr "project = SI") (VInt 100) default_search_fields (VStr "t1");
          search_payload (VStr "project = SI") (VInt 100) default_search_fields (VStr "t2")]),
        Some (Ok [VStr "SI-1"; VStr "SI-2"; VStr "SI-3"; VStr "SI-4"])).
Proof.
  assert (H : Forall (fun p : list value * string => snd p <> "")
                [([VStr "SI-1"; VStr "SI-2"], "t1"); ([VStr "SI-3"], "t2")])
    by (repeat constructor; discriminate).
  split; [exact H|].
  exact (paged_search_returns_all_pages (VStr "project = SI") (VInt 100) None
           [([VStr "SI-1"; VStr "SI-2"], "t1"); ([VStr "SI-3"], "t2")] [VStr "SI-4"] [] H).
Defined.

(** X6.  A search that fails on a later page: when the request for a page
    gets a response that is not [ok], or no response, [search_issues_by_jql]
    returns the empty list; the issues of the pages before are dropped,
    and no further request is made. *)
Theorem paged_search_failure_drops_pages
    (jql_query max_results : value) (fields : option value)
    (pages : list (list value * string)) (failure : reply) (rest : list reply)
    (fuel : nat) :
  Forall (fun p => snd p <> "") pages ->
  failure = NotOk \/ failure = RequestException ->
  search_issues_by_jql (list reply * list dict) scripted_search
    (List.length pages + S fuel) jql_query fields max_results
    (map search_page pages ++ failure :: rest, [])%list
  = ((rest,
      map (search_payload jql_query max_results (effective_fields fields))
        (VNone :: map (fun p => VStr (snd p)) pages)),
     Some (Ok [])).
Proof.
  intros Htokens Hfailure. unfold search_issues_by_jql.
  rewrite (search_pages_script jql_query max_results (effective_fields fields) (S fuel)
             (failure :: rest) pages [] VNone [] Htokens).
  cbn [search_pages]. unfold scripted_search. cbn [fst snd app].
  rewrite sent_payloads. destruct Hfailure as [-> | ->]; reflexivity.
Qed.

Lemma paged_search_failure_drops_pages_witness :
  Forall (fun p : list value * string => snd p <> "") [([VStr "SI-1"; VStr "SI-2"], "t1")]
  /\ (NotOk = NotOk \/ NotOk = RequestException)
  /\ search_issues_by_jql (list reply * list dict) scripted_search 5
       (VStr "project = SI") None (VInt 100)
       ([search_page ([VStr "SI-1"; VStr "SI-2"], "t1"); NotOk;
         last_search_page [VStr "SI-4"]], [])
     = (([last_search_page [VStr "SI-4"]],
         [search_payload (VStr "project = SI") (VInt 100) default_search_fields VNone;
          search_payload (VStr "project = SI") (VInt 100) default_search_fields (VStr "t1")]),
        Some (Ok [])).
Proof.
  assert (H : Forall (fun p : list value * string => snd p <> "")
                [([VStr "SI-1"; VStr "SI-2"], "t1")])
    by (repeat constructor; discriminate).
  split; [exact H|]. split; [now left|].
  exact (paged_search_failure_drops_pages (VStr "project = SI") (VInt 100) None
           [([VStr "SI-1"; VStr "SI-2"], "t1")] NotOk [last_search_page [VStr "SI-4"]] 3
           H (or_introl eq_refl)).
Defined.

(** ** Strs and their characters *)

#[local] Open Scope string_scope.

Lemma characters_join (s : string) : join_empty (characters s) = s.
Proof.
  induction s as [|a s IH]; [reflexivity|].
  cbn [characters]. destruct s as [|b s']; [reflexivity|].
  destruct (is_continuation b).
  - destruct (characters (String b s')) as [|c cs] eqn:E.
    + discriminate IH.
    + rewrite join_empty_cons in *. simpl. now rewrite IH.
  - rewrite join_empty_cons, IH. reflexivity.
Qed.

Lemma string_mem_app (a : ascii) (s t : string) :
  string_mem a (s ++ t) = string_mem a s || string_mem a t.
Proof.
  induction s as [|b s IH]; [reflexivity|].
  simpl. rewrite IH. now rewrite orb_assoc.
Qed.

Lemma string_mem_join (a : ascii) (parts : list string) :
  string_mem a (join_empty parts) = existsb (string_mem a) parts.
Proof.
  induction parts as [|p parts IH]; [reflexivity|].
  rewrite join_empty_cons, string_mem_app, IH. reflexivity.
Qed.

Lemma drop_spaces_suffix (chars : list string) :
  exists dropped, chars = (dropped ++ drop_spaces chars)%list.
Proof.
  induction chars as [|ch chars [dropped IH]]; [now exists []|].
  simpl. destruct (whitespace_code_point (code_point ch)).
  - exists (ch :: dropped). simpl. now rewrite <- IH.
  - now exists [].
Qed.

(** [strip] only takes characters away. *)
Lemma py_strip_keeps (s : string) :
  exists before after, s = before ++ py_strip s ++ after.
Proof.
  unfold py_strip.
  destruct (drop_spaces_suffix (characters s)) as [front Hfront].
  destruct (drop_spaces_suffix (rev (drop_spaces (characters s)))) as [back Hback].
  exists (join_empty front), (join_empty (rev back)).
  rewrite <- !join_empty_app, <- (characters_join s) at 1. f_equal.
  rewrite Hfront at 1. f_equal.
  rewrite <- (rev_involutive (drop_spaces (characters s))) at 1.
  rewrite Hback at 1. now rewrite rev_app_distr.
Qed.

Lemma py_strip_mem (a : ascii) (s : string) :
  string_mem a s = false -> string_mem a (py_strip s) = false.
Proof.
  destruct (py_strip_keeps s) as (before & after & H). intros Hs.
  rewrite H, !string_mem_app in Hs.
  apply orb_false_elim in Hs as [_ Hs]. now apply orb_false_elim in Hs as [Hs _].
Qed.

Lemma replace_char_removes (a : ascii) (s : string) :
  string_mem a (replace_char a "" s) = false.
Proof.
  induction s as [|b s IH]; [reflexivity|].
  simpl. destruct (Ascii.eqb_spec b a) as [->|Hne]; simpl; [exact IH|].
  rewrite IH, orb_false_r. apply Ascii.eqb_neq. congruence.
Qed.

(** ** [sanitize_double_quotes] *)

(** X7.  [sanitize_double_quotes] returns [None] for [None] and, for a
    str, a str without any double quote; it raises [AttributeError] on
    every other value. *)
Theorem sanitized_text_has_no_double_quote (text : value) :
  match text with
  | VNone => sanitize_double_quotes text = Ok VNone
  | VStr s =>
      exists r, sanitize_double_quotes text = Ok (VStr r)
                /\ string_mem double_quote r = false
  | _ => sanitize_double_quotes text = Raise AttributeError
  end.
Proof.
  destruct text as [ | b | n | f | s | xs | d]; try reflexivity.
  eexists. split; [reflexivity|].
  apply py_strip_mem, replace_char_removes.
Qed.

(** ** [translate_japanese_segments_to_korean] *)

(** The segments, put together again, are the characters they were cut
    from. *)
Lemma segments_join (chars : list string) :
  forall (segments : list (string * bool)) (current_chars : list string)
         (current_is_jp : option bool),
    join_empty (map fst (segments_of chars segments current_chars current_is_jp))
    = join_empty (map fst segments) ++ join_empty current_chars ++ join_empty chars.
Proof.
  induction chars as [|ch chars IH]; intros segments current_chars current_is_jp.
  - cbn [segments_of]. destruct current_chars as [|c cs].
    + now rewrite !append_empty_r.
    + rewrite map_app, join_empty_app. cbn [map fst].
      rewrite (join_empty_cons _ []). now rewrite !append_empty_r.
  - cbn [segments_of]. rewrite (join_empty_cons ch chars).
    destruct current_is_jp as [jp|].
    + destruct (Bool.eqb (_is_japanese_char ch) jp).
      * rewrite IH, join_empty_app, (join_empty_cons ch []), append_empty_r.
        now rewrite !append_assoc.
      * rewrite IH, map_app, join_empty_app. cbn [map fst].
        rewrite !(join_empty_cons _ []), !append_empty_r. now rewrite !append_assoc.
    + rewrite IH, join_empty_app, (join_empty_cons ch []), append_empty_r.
      now rewrite !append_assoc.
Qed.

Lemma segments_without_japanese (chars : list string) :
  existsb _is_japanese_char chars = false ->
  forall (segments : list (string * bool)) (current_chars : list string)
         (current_is_jp : option bool),
    Forall (fun seg => snd seg = false) segments ->
    current_is_jp = None \/ current_is_jp = Some false ->
    Forall (fun seg => snd seg = false)
      (segments_of chars segments current_chars current_is_jp).
Proof.
  induction chars as [|ch chars IH]; intros Hjp segments current_chars current_is_jp Hs Hc.
  - cbn [segments_of]. destruct current_chars; [assumption|].
    apply Forall_app. split; [assumption|]. constructor; [|constructor].
    destruct Hc as [-> | ->]; reflexivity.
  - simpl in Hjp. apply orb_false_elim in Hjp as [Hch Hjp].
    cbn [segments_of]. rewrite Hch.
    destruct Hc as [-> | ->]; cbn [Bool.eqb]; apply IH; auto.
Qed.

Section TranslatorFacts.

Variable service : Type.

Lemma translate_segments_plain
    (translate : string -> service -> service * option string)
    (segments : list (string * bool)) (sv : service) :
  Forall (fun seg => snd seg = false) segments ->
  translate_segments service translate segments sv = (sv, map fst segments).
Proof.
  induction 1 as [|[seg_text is_jp] segments Hseg _ IH]; [reflexivity|].
  simpl in Hseg. subst is_jp. cbn [translate_segments andb]. now rewrite IH.
Qed.

Lemma translate_segments_failing
    (translate : string -> service -> service * option string)
    (segments : list (string * bool)) :
  (forall seg sv, snd (translate seg sv) = None \/ snd (translate seg sv) = Some "") ->
  forall sv, snd (translate_segments service translate segments sv) = map fst segments.
Proof.
  intros Hfail. induction segments as [|[seg_text is_jp] segments IH]; intros sv;
    [reflexivity|].
  cbn [translate_segments].
  destruct (is_jp && negb (py_strip seg_text =? "")).
  - specialize (Hfail seg_text sv). destruct (translate seg_text sv) as [sv' answer].
    specialize (IH sv'). destruct (translate_segments service translate segments sv').
    simpl in *. rewrite IH. destruct Hfail as [-> | ->]; reflexivity.
  - specialize (IH sv). destruct (translate_segments service translate segments sv).
    simpl in *. now rewrite IH.
Qed.

(** X8.  A text without a Japanese character comes back from
    [translate_japanese_segments_to_korean] as it is, and the translator
    is not called, whatever translator there is. *)
Theorem text_without_japanese_is_kept
    (translator : option (string -> service -> service * option string))
    (text : string) (sv : service) :
  contains_japanese (VStr text) = Ok false ->
  translate_japanese_segments_to_korean service translator text sv = (sv, text).
Proof.
  intros Hjp. unfold translate_japanese_segments_to_korean.
  destruct (String.eqb_spec text "") as [->|Hne]; [reflexivity|].
  destruct translator as [translate|]; [|reflexivity].
  unfold contains_japanese in Hjp. simpl truthy in Hjp.
  destruct (String.eqb_spec text ""); [contradiction|]. cbn [negb] in Hjp.
  injection Hjp as Hjp.
  pose proof (segments_without_japanese (characters text) Hjp [] [] None
                (Forall_nil _) (or_introl eq_refl)) as Hsegs.
  rewrite (translate_segments_plain translate _ sv Hsegs).
  rewrite segments_join. cbn [map]. unfold join_empty at 1 2. cbn [String.concat].
  now rewrite characters_join.
Qed.

(** X9.  With a translator that fails on every call (an exception, or a
    result without text), [translate_japanese_segments_to_korean] returns
    the text as it is: the segments it cuts the text into make up the
    text. *)
Theorem failing_translator_keeps_text
    (translate : string -> service -> service * option string)
    (text : string) (sv : service) :
  (forall seg sv, snd (translate seg sv) = None \/ snd (translate seg sv) = Some "") ->
  snd (translate_japanese_segments_to_korean service (Some translate) text sv) = text.
Proof.
  intros Hfail. unfold translate_japanese_segments_to_korean.
  destruct (String.eqb_spec text "") as [->|Hne]; [reflexivity|].
  pose proof (translate_segments_failing translate
                (segments_of (characters text) [] [] None) Hfail sv) as H.
  destruct (translate_segments service translate _ sv) as [sv' parts].
  simpl in *. rewrite H, segments_join. cbn [map]. unfold join_empty at 1 2.
  cbn [String.concat]. now rewrite characters_join.
Qed.

End TranslatorFacts.

Lemma text_without_japanese_is_kept_witness :
  contains_japanese (VStr "Fix the login page") = Ok false
  /\ translate_japanese_segments_to_korean nat (Some sample_translator)
       "Fix the login page" 0
     = (0, "Fix the login page").
Proof.
  split; [reflexivity|].
  exact (text_without_japanese_is_kept nat (Some sample_translator)
           "Fix the login page" 0 eq_refl).
Defined.

Lemma failing_translator_keeps_text_witness :
  (forall seg sv, snd (failing_translator seg sv) = None
                  \/ snd (failing_translator seg sv) = Some "")
  /\ snd (translate_japanese_segments_to_korean nat (Some failing_translator)
            ("ab" ++ hiragana_a ++ hiragana_a ++ " c") 0)
     = "ab" ++ hiragana_a ++ hiragana_a ++ " c".
Proof.
  split; [intros seg sv; left; reflexivity|].
  exact (failing_translator_keeps_text nat failing_translator
           ("ab" ++ hiragana_a ++ hiragana_a ++ " c") 0
           (fun seg sv => or_introl eq_refl)).
Defined.

(** ** [make_clone_summary_description] *)

Lemma prefix_app (a b : string) : prefix a (a ++ b) = true.
Proof.
  induction a as [|c a IH]; simpl; [now destruct b|].
  destruct (Ascii.ascii_dec c c); [exact IH | contradiction].
Qed.

Lemma is_substring_prefix (a s : string) : prefix a s = true -> is_substring a s = true.
Proof. intros H. destruct s; cbn [is_substring]; now rewrite H. Qed.

Lemma is_substring_middle (a x y : string) : is_substring a (x ++ a ++ y) = true.
Proof.
  induction x as [|c x IH].
  - change ("" ++ a ++ y) with (a ++ y). apply is_substring_prefix, prefix_app.
  - cbn [append is_substring]. rewrite IH. apply orb_true_r.
Qed.

Lemma sanitize_no_quote (text r : value) :
  sanitize_double_quotes text = Ok r -> string_mem double_quote (py_str r) = false.
Proof.
  destruct text as [ | b | n | f | s | xs | d]; try discriminate; intros [= <-].
  - reflexivity.
  - apply py_strip_mem, replace_char_removes.
Qed.

Section CloneSummary.

Variable service : Type.
Variable translator : option (string -> service -> service * option string).

Lemma clone_summary_parts (issue : value) (sv sv' : service)
    (summary description : string) (org_key : value) :
  make_clone_summary_description service translator issue sv
  = (sv', Ok (summary, description, org_key)) ->
  exists middle,
    summary = "Clone-" ++ middle ++ "(" ++ py_str org_key ++ ")"
    /\ string_mem double_quote middle = false.
Proof.
  unfold make_clone_summary_description.
  destruct (org_key <- meth_get issue "key" VNone ;; _)
    as [[[[org_key0 summary0] description0] japanese]|e]; [|discriminate].
  destruct (match japanese, summary0 with
            | true, VStr s =>
                let (sv0, translated_summary) :=
                  translate_japanese_segments_to_korean service translator s sv in
                (sv0, if translated_summary =? "" then summary0
                      else VStr translated_summary)
            | _, _ => (sv, summary0)
            end) as [sv1 summary1].
  destruct (sanitize_double_quotes summary1) as [summary2|e] eqn:Hs; [|discriminate].
  intros [= _ <- _ <-]. exists (py_str summary2). split; [reflexivity|].
  exact (sanitize_no_quote _ _ Hs).
Qed.

(** X10.  The summary [make_clone_summary_description] returns is
    ['Clone-'], a text without any double quote, and the key of the issue
    in brackets. *)
Theorem clone_summary_shape (issue : value) (sv sv' : service)
    (summary description : string) (org_key : value) :
  make_clone_summary_description service translator issue sv
  = (sv', Ok (summary, description, org_key)) ->
  exists middle,
    summary = "Clone-" ++ middle ++ "(" ++ py_str org_key ++ ")"
    /\ string_mem double_quote middle = false.
Proof. apply clone_summary_parts. Qed.

(** The summary of a clone passes the test of the inner loop of
    [search_issues_excpt_head_by_jql]. *)
Lemma linked_clone_finds_clone (py_eq : value -> value -> bool)
    (issue : value) (sv sv' : service) (summary description k : string)
    (before after : list value) (clone : dict) :
  make_clone_summary_description service translator issue sv
  = (sv', Ok (summary, description, VStr k)) ->
  Forall (fun item => exists d s, item = VDict d /\ dict_get "summary" d = Some (VStr s))
    before ->
  dict_get "summary" clone = Some (VStr summary) ->
  linked_clone py_eq (VStr "Clone-") (VStr k) (before ++ VDict clone :: after)%list
  = Ok true.
Proof.
  intros Hmake Hbefore Hclone.
  destruct (clone_summary_parts _ _ _ _ _ _ Hmake) as (middle & -> & _).
  induction Hbefore as [|item before (d & s & -> & Hd) _ IH].
  - cbn [app linked_clone subscript_key]. rewrite Hclone. cbn [bind value_in str_in].
    rewrite (is_substring_middle "Clone-" "" (middle ++ "(" ++ py_str (VStr k) ++ ")")
             : is_substring "Clone-" ("Clone-" ++ middle ++ "(" ++ py_str (VStr k) ++ ")")
               = true).
    cbn [py_str].
    replace ("Clone-" ++ middle ++ "(" ++ k ++ ")")
      with (("Clone-" ++ middle ++ "(") ++ k ++ ")")
      by (now rewrite !append_assoc).
    now rewrite is_substring_middle.
  - cbn [app linked_clone subscript_key]. rewrite Hd. cbn [bind value_in str_in].
    destruct (is_substring "Clone-" s); [|exact IH].
    destruct (is_substring k s); [reflexivity | exact IH].
Qed.

(** X11.  An issue that was cloned before is left out by
    [search_issues_excpt_head_by_jql], called with ['Clone-']: when one of
    the issues linked to it has the summary
    [make_clone_summary_description] makes for it (the linked issues
    before that one having strs for summaries), the loop goes on to the
    next issue without keeping this one. *)
Theorem cloned_issue_is_left_out
    (tracker : Type) (http_get_issue : value -> tracker -> tracker * option value)
    (py_eq : value -> value -> bool)
    (issue : value) (sv sv' : service) (summary description k : string)
    (before after : list value) (clone : dict)
    (rest : list value) (w w1 : tracker) :
  make_clone_summary_description service translator issue sv
  = (sv', Ok (summary, description, VStr k)) ->
  get_linked_issues tracker http_get_issue (VStr k) w
  = (w1, Ok (before ++ VDict clone :: after)%list) ->
  Forall (fun item => exists d s, item = VDict d /\ dict_get "summary" d = Some (VStr s))
    before ->
  dict_get "summary" clone = Some (VStr summary) ->
  except_head_loop tracker http_get_issue py_eq (VStr "Clone-") (issue :: rest) w
  = except_head_loop tracker http_get_issue py_eq (VStr "Clone-") rest w1.
Proof.
  intros Hmake Hlinked Hbefore Hclone.
  pose proof (linked_clone_finds_clone py_eq _ _ _ _ _ _ _ after _ Hmake Hbefore Hclone)
    as Hfound.
  cbn [except_head_loop].
  unfold make_clone_summary_description in Hmake.
  destruct (meth_get issue "key" VNone) as [org_key|e]; [|discriminate].
  cbn [bind] in *.
  destruct (meth_get issue "fields" (VDict [])) as [fields|e]; [|discriminate].
  cbn [bind] in *.
  destruct (meth_get fields "summary" (VStr "")) as [summary0|e]; [|discriminate].
  cbn [bind] in *.
  destruct (extract_description_text issue) as [description0|e]; [|discriminate].
  cbn [bind] in Hmake.
  destruct (contains_japanese summary0) as [japanese|e]; [|discriminate].
  cbn [bind] in Hmake.
  destruct (match japanese, summary0 with
            | true, VStr s =>
                let (sv0, translated_summary) :=
                  translate_japanese_segments_to_korean service translator s sv in
                (sv0, if translated_summary =? "" then summary0
                      else VStr translated_summary)
            | _, _ => (sv, summary0)
            end) as [sv1 summary1].
  destruct (sanitize_double_quotes summary1) as [summary2|e]; [|discriminate].
  injection Hmake as _ _ _ ->.
  rewrite Hlinked. cbn [bind]. rewrite Hfound.
  destruct (except_head_loop tracker http_get_issue py_eq (VStr "Clone-") rest w1)
    as [w2 [kept|e]]; reflexivity.
Qed.

End CloneSummary.

Lemma clone_summary_shape_witness :
  make_clone_summary_description nat (Some sample_translator)
    (sample_issue "SI-1" sample_quoted_summary) 0
  = (0, Ok ("Clone-say hi(SI-1)", "", VStr "SI-1"))
  /\ exists middle,
       "Clone-say hi(SI-1)" = "Clone-" ++ middle ++ "(" ++ py_str (VStr "SI-1") ++ ")"
       /\ string_mem double_quote middle = false.
Proof.
  split; [reflexivity|].
  exact (clone_summary_shape nat (Some sample_translator)
           (sample_issue "SI-1" sample_quoted_summary) 0 0
           "Clone-say hi(SI-1)" "" (VStr "SI-1") eq_refl).
Defined.

Lemma cloned_issue_is_left_out_witness :
  make_clone_summary_description nat (Some sample_translator)
    (sample_issue "SI-1" sample_quoted_summary) 0
  = (0, Ok ("Clone-say hi(SI-1)", "", VStr "SI-1"))
  /\ get_linked_issues (list reply * list dict) sample_get_issue (VStr "SI-1") ([], [])
     = (([], []),
        Ok [VDict [("type", VStr "Relates"); ("direction", VStr "inward");
                   ("issue_key", VStr "CL-7");
                   ("summary", VStr "Clone-say hi(SI-1)")]])
  /\ except_head_loop (list reply * list dict) sample_get_issue (fun _ _ => false)
       (VStr "Clone-")
       [sample_issue "SI-1" sample_quoted_summary; sample_issue "SI-2" "other"] ([], [])
     = except_head_loop (list reply * list dict) sample_get_issue (fun _ _ => false)
         (VStr "Clone-") [sample_issue "SI-2" "other"] ([], []).
Proof.
  split; [reflexivity|]. split; [reflexivity|].
  apply (cloned_issue_is_left_out nat (Some sample_translator)
           (list reply * list dict) sample_get_issue (fun _ _ => false)
           (sample_issue "SI-1" sample_quoted_summary) 0 0
           "Clone-say hi(SI-1)" "" "SI-1"
           [] []
           [("type", VStr "Relates"); ("direction", VStr "inward");
            ("issue_key", VStr "CL-7"); ("summary", VStr "Clone-say hi(SI-1)")]).
  - reflexivity.
  - reflexivity.
  - constructor.
  - reflexivity.
Defined.

(** ** [search_issues_excpt_head_by_jql] *)

Section TrackerFacts.

Variable tracker : Type.
Variable http_get_issue : value -> tracker -> tracker * option value.
Variable http_post_search : dict -> tracker -> tracker * reply.
Variable py_eq : value -> value -> bool.

Lemma except_head_loop_subseq (head_str : value) (issues : list value) :
  forall (w w' : tracker) (ret : list value),
    except_head_loop tracker http_get_issue py_eq head_str issues w = (w', Ok ret) ->
    subseq ret issues.
Proof.
  induction issues as [|issue issues IH]; intros w w' ret H.
  - injection H as _ <-. constructor.
  - cbn [except_head_loop] in H.
    destruct (key <- meth_get issue "key" VNone ;; _) as [key|e]; [|discriminate].
    destruct (get_linked_issues tracker http_get_issue key w) as [w1 linked].
    destruct (linked0 <- linked ;; linked_clone py_eq head_str key linked0)
      as [skip_item|e]; [|discriminate].
    destruct (except_head_loop tracker http_get_issue py_eq head_str issues w1)
      as [w2 [kept|e]] eqn:Hrest; [|discriminate].
    specialize (IH w1 w2 kept Hrest). cbn [bind] in H.
    destruct skip_item; injection H as _ <-; now constructor.
Qed.

(** X12.  [search_issues_excpt_head_by_jql] returns issues of the search
    only, in the order of the search: its result is the list
    [search_issues_by_jql] returned with some issues left out. *)
Theorem except_head_returns_found_issues
    (fuel : nat) (jql_query head_str : value) (w w' : tracker) (ret : list value) :
  search_issues_excpt_head_by_jql tracker http_get_issue http_post_search py_eq
    fuel jql_query head_str w = (w', Some (Ok ret)) ->
  exists w1 issues,
    search_issues_by_jql tracker http_post_search fuel jql_query None (VInt 100) w
    = (w1, Some (Ok issues))
    /\ subseq ret issues.
Proof.
  unfold search_issues_excpt_head_by_jql.
  destruct (search_issues_by_jql tracker http_post_search fuel jql_query None (VInt 100) w)
    as [w1 [[issues|e]|]]; try discriminate.
  destruct (except_head_loop tracker http_get_issue py_eq head_str issues w1)
    as [w2 r] eqn:Hloop.
  intros H. exists w1, issues. split; [reflexivity|].
  apply (except_head_loop_subseq head_str issues w1 w2 ret).
  rewrite Hloop. destruct r as [kept|e]; cbn in H; congruence.
Qed.

End TrackerFacts.

Lemma except_head_returns_found_issues_witness :
  search_issues_excpt_head_by_jql (list reply * list dict) sample_get_issue
    scripted_search (fun _ _ => false) 2 (VStr "project = SI") (VStr "Clone-")
    ([last_search_page [sample_issue "SI-1" "say hi"; sample_issue "SI-2" "other"]], [])
  = (([], [search_payload (VStr "project = SI") (VInt 100) default_search_fields VNone]),
     Some (Ok [sample_issue "SI-2" "other"]))
  /\ exists w1 issues,
       search_issues_by_jql (list reply * list dict) scripted_search 2
         (VStr "project = SI") None (VInt 100)
         ([last_search_page [sample_issue "SI-1" "say hi"; sample_issue "SI-2" "other"]],
          [])
       = (w1, Some (Ok issues))
       /\ subseq [sample_issue "SI-2" "other"] issues.
Proof.
  split; [reflexivity|].
  exact (except_head_returns_found_issues (list reply * list dict) sample_get_issue
           scripted_search (fun _ _ => false) 2 (VStr "project = SI") (VStr "Clone-")
           ([last_search_page [sample_issue "SI-1" "say hi"; sample_issue "SI-2" "other"]],
            [])
           ([], [search_payload (VStr "project = SI") (VInt 100) default_search_fields
                   VNone])
           [sample_issue "SI-2" "other"] eq_refl).
Defined.

(** ** [select_jira_ticket] *)

Lemma print_jira_list_lines (issues : list value) :
  print_jira_list issues = Ok tt <->
  Forall (fun issue => print_issue_line issue = Ok tt) issues.
Proof.
  induction issues as [|issue issues IH]; simpl.
  - split; [constructor|reflexivity].
  - destruct (print_issue_line issue) as [[]|e] eqn:Hline; simpl.
    + rewrite IH. split; [now constructor|now inversion 1].
    + split; [discriminate|]. inversion 1. congruence.
Qed.

Lemma print_jira_list_members (issues selected : list value) :
  print_jira_list issues = Ok tt ->
  Forall (fun issue => In issue issues) selected ->
  print_jira_list selected = Ok tt.
Proof.
  rewrite !print_jira_list_lines, !Forall_forall. auto.
Qed.

Section SelectFacts.

Variable py_int : string -> option Z.
Variable issues : list value.

Lemma select_numbers_members (nums : list string) :
  forall selected_issues,
    Forall (fun issue => In issue issues) selected_issues ->
    exists selected,
      select_numbers py_int issues nums selected_issues = Ok selected
      /\ Forall (fun issue => In issue issues) selected.
Proof.
  induction nums as [|num nums IH]; intros acc Hacc; cbn [select_numbers].
  - now exists acc.
  - destruct (py_strip num =? ""); [now apply IH|].
    destruct (py_int (py_strip num)) as [n|]; [|now exists acc].
    destruct ((n - 1 <? 0)%Z || (n - 1 >=? Z.of_nat (List.length issues))%Z) eqn:Hout;
      [now apply IH|].
    apply orb_false_elim in Hout as [Hlo Hhi].
    apply Z.ltb_ge in Hlo. rewrite Z.geb_leb in Hhi. apply Z.leb_gt in Hhi.
    destruct (nth_error issues (Z.to_nat (n - 1))) as [issue|] eqn:Hnth.
    + apply IH. apply Forall_app. split; [exact Hacc|].
      constructor; [|constructor]. exact (nth_error_In _ _ Hnth).
    + apply nth_error_None in Hnth. lia.
Qed.

Lemma select_numbers_named (nums : list string) (ns : list nat) (rest : list string) :
  Forall2 (names_issue py_int issues) nums ns ->
  forall selected_issues,
    select_numbers py_int issues (nums ++ rest) selected_issues
    = select_numbers py_int issues rest
        (selected_issues ++ map (fun n => nth n issues VNone) ns).
Proof.
  induction 1 as [|num n nums ns (Hne & Hint & Hlt) _ IH]; intros acc.
  - simpl. now rewrite app_nil_r.
  - cbn [app select_numbers map].
    apply String.eqb_neq in Hne. rewrite Hne, Hint.
    replace (Z.of_nat n + 1 - 1)%Z with (Z.of_nat n) by lia.
    replace ((Z.of_nat n <? 0)%Z || (Z.of_nat n >=? Z.of_nat (List.length issues))%Z)
      with false
      by (symmetry; apply orb_false_intro;
          [apply Z.ltb_ge; lia | rewrite Z.geb_leb; apply Z.leb_gt; lia]).
    rewrite Nat2Z.id, (nth_error_nth' issues VNone Hlt), IH, <- app_assoc.
    reflexivity.
Qed.

Lemma named_issues_members (nums : list string) (ns : list nat) :
  Forall2 (names_issue py_int issues) nums ns ->
  Forall (fun issue => In issue issues) (map (fun n => nth n issues VNone) ns).
Proof.
  induction 1 as [|num n nums ns (_ & _ & Hlt) _ IH]; simpl; constructor.
  - now apply nth_In.
  - exact IH.
Qed.

(** X13.  Once the issues can be listed, [select_jira_ticket] returns
    whatever was typed, and what it returns are issues of the list it was
    given: no number, however large or small, reaches outside the list. *)
Theorem selection_returns_listed_issues (answer : string) :
  print_jira_list issues = Ok tt ->
  exists selected,
    select_jira_ticket py_int issues answer = Ok selected
    /\ Forall (fun issue => In issue issues) selected.
Proof.
  intros Hlist. unfold select_jira_ticket. rewrite Hlist. cbn [bind].
  destruct (py_strip answer =? ""); [now exists []|].
  destruct (select_numbers_members (split_on "," (py_strip answer)) [])
    as (selected & -> & Hin); [constructor|].
  cbn [bind]. rewrite (print_jira_list_members issues selected Hlist Hin).
  now exists selected.
Qed.

(** X14.  An answer made of numbers of the list, separated by commas,
    selects the issues with these numbers (counted from 1), in the order
    of the answer and as often as a number is given. *)
Theorem selection_follows_numbers (answer : string) (ns : list nat) :
  print_jira_list issues = Ok tt ->
  Forall2 (names_issue py_int issues) (split_on "," (py_strip answer)) ns ->
  select_jira_ticket py_int issues answer
  = Ok (map (fun n => nth n issues VNone) ns).
Proof.
  intros Hlist Hnums. unfold select_jira_ticket. rewrite Hlist. cbn [bind].
  destruct (py_strip answer =? "") eqn:Hempty.
  - apply String.eqb_eq in Hempty. rewrite Hempty in Hnums.
    inversion Hnums as [|num n nums ns' (Hne & _) _]; subst.
    now destruct Hne.
  - pose proof (select_numbers_named _ ns [] Hnums []) as Hsel.
    rewrite app_nil_r in Hsel. rewrite Hsel. cbn [select_numbers app bind].
    now rewrite (print_jira_list_members issues _ Hlist (named_issues_members _ _ Hnums)).
Qed.

(** X15.  The first entry of the answer that is not a number ends the
    selection: the issues named before it are returned, and what follows
    it is not read, numbers of the list included. *)
Theorem selection_stops_at_non_number (answer bad : string)
    (before after : list string) (ns : list nat) :
  print_jira_list issues = Ok tt ->
  split_on "," (py_strip answer) = (before ++ bad :: after)%list ->
  Forall2 (names_issue py_int issues) before ns ->
  py_strip bad <> "" ->
  py_int (py_strip bad) = None ->
  select_jira_ticket py_int issues answer
  = Ok (map (fun n => nth n issues VNone) ns).
Proof.
  intros Hlist Hsplit Hnums Hne Hbad. unfold select_jira_ticket.
  rewrite Hlist. cbn [bind].
  destruct (py_strip answer =? "") eqn:Hempty.
  - apply String.eqb_eq in Hempty. rewrite Hempty in Hsplit.
    destruct before as [|b [|b' before]]; try discriminate.
    injection Hsplit as <- _. now destruct Hne.
  - rewrite Hsplit, (select_numbers_named _ ns _ Hnums []).
    cbn [select_numbers app]. apply String.eqb_neq in Hne. rewrite Hne, Hbad.
    cbn [bind].
    now rewrite (print_jira_list_members issues _ Hlist (named_issues_members _ _ Hnums)).
Qed.

End SelectFacts.

Lemma selection_returns_listed_issues_witness :
  print_jira_list sample_issues = Ok tt
  /\ select_jira_ticket decimal_int sample_issues "0, 9, ,2"
     = Ok [sample_issue "SI-2" "second"]
  /\ exists selected,
       select_jira_ticket decimal_int sample_issues "0, 9, ,2"= Ok selected
       /\ Forall (fun issue => In issue sample_issues) selected.
Proof.
  split; [reflexivity|]. split; [reflexivity|].
  exact (selection_returns_listed_issues decimal_int sample_issues "0, 9, ,2"
           eq_refl).
Defined.

Lemma selection_follows_numbers_witness :
  print_jira_list sample_issues = Ok tt
  /\ Forall2 (names_issue decimal_int sample_issues)
       (split_on "," (py_strip " 3,1 ,3 ")) [2; 0; 2]
  /\ select_jira_ticket decimal_int sample_issues " 3,1 ,3 "
     = Ok [sample_issue "SI-3" "third"; sample_issue "SI-1" "first";
           sample_issue "SI-3" "third"].
Proof.
  assert (Hnums : Forall2 (names_issue decimal_int sample_issues)
                    (split_on "," (py_strip " 3,1 ,3 ")) [2; 0; 2]).
  { repeat constructor; try discriminate; simpl; lia. }
  split; [reflexivity|]. split; [exact Hnums|].
  exact (selection_follows_numbers decimal_int sample_issues " 3,1 ,3 " [2; 0; 2]
           eq_refl Hnums).
Defined.

Lemma selection_stops_at_non_number_witness :
  print_jira_list sample_issues = Ok tt
  /\ split_on "," (py_strip "2,x,3") = (["2"] ++ "x" :: ["3"])%list
  /\ Forall2 (names_issue decimal_int sample_issues) ["2"] [1]
  /\ py_strip "x" <> ""
  /\ decimal_int (py_strip "x") = None
  /\ select_jira_ticket decimal_int sample_issues "2,x,3"
     = Ok [sample_issue "SI-2" "second"].
Proof.
  assert (Hnums : Forall2 (names_issue decimal_int sample_issues) ["2"] [1]).
  { repeat constructor; try discriminate; simpl; lia. }
  assert (Hne : py_strip "x" <> "") by discriminate.
  split; [reflexivity|]. split; [reflexivity|]. split; [exact Hnums|].
  split; [exact Hne|]. split; [reflexivity|].
  exact (selection_stops_at_non_number decimal_int sample_issues "2,x,3" "x"
           ["2"] ["3"] [1] eq_refl eq_refl Hnums Hne eq_refl).
Defined.

(** ** The escaping of [search_issues_by_summary] *)

Lemma replace_char_app (old : ascii) (new x y : string) :
  replace_char old new (x ++ y) = replace_char old new x ++ replace_char old new y.
Proof.
  induction x as [|a x IH]; [reflexivity|].
  cbn [append replace_char]. now rewrite IH, append_assoc.
Qed.

Lemma escape_chars_app (chars : list ascii) :
  forall x y : string,
    fold_left (fun escaped_summary char =>
                 replace_char char (escaped_char char) escaped_summary) chars (x ++ y)
    = fold_left (fun escaped_summary char =>
                   replace_char char (escaped_char char) escaped_summary) chars x
      ++ fold_left (fun escaped_summary char =>
                      replace_char char (escaped_char char) escaped_summary) chars y.
Proof.
  induction chars as [|char chars IH]; intros x y; [reflexivity|].
  cbn [fold_left]. now rewrite replace_char_app, IH.
Qed.

Lemma escape_summary_char (a : ascii) :
  escape_summary (String a "")
  = if existsb (Ascii.eqb a) jql_special_chars then escaped_char a else String a "".
Proof.
  destruct a as [[] [] [] [] [] [] [] []]; reflexivity.
Qed.

(** X16.  The six [replace] calls of [search_issues_by_summary] do not
    disturb one another: in the escaped summary every double quote,
    bracket, parenthesis and ampersand of the keyword stands behind two
    backslashes, once, and every other character is as it was. *)
Theorem escaping_is_character_wise (summary_keyword : string) :
  escape_summary summary_keyword
  = String.concat ""
      (map (fun char => if existsb (Ascii.eqb char) jql_special_chars
                        then escaped_char char else String char "")
         (list_ascii_of_string summary_keyword)).
Proof.
  induction summary_keyword as [|a s IH]; [reflexivity|].
  change (String a s) with (String a "" ++ s) at 1.
  unfold escape_summary in *. rewrite escape_chars_app.
  fold (escape_summary (String a "")). rewrite escape_summary_char, IH.
  cbn [list_ascii_of_string map].
  destruct (list_ascii_of_string s) as [|b l] eqn:Hl; [|reflexivity].
  cbn [map String.concat]. now rewrite append_empty_r.
Qed.

(** ** The rewritten description *)

Lemma rewritten_document_settled
    (t r : value) (copied_attachments : option (list attachment)) :
  wf_value t = true ->
  scalar_urls (filename_to_url copied_attachments) = true ->
  _adf_replace_media_with_attachment_links t copied_attachments = Ok r ->
  settled r = true.
Proof.
  unfold _adf_replace_media_with_attachment_links. cbv zeta.
  intros Hwf Hurls H.
  apply bind_Ok in H as [r0 [Hr0 Happ]].
  pose proof (transform_output_settled _ Hurls t r0 Hwf Hr0) as Hset.
  destruct (is_doc r0) eqn:Hdoc;
    [|rewrite (append_attachments_other _ _ Hdoc) in Happ; now injection Happ as <-].
  destruct (filename_to_url copied_attachments) as [|entry entries] eqn:Hm;
    [rewrite append_attachments_empty in Happ; now injection Happ as <-|].
  rewrite <- Hm in *.
  assert (Hne : filename_to_url copied_attachments <> []) by (rewrite Hm; discriminate).
  clear Hm entry entries.
  destruct r0 as [ | | | | | xs | d0]; try discriminate. simpl in Hdoc.
  assert (Hc : exists cs, dict_get "content" d0 = Some (VList cs)
                          \/ (dict_get "content" d0 = None /\ cs = [])).
  { destruct (dict_get "content" d0) as [c|] eqn:Hget; [|exists []; now right].
    destruct c as [ | | | | | cs | ]; try (exists cs; now left); exfalso;
      unfold append_attachments in Happ; rewrite Hdoc, urls_of_mapping in Happ;
      destruct (filename_to_url copied_attachments); try contradiction;
      unfold dict_has, get_default in Happ; rewrite Hget in Happ;
      rewrite Hget in Happ; discriminate. }
  destruct Hc as [cs Hc].
  rewrite (append_attachments_doc copied_attachments d0 cs Hdoc Hne Hc) in Happ.
  injection Happ as <-.
  now apply trailer_settled.
Qed.

(** X17.  What [_adf_replace_media_with_attachment_links] returns holds no
    node of type media, mediaSingle or mediaGroup, at any depth and under
    any key, the attachments trailer included. *)
Theorem rewritten_document_has_no_media
    (adf_doc r : value) (copied_attachments : option (list attachment)) :
  wf_value adf_doc = true ->
  scalar_urls (filename_to_url copied_attachments) = true ->
  _adf_replace_media_with_attachment_links adf_doc copied_attachments = Ok r ->
  media_free r = true.
Proof.
  intros Hwf Hurls H.
  apply (settled_parts r).
  exact (rewritten_document_settled adf_doc r copied_attachments Hwf Hurls H).
Qed.

Lemma rewritten_document_has_no_media_witness :
  wf_value sample_page = true
  /\ scalar_urls (filename_to_url (Some [sample_attachment "a.png" "https://x/a"])) = true
  /\ media_free sample_page = false
  /\ exists r,
       _adf_replace_media_with_attachment_links sample_page
         (Some [sample_attachment "a.png" "https://x/a"]) = Ok r
       /\ media_free r = true.
Proof.
  split; [reflexivity|]. split; [reflexivity|]. split; [reflexivity|].
  eexists. split; [reflexivity|].
  exact (rewritten_document_has_no_media sample_page _
           (Some [sample_attachment "a.png" "https://x/a"]) eq_refl eq_refl eq_refl).
Defined.

(** ** The mapping from filenames to URLs *)

Lemma find_last {A} (p : A -> bool) (xs : list A) (x : A) :
  find p (xs ++ [x])
  = match find p xs with
    | Some y => Some y
    | None => if p x then Some x else None
    end.
Proof.
  induction xs as [|y xs IH]; simpl; [reflexivity|].
  now destruct (p y).
Qed.

Lemma filename_to_url_fold (f : string) (items : list attachment) :
  forall acc : dict,
    dict_get f
      (fold_left
         (fun acc item =>
            if truthy (VStr (filename item)) && truthy (content item)
            then dict_set (filename item) (content item) acc
            else acc)
         items acc)
    = match find (fun item => (filename item =? f)
                              && (truthy (VStr (filename item)) && truthy (content item)))
              (rev items) with
      | Some item => Some (content item)
      | None => dict_get f acc
      end.
Proof.
  induction items as [|item items IH]; intros acc; [reflexivity|].
  cbn [fold_left rev]. rewrite IH, find_last.
  destruct (find _ (rev items)); [reflexivity|].
  destruct (truthy (VStr (filename item)) && truthy (content item));
    [|now rewrite andb_false_r].
  rewrite andb_true_r.
  destruct (String.eqb_spec (filename item) f) as [->|Hne].
  - apply dict_get_set_same.
  - apply dict_get_set_other. congruence.
Qed.

(** X18.  Of the copied attachments that have a filename and a URL, the
    last one of a name gives the URL this name is linked to; a name none
    of them has is not in the mapping. *)
Theorem last_attachment_of_a_name_is_linked
    (f : string) (copied_attachments : list attachment) :
  dict_get f (filename_to_url (Some copied_attachments))
  = option_map content
      (find (fun item => (filename item =? f)
                         && (truthy (VStr (filename item)) && truthy (content item)))
         (rev copied_attachments)).
Proof.
  unfold filename_to_url. rewrite filename_to_url_fold.
  now destruct (find _ (rev copied_attachments)).
Qed.

(** ** [clone_issue_with_media_upload] *)

Lemma wf_value_get (d : dict) (k : string) (default : value) :
  wf_value (VDict d) = true -> wf_value default = true ->
  wf_value (get_default d k default) = true.
Proof.
  intros Hd Hdef. unfold get_default.
  destruct (dict_get k d) as [v|] eqn:Hget; [|exact Hdef].
  simpl in Hd. apply andb_prop in Hd as [_ Hall].
  rewrite forallb_forall in Hall. exact (Hall _ (dict_get_In _ _ _ Hget)).
Qed.

Lemma wf_value_meth_get (o : value) (k : string) (default v : value) :
  wf_value o = true -> wf_value default = true ->
  meth_get o k default = Ok v -> wf_value v = true.
Proof.
  destruct o; try discriminate. intros Ho Hdef [= <-]. now apply wf_value_get.
Qed.

Lemma get_default_set_other (d : dict) (k k0 : string) (v default : value) :
  k0 <> k -> get_default (dict_set k v d) k0 default = get_default d k0 default.
Proof. intros Hne. unfold get_default. now rewrite dict_get_set_other. Qed.

(** X20.  [clone_issue_with_media_upload] never reads its [link_type]
    argument: with another value for it, the same calls reach the tracker
    and the same result comes back. *)
Theorem clone_ignores_link_type
    (world : Type)
    (get_issue : value -> world -> world * value)
    (create_issue : dict -> world -> world * value)
    (copy_attachments : value -> value -> world -> world * option (list attachment))
    (put_description : value -> value -> world -> world)
    (args : dict) (link_type : value) (w : world) :
  clone_issue_with_media_upload_body world get_issue create_issue copy_attachments
    put_description (dict_set "link_type" link_type args) w
  = clone_issue_with_media_upload_body world get_issue create_issue copy_attachments
      put_description args w.
Proof.
  unfold clone_issue_with_media_upload_body.
  now rewrite !get_default_set_other by discriminate.
Qed.

Section RecordedFacts.

Variable issue_answer : list request -> value -> value.
Variable create_answer : list request -> dict -> value.
Variable copy_answer : list request -> value -> value -> option (list attachment).


End RecordedFacts.


(** ** The segments of [translate_japanese_segments_to_korean] *)

Lemma segments_of_runs (chars : list string) :
  forall (segments : list (string * bool)) (current_chars : list string) (jp : bool),
    current_chars <> [] ->
    Forall (fun ch => _is_japanese_char ch = jp) current_chars ->
    exists runs : list (list string * bool),
      segments_of chars segments current_chars (Some jp)
      = (segments ++ map (fun run => (join_empty (fst run), snd run)) runs)%list
      /\ List.concat (map fst runs) = (current_chars ++ chars)%list
      /\ Forall (fun run => fst run <> []
                            /\ Forall (fun ch => _is_japanese_char ch = snd run) (fst run))
           runs
      /\ nth_error (map snd runs) 0 = Some jp
      /\ (forall i a b,
            nth_error (map snd runs) i = Some a ->
            nth_error (map snd runs) (S i) = Some b -> a <> b).
Proof.
  induction chars as [|ch chars IH]; intros segments current_chars jp Hne Hjp.
  - exists [(current_chars, jp)]. cbn [segments_of].
    destruct current_chars as [|c cs]; [contradiction|].
    split; [reflexivity|]. split; [cbn; now rewrite !app_nil_r|].
    split; [constructor; [split; [discriminate | exact Hjp] | constructor]|].
    split; [reflexivity|].
    intros [|i] a b Ha Hb; simpl in Hb; [discriminate|destruct i; discriminate].
  - cbn [segments_of].
    destruct (Bool.eqb (_is_japanese_char ch) jp) eqn:Hch.
    + apply Bool.eqb_prop in Hch.
      destruct (IH segments (current_chars ++ [ch])%list jp) as (runs & Hs & Hc & Hr & Hh & Ha).
      * now destruct current_chars.
      * apply Forall_app. split; [assumption|]. now repeat constructor.
      * exists runs. rewrite <- app_assoc in Hc. now repeat split.
    + apply Bool.eqb_false_iff in Hch.
      destruct (IH (segments ++ [(join_empty current_chars, jp)])%list [ch]
                  (_is_japanese_char ch)) as (runs & Hs & Hc & Hr & Hh & Ha).
      * discriminate.
      * now repeat constructor.
      * exists ((current_chars, jp) :: runs).
        split; [now rewrite Hs, <- app_assoc|].
        split; [cbn [map fst List.concat]; now rewrite Hc|].
        split; [constructor; [now split | assumption]|].
        split; [reflexivity|].
        intros [|i] a b Hi Hsi.
        -- change (nth_error (map snd runs) 0 = Some b) in Hsi.
           injection Hi as <-. rewrite Hh in Hsi. injection Hsi as <-. congruence.
        -- exact (Ha i a b Hi Hsi).
Qed.

(** X21.  [translate_japanese_segments_to_korean] cuts the text into runs
    of characters, in order and without loss: each segment is a run that
    is not empty and is Japanese throughout or not at all, as its flag
    says, and two neighbours never have the same flag, so the runs are as
    long as they can be. *)
Theorem segments_are_maximal_runs (text : string) :
  exists runs : list (list string * bool),
    segments_of (characters text) [] [] None
    = map (fun run => (join_empty (fst run), snd run)) runs
    /\ List.concat (map fst runs) = characters text
    /\ Forall (fun run => fst run <> []
                          /\ Forall (fun ch => _is_japanese_char ch = snd run) (fst run))
         runs
    /\ (forall i a b,
          nth_error (map snd runs) i = Some a ->
          nth_error (map snd runs) (S i) = Some b -> a <> b).
Proof.
  destruct (characters text) as [|ch chars].
  - exists []. repeat split; [constructor|].
    intros [|i] a b Ha; discriminate.
  - cbn [segments_of app].
    destruct (segments_of_runs chars [] [ch] (_is_japanese_char ch))
      as (runs & Hs & Hc & Hr & _ & Ha).
    + discriminate.
    + now repeat constructor.
    + exists runs. now repeat split.
Qed.

(** ** The description [create_issue] sends *)


